(* ========================================================================= *)
(* BoxOS event core: a shallow embedding of the user library (ulib.c/ulib.h) *)
(* and of the hardware deck (hardware_deck.c), with the properties of the    *)
(* event transport, the timer table and the console operations.              *)
(* ========================================================================= *)

From stdpp Require Import base option numbers list gmap strings.

Local Open Scope Z_scope.

(* ------------------------------------------------------------------------- *)
(* Machine integers and byte images                                          *)
(* ------------------------------------------------------------------------- *)

(** uint64_t and uint32_t arithmetic: values are kept in Z and reduced
    explicitly where the C code can wrap around. *)
Definition wrap64 (z : Z) : Z := z mod 2 ^ 64.
Definition wrap32 (z : Z) : Z := z mod 2 ^ 32.

(** An int read back from its 32-bit pattern. *)
Definition sint32 (v : Z) : Z := if v <? 2 ^ 31 then v else v - 2 ^ 32.

(** Little-endian image of an integer on [w] bytes and its inverse. *)
Fixpoint le_bytes (w : nat) (v : Z) : list Z :=
  match w with
  | O => []
  | S w' => v mod 256 :: le_bytes w' (v / 256)
  end.

Fixpoint le_value (bs : list Z) : Z :=
  match bs with
  | [] => 0
  | b :: r => b + 256 * le_value r
  end.

(** Reading a [w]-byte little-endian unsigned integer at byte offset [off]:
    the value always lies within the C type. *)
Definition read_le (w off : nat) (m : list Z) : Z :=
  le_value (take w (drop off m)) mod 2 ^ (8 * Z.of_nat w).

(** Outcome of a run of modelled C code: a value, a call that never returns
    (blocking read with no input left), or an access outside an object. *)
Inductive FaultKind := ReadOutOfBounds | WriteOutOfBounds | DanglingEntry.

Inductive Res (A : Type) : Type :=
  | Ok (a : A)
  | Blocks
  | Fault (k : FaultKind).
Arguments Ok {A} a.
Arguments Blocks {A}.
Arguments Fault {A} k.

#[global] Instance Res_bind : MBind Res := fun A B f m =>
  match m with
  | Ok a => f a
  | Blocks => Blocks
  | Fault k => Fault k
  end.
#[global] Instance Res_ret : MRet Res := fun A a => Ok a.

(** Bounds-checked byte accesses: an access outside the object is a fault. *)
Definition load_byte (buf : list Z) (i : nat) : Res Z :=
  match buf !! i with
  | Some b => Ok b
  | None => Fault ReadOutOfBounds
  end.

Definition store_at {A : Type} (buf : list A) (i : nat) (x : A) : Res (list A) :=
  if decide (i < length buf)%nat then Ok (<[i := x]> buf)
  else Fault WriteOutOfBounds.

Definition store_byte (buf : list Z) (i : nat) (b : Z) : Res (list Z) :=
  store_at buf i b.

(** ulib.c memcpy: [while (n--) *d++ = *s++;], destination offset [d] in
    [dest], source offset [s] in [src]. *)
Fixpoint memcpy (dest : list Z) (d : nat) (src : list Z) (s : nat) (n : nat)
  : Res (list Z) :=
  match n with
  | O => Ok dest
  | S n' =>
      b ← load_byte src s;
      dest' ← store_byte dest d b;
      memcpy dest' (S d) src (S s) n'
  end.

(** ulib.c strlen.  A C string is the list of bytes found at the pointer; the
    end of the list stands for the terminating NUL. *)
Fixpoint strlen (s : list Z) : nat :=
  match s with
  | [] => O
  | c :: r => if c =? 0 then O else S (strlen r)
  end.

(* ------------------------------------------------------------------------- *)
(* Wire formats (ulib.h)                                                     *)
(* ------------------------------------------------------------------------- *)

Definition EVENT_DATA_SIZE : Z := 224.
Definition MAX_ROUTING_STEPS : Z := 8.

Definition EVENT_CONSOLE_WRITE : Z := 70.
Definition EVENT_CONSOLE_WRITE_ATTR : Z := 71.
Definition EVENT_CONSOLE_READ_LINE : Z := 72.
Definition EVENT_CONSOLE_READ_CHAR : Z := 73.
Definition EVENT_CONSOLE_CLEAR : Z := 74.
Definition EVENT_CONSOLE_SET_POS : Z := 75.
Definition EVENT_CONSOLE_GET_POS : Z := 76.
Definition EVENT_TIMER_SLEEP : Z := 52.

(** The packed struct Event of ulib.h, field by field. *)
Record Event := mkEvent {
  ev_id : Z;              (* uint64_t id *)
  ev_user_id : Z;         (* uint64_t user_id *)
  ev_type : Z;            (* uint32_t type *)
  ev_pad : Z;             (* uint32_t _pad *)
  ev_timestamp : Z;       (* uint64_t timestamp *)
  ev_route : list Z;      (* uint8_t route[MAX_ROUTING_STEPS] *)
  ev_data : list Z        (* uint8_t data[EVENT_DATA_SIZE] *)
}.

(** sizeof(Event): the struct is packed, so the size is the sum of the
    fields. *)
Definition sizeof_Event : Z :=
  8 + 8 + 4 + 4 + 8 + MAX_ROUTING_STEPS * 1 + EVENT_DATA_SIZE * 1.

(** The struct as it lies in memory. *)
Definition Event_bytes (ev : Event) : list Z :=
  le_bytes 8 (ev_id ev) ++ le_bytes 8 (ev_user_id ev) ++
  le_bytes 4 (ev_type ev) ++ le_bytes 4 (ev_pad ev) ++
  le_bytes 8 (ev_timestamp ev) ++ ev_route ev ++ ev_data ev.

(** Reading the struct back from a memory image. *)
Definition Event_of_bytes (m : list Z) : Event :=
  {| ev_id := read_le 8 0 m;
     ev_user_id := read_le 8 8 m;
     ev_type := read_le 4 16 m;
     ev_pad := read_le 4 20 m;
     ev_timestamp := read_le 8 24 m;
     ev_route := take 8 (drop 32 m);
     ev_data := take 224 (drop 40 m) |}.

(** A well-formed Event value: every field within its C type. *)
Definition is_byte (b : Z) : Prop := 0 <= b < 256.

Record Event_wf (ev : Event) : Prop := {
  wf_id : 0 <= ev_id ev < 2 ^ 64;
  wf_user_id : 0 <= ev_user_id ev < 2 ^ 64;
  wf_type : 0 <= ev_type ev < 2 ^ 32;
  wf_pad : 0 <= ev_pad ev < 2 ^ 32;
  wf_timestamp : 0 <= ev_timestamp ev < 2 ^ 64;
  wf_route_len : length (ev_route ev) = 8%nat;
  wf_route : Forall is_byte (ev_route ev);
  wf_data_len : length (ev_data ev) = 224%nat;
  wf_data : Forall is_byte (ev_data ev)
}.

(** sizeof(Response): packed as well
    (event_id, workflow_id, status, error_code, timestamp, result_data,
    result_size, completed_prefix, padding[7]). *)
Definition sizeof_Response : Z := 8 + 8 + 4 + 4 + 8 + 8 + 8 + 1 + 7.

(* ------------------------------------------------------------------------- *)
(* The user library (ulib.c)                                                 *)
(* ------------------------------------------------------------------------- *)

Module Ulib.

(** EventRing and ResponseRing (ulib.h) have the same shape: two 64-bit
    counters and 256 slots.  A slot is kept as its memory image, because the
    code moves slots as raw qwords. *)
Record Ring := mkRing {
  ring_head : Z;
  ring_tail : Z;
  ring_slots : list (list Z)
}.

Abbreviation EventRing := Ring (only parsing).
Abbreviation ResponseRing := Ring (only parsing).

(** The qword copy loops of push_event and pop_response:
    [for (i = 0; i < count; i++) dst[i] = src[i];] on uint64_t pointers. *)
Definition qword_at (i : nat) (m : list Z) : list Z :=
  take 8 (drop (8 * i) m).

Definition store_qword (i : nat) (q : list Z) (m : list Z) : list Z :=
  take (8 * i) m ++ q ++ drop (8 * i + 8) m.

Fixpoint copy_qwords (i count : nat) (src dst : list Z) : list Z :=
  match count with
  | O => dst
  | S c => copy_qwords (S i) c src (store_qword i (qword_at i src) dst)
  end.

(** push_event (ulib.c:26): returns 0 on a full ring, else copies 32 qwords
    of the event into slot [tail & 0xFF] and publishes [tail + 1]. *)
Definition push_event (ev : Event) (r : EventRing) : Z * EventRing :=
  let tail := ring_tail r in
  let head := ring_head r in
  if 256 <=? wrap64 (tail - head) then (0, r)
  else
    let idx := Z.to_nat (Z.land tail 255) in
    let slots := alter (copy_qwords 0 32 (Event_bytes ev)) idx (ring_slots r) in
    (1, {| ring_head := head; ring_tail := wrap64 (tail + 1);
           ring_slots := slots |}).

(** pop_response (ulib.c:53): returns 0 on an empty ring, else copies
    sizeof(Response)/8 qwords of slot [head & 0xFF] into [resp] and advances
    head. *)
Definition pop_response (resp : list Z) (r : ResponseRing)
  : Z * list Z * ResponseRing :=
  let head := ring_head r in
  let tail := ring_tail r in
  if tail <=? head then (0, resp, r)
  else
    let idx := Z.to_nat (Z.land head 255) in
    let slot := default [] (ring_slots r !! idx) in
    let resp' := copy_qwords 0 (Z.to_nat (sizeof_Response / 8)) slot resp in
    (1, resp', {| ring_head := wrap64 (head + 1); ring_tail := tail;
                  ring_slots := ring_slots r |}).

(** The static state of ulib.c that the modelled functions touch. *)
Record UState := mkUState {
  event_ring : EventRing;
  response_ring : ResponseRing;
  next_event_id : Z
}.

Definition NOTIFY_SUBMIT : Z := 1.
Definition NOTIFY_WAIT : Z := 2.

(** [memset(&ev, 0, sizeof(ev))]. *)
Definition zero_Event : Event :=
  mkEvent 0 0 0 0 0 (replicate 8 0) (replicate 224 0).

(** execute_event, lines 88-107: the Event is built on the stack and the
    payload is copied in, after clamping payload_size to EVENT_DATA_SIZE. *)
Definition execute_event_build (type deck_prefix : Z)
    (payload : option (list Z)) (payload_size : Z) (id : Z) : Res Event :=
  let ev := zero_Event in
  let route := <[1%nat := 0]> (<[0%nat := deck_prefix]> (ev_route ev)) in
  data ← match payload with
         | Some p =>
             if 0 <? payload_size then
               let payload_size :=
                 if EVENT_DATA_SIZE <? payload_size then EVENT_DATA_SIZE
                 else payload_size in
               memcpy (ev_data ev) 0 p 0 (Z.to_nat payload_size)
             else Ok (ev_data ev)
         | None => Ok (ev_data ev)
         end;
  Ok {| ev_id := id; ev_user_id := 1; ev_type := type; ev_pad := ev_pad ev;
        ev_timestamp := 0; ev_route := route; ev_data := data |}.

Section Kernel.

(** The trap [int $0x80]: what the kernel does to the shared rings while the
    caller is inside kernel_notify is outside ulib.c. *)
Variable kernel_notify : Z -> Z -> UState -> UState.

(** execute_event (ulib.c:85).  [out_response] is the caller's Response
    object, if any; the result carries the return value and that object. *)
Definition execute_event (type deck_prefix : Z) (payload : option (list Z))
    (payload_size : Z) (out_response : option (list Z)) (st : UState)
  : Res (Z * option (list Z) * UState) :=
  ev ← execute_event_build type deck_prefix payload payload_size
         (next_event_id st);
  let st := {| event_ring := event_ring st; response_ring := response_ring st;
               next_event_id := wrap64 (next_event_id st + 1) |} in
  let '(pushed, er) := push_event ev (event_ring st) in
  let st := {| event_ring := er; response_ring := response_ring st;
               next_event_id := next_event_id st |} in
  if pushed =? 0 then Ok (0, out_response, st)
  else
    let st := kernel_notify 1 NOTIFY_SUBMIT st in
    let st := kernel_notify 1 NOTIFY_WAIT st in
    let resp := default (replicate (Z.to_nat sizeof_Response) 0) out_response in
    let '(popped, resp', rr) := pop_response resp (response_ring st) in
    let st := {| event_ring := event_ring st; response_ring := rr;
                 next_event_id := next_event_id st |} in
    match out_response with
    | Some _ => Ok (popped, Some resp', st)
    | None => Ok (1, None, st)
    end.

(** print, lines 138-147: the local [payload] array after the length header
    and the (truncated) string have been stored, with the size handed to
    execute_event.  The array is not initialised in C; bytes that are never
    stored to are never read, and are shown as 0. *)
Definition print_payload (str : list Z) : Res (list Z * Z) :=
  let len := Z.of_nat (strlen str) in
  let len := if EVENT_DATA_SIZE - 4 <? len then EVENT_DATA_SIZE - 4 else len in
  let payload := replicate (Z.to_nat EVENT_DATA_SIZE) 0 in
  payload ← memcpy payload 0 (le_bytes 4 (wrap32 len)) 0 4;
  payload ← memcpy payload 4 str 0 (Z.to_nat len);
  Ok (payload, 4 + len).

(** print (ulib.c:135). *)
Definition print (str : option (list Z)) (st : UState) : Res UState :=
  match str with
  | None => Ok st
  | Some s =>
      if Z.of_nat (strlen s) =? 0 then Ok st
      else
        '(payload, size) ← print_payload s;
        '(_, _, st') ← execute_event EVENT_CONSOLE_WRITE 3 (Some payload)
                         size None st;
        Ok st'
  end.

(** print_attr, lines 155-165. *)
Definition print_attr_payload (str : list Z) (attr : Z) : Res (list Z * Z) :=
  let len := Z.of_nat (strlen str) in
  let len := if EVENT_DATA_SIZE - 5 <? len then EVENT_DATA_SIZE - 5 else len in
  let payload := replicate (Z.to_nat EVENT_DATA_SIZE) 0 in
  payload ← store_byte payload 0 attr;
  payload ← memcpy payload 1 (le_bytes 4 (wrap32 len)) 0 4;
  payload ← memcpy payload 5 str 0 (Z.to_nat len);
  Ok (payload, 5 + len).

(** print_attr (ulib.c:152). *)
Definition print_attr (str : option (list Z)) (attr : Z) (st : UState)
  : Res UState :=
  match str with
  | None => Ok st
  | Some s =>
      if Z.of_nat (strlen s) =? 0 then Ok st
      else
        '(payload, size) ← print_attr_payload s attr;
        '(_, _, st') ← execute_event EVENT_CONSOLE_WRITE_ATTR 3 (Some payload)
                         size None st;
        Ok st'
  end.

(** sleep_ms (ulib.c:371): the 32-bit argument is widened to the 8-byte
    payload. *)
Definition sleep_ms (ms : Z) (st : UState) : Res UState :=
  '(_, _, st') ← execute_event EVENT_TIMER_SLEEP 3 (Some (le_bytes 8 ms)) 8
                   None st;
  Ok st'.

End Kernel.

(** The consumer of a ring takes one slot by advancing head, as pop_response
    does; [drain] is that step on the event ring when it is not empty. *)
Definition drain (r : Ring) : Ring :=
  if ring_tail r <=? ring_head r then r
  else {| ring_head := wrap64 (ring_head r + 1); ring_tail := ring_tail r;
          ring_slots := ring_slots r |}.

(** A run of transport operations on one ring. *)
Inductive RingOp :=
  | OpPush (ev : Event)
  | OpPop.

Definition ring_step (op : RingOp) (r : Ring) : Ring :=
  match op with
  | OpPush ev => (push_event ev r).2
  | OpPop => (pop_response [] r).2
  end.

Definition ring_run (ops : list RingOp) (r : Ring) : Ring :=
  foldl (fun r op => ring_step op r) r ops.

(** The counters of a ring in use: head has not passed tail, at most 256
    slots are occupied, and the 64-bit tail counter has not wrapped. *)
Definition ring_wf (r : Ring) : Prop :=
  0 <= ring_head r /\ ring_head r <= ring_tail r /\
  ring_tail r - ring_head r <= 256 /\ ring_tail r < 2 ^ 64.

(** Pushing [n] copies of an event. *)
Definition push_many (n : nat) (ev : Event) (r : Ring) : Ring :=
  Nat.iter n (fun r => (push_event ev r).2) r.

Definition empty_ring : Ring :=
  mkRing 0 0 (replicate 256 (replicate (Z.to_nat sizeof_Event) 0)).

(** The Event found in the slot that a push has just filled: what the
    consumer of the ring reads as struct Event at [events[tail & 0xFF]]. *)
Definition transported (ev : Event) (r : EventRing) : option Event :=
  let '(pushed, r') := push_event ev r in
  if pushed =? 0 then None
  else Event_of_bytes <$> ring_slots r' !! Z.to_nat (Z.land (ring_tail r) 255).

(** Up to [n] calls of pop_response on the same Response object, stopping at
    the first call that returns 0: the responses received, in order, and the
    ring left. *)
Fixpoint pop_responses (n : nat) (resp : list Z) (r : ResponseRing)
  : list (list Z) * ResponseRing :=
  match n with
  | O => ([], r)
  | S n' =>
      let '(popped, resp', r') := pop_response resp r in
      if popped =? 0 then ([], r')
      else let '(l, r'') := pop_responses n' resp' r' in (resp' :: l, r'')
  end.

(** A response ring with three responses published, in slots 254, 255, 0. *)
Definition response_ring_3 : ResponseRing :=
  mkRing 254 257
    (<[0%nat := replicate 56 3]>
       (<[255%nat := replicate 56 2]>
          (<[254%nat := replicate 56 1]> (replicate 256 (replicate 56 0))))).

End Ulib.

(* ------------------------------------------------------------------------- *)
(* The hardware deck (hardware_deck.c)                                       *)
(* ------------------------------------------------------------------------- *)

Module HardwareDeck.

(** The diagnostic output of kprintf is left out: it changes nothing the
    deck reads.  rdtsc() is an input of the functions that call it ([now]).
    The busy-wait timer_sleep is not called by any path of the deck. *)

(** Addresses of RoutingEntry objects and of kmalloc'ed buffers. *)
Abbreviation loc := nat (only parsing).

(** Modelled from the spec: the entry states, result kinds and error codes
    are declared in headers that are not among the sources (events.h,
    deck_interface.h, errors.h); they are taken as enumerations with the names
    the deck uses. *)
Inductive EventStatus :=
  | EVENT_STATUS_PENDING
  | EVENT_STATUS_PROCESSING
  | EVENT_STATUS_COMPLETED
  | EVENT_STATUS_ERROR
  | EVENT_STATUS_SUSPENDED.

Inductive ResultType :=
  | RESULT_TYPE_NONE
  | RESULT_TYPE_VALUE
  | RESULT_TYPE_STATIC
  | RESULT_TYPE_KMALLOC.

Inductive ErrorCode :=
  | ERROR_INVALID_PARAMETER
  | ERROR_HW_TIMER_SLOTS_FULL
  | ERROR_HW_TIMER_NOT_FOUND
  | ERROR_NOT_IMPLEMENTED
  | ERROR_OUT_OF_MEMORY.

#[global] Instance EventStatus_eq_dec : EqDecision EventStatus.
Proof. solve_decision. Defined.
#[global] Instance ResultType_eq_dec : EqDecision ResultType.
Proof. solve_decision. Defined.
#[global] Instance ErrorCode_eq_dec : EqDecision ErrorCode.
Proof. solve_decision. Defined.

(** Modelled from the spec: the operation types of events.h that ulib.h does
    not repeat.  The deck's own comment places timer operations in 50-59 and
    device operations in 40-49; EVENT_TIMER_SLEEP = 52 is given by ulib.h. *)
Definition EVENT_DEV_OPEN : Z := 40.
Definition EVENT_DEV_IOCTL : Z := 41.
Definition EVENT_DEV_READ : Z := 42.
Definition EVENT_DEV_WRITE : Z := 43.
Definition EVENT_TIMER_CREATE : Z := 50.
Definition EVENT_TIMER_CANCEL : Z := 51.
Definition EVENT_TIMER_GETTICKS : Z := 53.

(** Modelled from the spec: the hardware deck's prefix; ulib.c routes the
    console and timer events of this deck with prefix 3. *)
Definition DECK_PREFIX_HARDWARE : Z := 3.

Definition VGA_DEFAULT : Z := 0x07.
Definition VGA_INPUT : Z := 0x0F.

Definition MAX_TIMERS : nat := 64.

(** The part of RoutingEntry that the deck reads and writes. *)
Record RoutingEntry := mkRoutingEntry {
  event_copy : Event;
  state : EventStatus;
  event_id : Z
}.

(** struct Timer. *)
Record Timer := mkTimer {
  t_id : Z;
  t_owner_workflow_id : Z;
  t_expiration : Z;
  t_interval : Z;
  t_event_id : Z;
  t_suspended_entry : option loc;
  t_active : bool
}.

(** A [void*] result handed to deck_complete: null, a scalar cast to a
    pointer, the address of a timer slot, or a kmalloc'ed buffer. *)
Inductive ResultData :=
  | RNull
  | RValue (v : Z)
  | RTimer (slot : nat)
  | RBuffer (addr : loc).

(** The calls the deck makes on an entry. *)
Inductive DeckCall :=
  | CallComplete (entry : loc) (prefix : Z) (result : ResultData)
                 (rtype : ResultType)
  | CallError (entry : loc) (prefix : Z) (code : ErrorCode) (msg : string).

(** Modelled from the spec: the Response delivered for an entry, with the
    result-kind tag of section 3. *)
Record Response := mkResponse {
  resp_event_id : Z;
  resp_workflow_id : Z;
  resp_status : Z;
  resp_error_code : option ErrorCode;
  resp_result : ResultData;
  resp_result_kind : ResultType;
  resp_completed_prefix : Z
}.

(** Calls on the VGA driver, in the order they are made. *)
Inductive VgaCall :=
  | VgaPrintChar (c attr : Z)
  | VgaNewline
  | VgaUpdateCursor
  | VgaClearScreen
  | VgaSetCursorPosition (x y : Z)
  | VgaSetCurrentLoc (l : Z).

(** Everything the deck's functions read or write: the static timer table
    and id counter, the routing entries they are handed pointers to, and the
    collaborators (deck interface, VGA, keyboard, allocator). *)
Record HwState := mkHwState {
  timers : list Timer;
  next_timer_id : Z;
  entries : gmap loc RoutingEntry;
  deck_log : list DeckCall;
  outbox : list Response;
  vga_log : list VgaCall;
  vga_loc : Z;
  keyboard : list Z;
  kheap : gmap loc (list (option Z));
  kheap_free : Z
}.

Definition set_timers (f : list Timer -> list Timer) (st : HwState) : HwState :=
  mkHwState (f (timers st)) (next_timer_id st) (entries st) (deck_log st)
    (outbox st) (vga_log st) (vga_loc st) (keyboard st) (kheap st)
    (kheap_free st).

Definition set_next_timer_id (v : Z) (st : HwState) : HwState :=
  mkHwState (timers st) v (entries st) (deck_log st) (outbox st) (vga_log st)
    (vga_loc st) (keyboard st) (kheap st) (kheap_free st).

Definition set_entries (f : gmap loc RoutingEntry -> gmap loc RoutingEntry)
    (st : HwState) : HwState :=
  mkHwState (timers st) (next_timer_id st) (f (entries st)) (deck_log st)
    (outbox st) (vga_log st) (vga_loc st) (keyboard st) (kheap st)
    (kheap_free st).

Definition log_call (c : DeckCall) (r : Response) (st : HwState) : HwState :=
  mkHwState (timers st) (next_timer_id st) (entries st) (deck_log st ++ [c])
    (outbox st ++ [r]) (vga_log st) (vga_loc st) (keyboard st) (kheap st)
    (kheap_free st).

Definition vga_call (c : VgaCall) (l : Z) (st : HwState) : HwState :=
  mkHwState (timers st) (next_timer_id st) (entries st) (deck_log st)
    (outbox st) (vga_log st ++ [c]) l (keyboard st) (kheap st) (kheap_free st).

Definition set_keyboard (k : list Z) (st : HwState) : HwState :=
  mkHwState (timers st) (next_timer_id st) (entries st) (deck_log st)
    (outbox st) (vga_log st) (vga_loc st) k (kheap st) (kheap_free st).

Definition set_kheap (h : gmap loc (list (option Z))) (free : Z) (st : HwState)
  : HwState :=
  mkHwState (timers st) (next_timer_id st) (entries st) (deck_log st)
    (outbox st) (vga_log st) (vga_loc st) (keyboard st) h free.

(** [entry->state = s]. *)
Definition set_state (s : EventStatus) (re : RoutingEntry) : RoutingEntry :=
  mkRoutingEntry (event_copy re) s (event_id re).

Definition set_entry_state (entry : loc) (s : EventStatus) (st : HwState)
  : HwState :=
  set_entries (alter (set_state s) entry) st.

Definition entry_state (entry : loc) (st : HwState) : option EventStatus :=
  state <$> entries st !! entry.

(** Modelled from the spec: deck_complete and deck_error_detailed of
    deck_interface.h, which is not among the sources.  Section 4.2: complete
    moves the entry to COMPLETED and delivers a Response with status 0 and
    the tagged result; fail moves it to ERROR and delivers a Response whose
    status marks the failure, with the error code.  The release of the entry's
    slot is not modelled.  Every call is also recorded with its arguments. *)
Definition deck_complete (entry : loc) (prefix : Z) (result : ResultData)
    (rtype : ResultType) (st : HwState) : HwState :=
  let ev := event_copy <$> entries st !! entry in
  let r := {| resp_event_id := default 0 (ev_id <$> ev);
              resp_workflow_id := default 0 (ev_user_id <$> ev);
              resp_status := 0; resp_error_code := None;
              resp_result := result; resp_result_kind := rtype;
              resp_completed_prefix := prefix |} in
  log_call (CallComplete entry prefix result rtype) r
    (set_entry_state entry EVENT_STATUS_COMPLETED st).

Definition deck_error_detailed (entry : loc) (prefix : Z) (code : ErrorCode)
    (msg : string) (st : HwState) : HwState :=
  let ev := event_copy <$> entries st !! entry in
  let r := {| resp_event_id := default 0 (ev_id <$> ev);
              resp_workflow_id := default 0 (ev_user_id <$> ev);
              resp_status := 1; resp_error_code := Some code;
              resp_result := RNull; resp_result_kind := RESULT_TYPE_NONE;
              resp_completed_prefix := prefix |} in
  log_call (CallError entry prefix code msg) r
    (set_entry_state entry EVENT_STATUS_ERROR st).

(** Modelled from the spec: the VGA text driver (vga.c is not among the
    sources; vga.h gives an 80x25 screen with 2 bytes per cell).  Every call
    is recorded; [vga_loc] is the byte offset of the cursor. *)
Definition vga_wrap (l : Z) : Z := if 4000 <=? l then l - 160 else l.

Definition vga_print_char (c attr : Z) (st : HwState) : HwState :=
  vga_call (VgaPrintChar c attr) (vga_wrap (vga_loc st + 2)) st.

Definition vga_print_newline (st : HwState) : HwState :=
  vga_call VgaNewline (vga_wrap ((vga_loc st / 160 + 1) * 160)) st.

Definition vga_update_cursor (st : HwState) : HwState :=
  vga_call VgaUpdateCursor (vga_loc st) st.

Definition vga_clear_screen (st : HwState) : HwState :=
  vga_call VgaClearScreen 0 st.

Definition vga_set_cursor_position (x y : Z) (st : HwState) : HwState :=
  vga_call (VgaSetCursorPosition x y) ((y * 80 + x) * 2) st.

Definition vga_get_cursor_position_x (st : HwState) : Z :=
  (vga_loc st / 2) mod 80.

Definition vga_get_cursor_position_y (st : HwState) : Z :=
  (vga_loc st / 2) / 80.

Definition vga_get_current_loc (st : HwState) : Z := vga_loc st.

Definition vga_set_current_loc (l : Z) (st : HwState) : HwState :=
  vga_call (VgaSetCurrentLoc l) l st.

(** Modelled from the spec: the keyboard (blocking and non-blocking character
    read).  [keyboard] holds the characters still to come, as values of the C
    type char; the blocking read never returns once they are used up. *)
Definition keyboard_getchar_blocking (st : HwState) : Res (Z * HwState) :=
  match keyboard st with
  | [] => Blocks
  | c :: ks => Ok (c, set_keyboard ks st)
  end.

Definition keyboard_getchar (st : HwState) : Z * HwState :=
  match keyboard st with
  | [] => (0, st)
  | c :: ks => (c, set_keyboard ks st)
  end.

(** Modelled from the spec: kmalloc.  It fails when the request exceeds what
    is left; a new buffer has indeterminate contents ([None] cells). *)
Definition kmalloc (size : Z) (st : HwState) : option loc * HwState :=
  if size <=? kheap_free st then
    let a := fresh (dom (kheap st)) in
    (Some a, set_kheap (<[a := replicate (Z.to_nat size) None]> (kheap st))
               (kheap_free st - size) st)
  else (None, st).

(** Modelled from the spec: atomic_increment_u64 (klib.h), taken to return
    the incremented value. *)
Definition atomic_increment_u64 (st : HwState) : Z * HwState :=
  let v := wrap64 (next_timer_id st + 1) in (v, set_next_timer_id v st).

(* --- timer operations --------------------------------------------------- *)

Definition is_free (t : Timer) : Prop := t_active t = false.
Definition has_id (timer_id : Z) (t : Timer) : Prop :=
  t_active t = true /\ t_id t = timer_id.

#[global] Instance is_free_dec t : Decision (is_free t).
Proof. unfold is_free. apply _. Defined.
#[global] Instance has_id_dec i t : Decision (has_id i t).
Proof. unfold has_id. apply _. Defined.

(** timer_create (hardware_deck.c:29): first free slot of the table, or no
    timer.  [now] is the value rdtsc() returns inside the call. *)
Definition timer_create (now delay_ms interval_ms : Z) (entry : option loc)
    (st : HwState) : option nat * HwState :=
  match list_find is_free (take MAX_TIMERS (timers st)) with
  | Some (i, old) =>
      let '(id, st) := atomic_increment_u64 st in
      let owner :=
        match entry with
        | Some e => default 0 (ev_user_id ∘ event_copy <$> entries st !! e)
        | None => 0
        end in
      let t := {| t_id := id;
                  t_owner_workflow_id := owner;
                  t_expiration := wrap64 (now + wrap64 (delay_ms * 2400000));
                  t_interval := wrap64 (interval_ms * 2400000);
                  t_event_id := t_event_id old;
                  t_suspended_entry := entry;
                  t_active := true |} in
      (Some i, set_timers (fun ts => <[i := t]> ts) st)
  | None => (None, st)
  end.

Definition deactivate (t : Timer) : Timer :=
  mkTimer (t_id t) (t_owner_workflow_id t) (t_expiration t) (t_interval t)
    (t_event_id t) (t_suspended_entry t) false.

Definition clear_link (t : Timer) : Timer :=
  mkTimer (t_id t) (t_owner_workflow_id t) (t_expiration t) (t_interval t)
    (t_event_id t) None (t_active t).

Definition set_expiration (x : Z) (t : Timer) : Timer :=
  mkTimer (t_id t) (t_owner_workflow_id t) x (t_interval t) (t_event_id t)
    (t_suspended_entry t) (t_active t).

(** timer_cancel (hardware_deck.c:54). *)
Definition timer_cancel (timer_id : Z) (st : HwState) : Z * HwState :=
  match list_find (has_id timer_id) (take MAX_TIMERS (timers st)) with
  | Some (i, _) => (1, set_timers (alter deactivate i) st)
  | None => (0, st)
  end.

(** timer_get_ticks (hardware_deck.c:76). *)
Definition timer_get_ticks (now : Z) : Z := now.

(** One iteration of the loop of timer_check_expired, for slot [i]. *)
Definition check_slot (now : Z) (st : HwState) (i : nat) : HwState :=
  match timers st !! i with
  | Some t =>
      if t_active t && (t_expiration t <=? now) then
        let st :=
          match t_suspended_entry t with
          | Some entry =>
              let st := deck_complete entry DECK_PREFIX_HARDWARE RNull
                          RESULT_TYPE_NONE st in
              let st := set_entry_state entry EVENT_STATUS_PROCESSING st in
              set_timers (alter clear_link i) st
          | None => st
          end in
        if 0 <? t_interval t then
          set_timers (alter (set_expiration (wrap64 (now + t_interval t))) i) st
        else set_timers (alter deactivate i) st
      else st
  | None => st
  end.

(** timer_check_expired (hardware_deck.c:82); [now] is the one rdtsc()
    reading taken at its start. *)
Definition timer_check_expired (now : Z) (st : HwState) : HwState :=
  foldl (check_slot now) st (seq 0 MAX_TIMERS).

(* --- device operations (stubs) ------------------------------------------ *)

Definition device_open (name : list Z) : Z := 100.
Definition device_ioctl (device_id command : Z) : Z := 0.
Definition device_read (device_id size : Z) : Z := size.
Definition device_write (device_id size : Z) : Z := size.

(* --- the cases of hardware_deck_process --------------------------------- *)

(** A rejected operation: [deck_error_detailed(...); return 0;]. *)
Definition reject (entry : loc) (code : ErrorCode) (msg : string)
    (st : HwState) : Res (Z * HwState) :=
  Ok (0, deck_error_detailed entry DECK_PREFIX_HARDWARE code msg st).

(** A completed operation: [deck_complete(...); return 1;]. *)
Definition complete (entry : loc) (result : ResultData) (rtype : ResultType)
    (st : HwState) : Res (Z * HwState) :=
  Ok (1, deck_complete entry DECK_PREFIX_HARDWARE result rtype st).

Definition case_TIMER_CREATE (entry : loc) (data : list Z) (now : Z)
    (st : HwState) : Res (Z * HwState) :=
  let delay_ms := read_le 8 0 data in
  let interval_ms := read_le 8 8 data in
  if delay_ms =? 0 then
    reject entry ERROR_INVALID_PARAMETER "Timer create: delay is zero" st
  else if 3600000 <? delay_ms then
    reject entry ERROR_INVALID_PARAMETER "Timer create: delay exceeds 1 hour" st
  else if 3600000 <? interval_ms then
    reject entry ERROR_INVALID_PARAMETER
      "Timer create: interval exceeds 1 hour" st
  else
    match timer_create now delay_ms interval_ms None st with
    | (Some i, st) => complete entry (RTimer i) RESULT_TYPE_STATIC st
    | (None, st) =>
        reject entry ERROR_HW_TIMER_SLOTS_FULL
          "Timer create: no free timer slots" st
    end.

Definition case_TIMER_CANCEL (entry : loc) (data : list Z) (st : HwState)
  : Res (Z * HwState) :=
  let timer_id := read_le 8 0 data in
  if timer_id =? 0 then
    reject entry ERROR_INVALID_PARAMETER "Timer cancel: timer ID is zero" st
  else
    let '(success, st) := timer_cancel timer_id st in
    if negb (success =? 0) then complete entry RNull RESULT_TYPE_NONE st
    else
      reject entry ERROR_HW_TIMER_NOT_FOUND "Timer cancel: timer not found" st.

Definition case_TIMER_SLEEP (entry : loc) (data : list Z) (now : Z)
    (st : HwState) : Res (Z * HwState) :=
  let ms := read_le 8 0 data in
  if ms =? 0 then
    reject entry ERROR_INVALID_PARAMETER "Timer sleep: duration is zero" st
  else if 3600000 <? ms then
    reject entry ERROR_INVALID_PARAMETER
      "Timer sleep: duration exceeds 1 hour" st
  else
    match timer_create now ms 0 (Some entry) st with
    | (Some i, st) => Ok (1, set_entry_state entry EVENT_STATUS_SUSPENDED st)
    | (None, st) =>
        reject entry ERROR_HW_TIMER_SLOTS_FULL
          "Timer sleep: no free timer slots" st
    end.

Definition case_TIMER_GETTICKS (entry : loc) (now : Z) (st : HwState)
  : Res (Z * HwState) :=
  complete entry (RValue (timer_get_ticks now)) RESULT_TYPE_VALUE st.

(** [while (name[name_len] && name_len < 64) name_len++;] *)
Fixpoint name_len_loop (name : list Z) (name_len fuel : nat) : nat :=
  match fuel with
  | O => name_len
  | S fuel' =>
      if negb (default 0 (name !! name_len) =? 0) && (name_len <? 64)%nat
      then name_len_loop name (S name_len) fuel'
      else name_len
  end.

Definition case_DEV_OPEN (entry : loc) (data : list Z) (st : HwState)
  : Res (Z * HwState) :=
  let name := data in
  if default 0 (name !! 0%nat) =? 0 then
    reject entry ERROR_INVALID_PARAMETER "Device open: name is NULL or empty" st
  else
    let name_len := name_len_loop name 0 65 in
    if (64 <=? name_len)%nat then
      reject entry ERROR_INVALID_PARAMETER
        "Device open: name exceeds 64 characters" st
    else complete entry (RValue (wrap64 (device_open name))) RESULT_TYPE_VALUE st.

Definition case_DEV_IOCTL (entry : loc) (data : list Z) (st : HwState)
  : Res (Z * HwState) :=
  let device_id := sint32 (read_le 4 0 data) in
  let command := read_le 8 4 data in
  if device_id <? 0 then
    reject entry ERROR_INVALID_PARAMETER "Device ioctl: invalid device ID" st
  else
    let _ := device_ioctl device_id command in
    complete entry RNull RESULT_TYPE_NONE st.

Definition case_DEV_READ (entry : loc) (data : list Z) (st : HwState)
  : Res (Z * HwState) :=
  let device_id := sint32 (read_le 4 0 data) in
  let size := read_le 8 4 data in
  if device_id <? 0 then
    reject entry ERROR_INVALID_PARAMETER "Device read: invalid device ID" st
  else if size =? 0 then
    reject entry ERROR_INVALID_PARAMETER "Device read: size is zero" st
  else if 1024 * 1024 <? size then
    reject entry ERROR_INVALID_PARAMETER "Device read: size exceeds 1MB limit" st
  else
    let _ := device_read device_id size in
    complete entry RNull RESULT_TYPE_NONE st.

Definition case_DEV_WRITE (entry : loc) (data : list Z) (st : HwState)
  : Res (Z * HwState) :=
  let device_id := sint32 (read_le 4 0 data) in
  let size := read_le 8 4 data in
  if device_id <? 0 then
    reject entry ERROR_INVALID_PARAMETER "Device write: invalid device ID" st
  else if size =? 0 then
    reject entry ERROR_INVALID_PARAMETER "Device write: size is zero" st
  else if EVENT_DATA_SIZE - 12 <? size then
    reject entry ERROR_INVALID_PARAMETER
      "Device write: data exceeds event payload limit" st
  else
    let _ := device_write device_id size in
    complete entry RNull RESULT_TYPE_NONE st.

(** The driver call made for one character of a console write. *)
Definition console_call (attr c : Z) : VgaCall :=
  if c =? 10 then VgaNewline else VgaPrintChar c attr.

(** One character of a console write:
    [if (str[i] == '\n') vga_print_newline(); else vga_print_char(str[i], attr);] *)
Definition console_putc (attr c : Z) (st : HwState) : HwState :=
  if c =? 10 then vga_print_newline st else vga_print_char c attr st.

(** [for (i = 0; i < size && str[i]; i++) ...], with [n] the iterations left
    and [str] the bytes from [str + i] on. *)
Fixpoint console_write_loop (attr : Z) (str : list Z) (n : nat) (st : HwState)
  {struct n} : HwState :=
  match n with
  | O => st
  | S n' =>
      match str with
      | [] => st
      | c :: r =>
          if c =? 0 then st
          else console_write_loop attr r n' (console_putc attr c st)
      end
  end.

Definition case_CONSOLE_WRITE (entry : loc) (data : list Z) (st : HwState)
  : Res (Z * HwState) :=
  let size := read_le 4 0 data in
  let str := drop 4 data in
  if (size =? 0) || (EVENT_DATA_SIZE - 4 <? size) then
    reject entry ERROR_INVALID_PARAMETER "Console write: invalid size" st
  else
    let st := console_write_loop VGA_DEFAULT str (Z.to_nat size) st in
    let st := vga_update_cursor st in
    complete entry (RValue size) RESULT_TYPE_VALUE st.

Definition case_CONSOLE_WRITE_ATTR (entry : loc) (data : list Z) (st : HwState)
  : Res (Z * HwState) :=
  let attr := read_le 1 0 data in
  let size := read_le 4 1 data in
  let str := drop 5 data in
  if (size =? 0) || (EVENT_DATA_SIZE - 5 <? size) then
    reject entry ERROR_INVALID_PARAMETER "Console write attr: invalid size" st
  else
    let st := console_write_loop attr str (Z.to_nat size) st in
    let st := vga_update_cursor st in
    complete entry (RValue size) RESULT_TYPE_VALUE st.

(** The backspace branch of the line reader, after [pos--]. *)
Definition erase_char (st : HwState) : HwState :=
  let l := vga_get_current_loc st in
  if 2 <=? l then
    vga_set_current_loc (l - 2)
      (vga_print_char 32 VGA_DEFAULT (vga_set_current_loc (l - 2) st))
  else st.

Definition printable (c : Z) : bool := (0x20 <=? c) && (c <=? 0x7E).

(** [while (pos < max_size - 1) { c = keyboard_getchar_blocking(); ... }]
    The recursion follows the keystrokes still to come, which are kept in
    [keys] and written back by the caller. *)
Fixpoint read_line_loop (max_size : Z) (keys : list Z) (pos : Z)
    (line : list (option Z)) (st : HwState)
  : Res (Z * list (option Z) * list Z * HwState) :=
  if negb (pos <? wrap32 (max_size - 1)) then Ok (pos, line, keys, st)
  else
    match keys with
    | [] => Blocks
    | c :: ks =>
        if (c =? 10) || (c =? 13) then Ok (pos, line, ks, vga_print_newline st)
        else if c =? 8 then
          if 0 <? pos then
            read_line_loop max_size ks (wrap32 (pos - 1)) line (erase_char st)
          else read_line_loop max_size ks pos line st
        else if printable c then
          match store_at line (Z.to_nat pos) (Some c) with
          | Ok line =>
              read_line_loop max_size ks (wrap32 (pos + 1)) line
                (vga_print_char c VGA_INPUT st)
          | Blocks => Blocks
          | Fault k => Fault k
          end
        else read_line_loop max_size ks pos line st
    end.

(** The size the line reader allocates for a requested [max_size]. *)
Definition line_size (max_size : Z) : Z :=
  if (max_size =? 0) || (256 <? max_size) then 256 else max_size.

Definition case_CONSOLE_READ_LINE (entry : loc) (data : list Z) (st : HwState)
  : Res (Z * HwState) :=
  let max_size := line_size (read_le 4 0 data) in
  match kmalloc max_size st with
  | (None, st) =>
      reject entry ERROR_OUT_OF_MEMORY
        "Console read line: failed to allocate buffer" st
  | (Some a, st) =>
      let line := default [] (kheap st !! a) in
      '(pos, line, keys, st) ← read_line_loop max_size (keyboard st) 0 line st;
      let st := set_keyboard keys st in
      line ← store_at line (Z.to_nat pos) (Some 0);
      let st := set_kheap (<[a := line]> (kheap st)) (kheap_free st) st in
      complete entry (RBuffer a) RESULT_TYPE_KMALLOC st
  end.

Definition case_CONSOLE_READ_CHAR (entry : loc) (st : HwState)
  : Res (Z * HwState) :=
  let '(c, st) := keyboard_getchar st in
  complete entry (RValue (wrap64 c)) RESULT_TYPE_VALUE st.

Definition case_CONSOLE_CLEAR (entry : loc) (st : HwState)
  : Res (Z * HwState) :=
  complete entry RNull RESULT_TYPE_NONE (vga_clear_screen st).

Definition case_CONSOLE_SET_POS (entry : loc) (data : list Z) (st : HwState)
  : Res (Z * HwState) :=
  let x := sint32 (read_le 4 0 data) in
  let y := sint32 (read_le 4 4 data) in
  complete entry RNull RESULT_TYPE_NONE (vga_set_cursor_position x y st).

Definition case_CONSOLE_GET_POS (entry : loc) (st : HwState)
  : Res (Z * HwState) :=
  let x := vga_get_cursor_position_x st in
  let y := vga_get_cursor_position_y st in
  let pos := Z.lor (wrap64 (Z.shiftl (wrap64 y) 16)) (wrap64 x) in
  complete entry (RValue pos) RESULT_TYPE_VALUE st.

(** hardware_deck_process (hardware_deck.c:143).  [entry] is the pointer
    argument ([None] for NULL) and [now] the value of rdtsc() if the call
    reads it. *)
Definition hardware_deck_process (entry : option loc) (now : Z) (st : HwState)
  : Res (Z * HwState) :=
  match entry with
  | None => Ok (0, st)
  | Some e =>
      match entries st !! e with
      | None => Fault DanglingEntry
      | Some re =>
          let event := event_copy re in
          let type := ev_type event in
          let data := ev_data event in
          let valid_type := (40 <=? type) && (type <? 80) in
          if negb valid_type then
            reject e ERROR_INVALID_PARAMETER
              "Event type out of hardware range (40-79)" st
          else if type =? EVENT_TIMER_CREATE then case_TIMER_CREATE e data now st
          else if type =? EVENT_TIMER_CANCEL then case_TIMER_CANCEL e data st
          else if type =? EVENT_TIMER_SLEEP then case_TIMER_SLEEP e data now st
          else if type =? EVENT_TIMER_GETTICKS then case_TIMER_GETTICKS e now st
          else if type =? EVENT_DEV_OPEN then case_DEV_OPEN e data st
          else if type =? EVENT_DEV_IOCTL then case_DEV_IOCTL e data st
          else if type =? EVENT_DEV_READ then case_DEV_READ e data st
          else if type =? EVENT_DEV_WRITE then case_DEV_WRITE e data st
          else if type =? EVENT_CONSOLE_WRITE then case_CONSOLE_WRITE e data st
          else if type =? EVENT_CONSOLE_WRITE_ATTR then
            case_CONSOLE_WRITE_ATTR e data st
          else if type =? EVENT_CONSOLE_READ_LINE then
            case_CONSOLE_READ_LINE e data st
          else if type =? EVENT_CONSOLE_READ_CHAR then case_CONSOLE_READ_CHAR e st
          else if type =? EVENT_CONSOLE_CLEAR then case_CONSOLE_CLEAR e st
          else if type =? EVENT_CONSOLE_SET_POS then case_CONSOLE_SET_POS e data st
          else if type =? EVENT_CONSOLE_GET_POS then case_CONSOLE_GET_POS e st
          else
            reject e ERROR_NOT_IMPLEMENTED
              "Hardware operation type not implemented" st
      end
  end.


(** A run of sweeps, one per scheduler tick, at the given clock readings. *)
Definition sweeps (nows : list Z) (st : HwState) : HwState :=
  foldl (fun st now => timer_check_expired now st) st nows.

(** The wakes an entry has received: the sweep's calls on it. *)
Definition is_wake (entry : loc) (c : DeckCall) : bool :=
  match c with
  | CallComplete e p RNull RESULT_TYPE_NONE =>
      bool_decide (e = entry) && (p =? DECK_PREFIX_HARDWARE)
  | _ => false
  end.

Definition wakes (entry : loc) (st : HwState) : nat :=
  length (filter (fun c => is_wake entry c = true) (deck_log st)).

(** No active timer holds the entry. *)
Definition holds (entry : loc) (t : Timer) : Prop :=
  t_active t = true /\ t_suspended_entry t = Some entry.

#[global] Instance holds_dec entry t : Decision (holds entry t).
Proof. unfold holds. apply _. Defined.

Definition unheld (entry : loc) (st : HwState) : Prop :=
  Forall (fun t => ~ holds entry t) (timers st).


(** What the sweep leaves in a slot it fires: the link is cleared, then the
    slot is rescheduled or deactivated. *)
Definition fire_timer (now : Z) (t : Timer) : Timer :=
  let t := clear_link t in
  if 0 <? t_interval t then set_expiration (wrap64 (now + t_interval t)) t
  else deactivate t.




(** The operation types hardware_deck_process has a case for. *)
Definition handled_types : list Z :=
  [EVENT_TIMER_CREATE; EVENT_TIMER_CANCEL; EVENT_TIMER_SLEEP;
   EVENT_TIMER_GETTICKS; EVENT_DEV_OPEN; EVENT_DEV_IOCTL; EVENT_DEV_READ;
   EVENT_DEV_WRITE; EVENT_CONSOLE_WRITE; EVENT_CONSOLE_WRITE_ATTR;
   EVENT_CONSOLE_READ_LINE; EVENT_CONSOLE_READ_CHAR; EVENT_CONSOLE_CLEAR;
   EVENT_CONSOLE_SET_POS; EVENT_CONSOLE_GET_POS].

(** A NUL-terminated string of [chars] at the start of a buffer. *)
Definition holds_string (line : list (option Z)) (chars : list Z) : Prop :=
  take (length chars) line = Some <$> chars /\
  line !! length chars = Some (Some 0).

(** Two states that differ at most in what the console driver holds. *)
Definition same_but_console (st st' : HwState) : Prop :=
  timers st' = timers st /\ next_timer_id st' = next_timer_id st /\
  entries st' = entries st /\ deck_log st' = deck_log st /\
  outbox st' = outbox st /\ keyboard st' = keyboard st /\
  kheap st' = kheap st /\ kheap_free st' = kheap_free st.



(** A keyboard input with no end of line in it. *)
Definition no_line_end (keys : list Z) : Prop :=
  Forall (fun c => c <> 10 /\ c <> 13) keys.

(** What the line reader's loop guarantees for a buffer of [m] bytes that
    holds the characters read so far: it never stores outside the buffer, it
    blocks only on input without an end of line, and on return the buffer
    starts with the [pos] printable characters kept. *)
Definition line_loop_post (m : Z) (keys : list Z) (st : HwState)
    (res : Res (Z * list (option Z) * list Z * HwState)) : Prop :=
  match res with
  | Ok (pos, line, keys', st') =>
      exists chars,
        pos = Z.of_nat (length chars) /\ pos <= m - 1 /\
        Z.of_nat (length line) = m /\
        take (length chars) line = Some <$> chars /\
        Forall (fun c => 0x20 <= c <= 0x7E) chars /\
        same_but_console st st' /\
        exists used, keys = used ++ keys'
  | Blocks => no_line_end keys
  | Fault _ => False
  end.

(* --- concrete states for the scenarios ---------------------------------- *)

Definition idle_timer : Timer := mkTimer 0 0 0 0 0 None false.

(** The deck after hardware_deck_init, with nothing in flight. *)
Definition idle_state : HwState :=
  {| timers := replicate MAX_TIMERS idle_timer; next_timer_id := 1;
     entries := ∅; deck_log := []; outbox := []; vga_log := []; vga_loc := 0;
     keyboard := []; kheap := ∅; kheap_free := 4096 |}.

(** An event of the given type and payload, as ulib.c builds it. *)
Definition event_of (type : Z) (payload : list Z) : Event :=
  mkEvent 1 1 type 0 0 [DECK_PREFIX_HARDWARE; 0; 0; 0; 0; 0; 0; 0]
    (payload ++ replicate (224 - length payload) 0).

(** [idle_state] with one entry at address [e] being processed. *)
Definition with_entry (e : loc) (ev : Event) (st : HwState) : HwState :=
  set_entries (insert e (mkRoutingEntry ev EVENT_STATUS_PROCESSING (ev_id ev))) st.

(** Entry 0 asks for a line (size 0, so 256) while the keyboard delivers
    'h', 'i', backspace, '!', a control character and Enter. *)
Definition read_line_scenario : HwState :=
  set_keyboard [104; 105; 8; 33; 1; 13]
    (with_entry 0 (event_of EVENT_CONSOLE_READ_LINE (le_bytes 4 0)) idle_state).

Definition read_line_done : HwState :=
  match hardware_deck_process (Some 0%nat) 0 read_line_scenario with
  | Ok (_, st) => st
  | _ => read_line_scenario
  end.

(** Entry 1 sleeps on timer 5 in slot 2, which is due at tick 120000000. *)
Definition sleep_scenario : HwState :=
  set_entries (insert 1%nat
                 (mkRoutingEntry (event_of EVENT_TIMER_SLEEP (le_bytes 8 50))
                    EVENT_STATUS_SUSPENDED 1))
    (set_timers (fun ts => <[2%nat := mkTimer 5 1 120000000 0 0 (Some 1%nat) true]> ts)
       idle_state).



(** Entry 1 sleeps on timer 5 in slot 2, and entry 0 asks to cancel timer 5. *)
Definition sleeper : RoutingEntry :=
  mkRoutingEntry (event_of EVENT_TIMER_SLEEP (le_bytes 8 50))
    EVENT_STATUS_SUSPENDED 1.

Definition sleeper_timer : Timer := mkTimer 5 1 120000000 0 0 (Some 1%nat) true.

Definition cancel_scenario : HwState :=
  with_entry 0 (event_of EVENT_TIMER_CANCEL (le_bytes 8 5))
    (set_entries (insert 1%nat sleeper)
       (set_timers (fun ts => <[2%nat := sleeper_timer]> ts) idle_state)).



(** Active timers carry pairwise different ids, none above the id counter. *)
Definition ids_distinct (st : HwState) : Prop :=
  forall i j ti tj,
    timers st !! i = Some ti -> timers st !! j = Some tj ->
    t_active ti = true -> t_active tj = true -> t_id ti = t_id tj -> i = j.

Definition ids_bounded (st : HwState) : Prop :=
  forall i t, timers st !! i = Some t -> t_active t = true ->
    t_id t <= next_timer_id st.

(** What one call of the deck does to the timer table and the id counter:
    nothing, one timer created in a free slot, or one slot deactivated. *)
Definition timers_step (st st' : HwState) : Prop :=
  (timers st' = timers st /\ next_timer_id st' = next_timer_id st) \/
  (exists i old t,
     timers st !! i = Some old /\ t_active old = false /\
     timers st' = <[i := t]> (timers st) /\
     t_id t = wrap64 (next_timer_id st + 1) /\
     next_timer_id st' = wrap64 (next_timer_id st + 1)) \/
  (exists i,
     timers st' = alter deactivate i (timers st) /\
     next_timer_id st' = next_timer_id st).

Definition steps_timers (st : HwState) (res : Res (Z * HwState)) : Prop :=
  forall r st', res = Ok (r, st') -> timers_step st st'.

(** What happens to the deck between two looks at it: the callback is run on
    an entry, or the sweep runs.  Modelled from the spec: [DoSubmit] is the
    router placing an event in a routing entry before the deck sees it. *)
Inductive DeckOp :=
  | DoProcess (entry : loc) (now : Z)
  | DoSweep (now : Z)
  | DoSubmit (entry : loc) (ev : Event).

Definition deck_step (op : DeckOp) (st : HwState) : Res HwState :=
  match op with
  | DoProcess e now =>
      match hardware_deck_process (Some e) now st with
      | Ok (_, st) => Ok st
      | Blocks => Blocks
      | Fault k => Fault k
      end
  | DoSweep now => Ok (timer_check_expired now st)
  | DoSubmit e ev => Ok (with_entry e ev st)
  end.

Fixpoint deck_run (ops : list DeckOp) (st : HwState) : Res HwState :=
  match ops with
  | [] => Ok st
  | op :: r =>
      match deck_step op st with
      | Ok st => deck_run r st
      | Blocks => Blocks
      | Fault k => Fault k
      end
  end.

(** Entry 0 asks for a periodic timer: first after 10 ms, then every 5 ms. *)
Definition create_request : HwState :=
  with_entry 0 (event_of EVENT_TIMER_CREATE (le_bytes 8 10 ++ le_bytes 8 5))
    idle_state.

(** Entry 0 asks to write 5 bytes of which the third is NUL: "hi", NUL, "yo". *)
Definition write_nul_request : HwState :=
  with_entry 0 (event_of EVENT_CONSOLE_WRITE (le_bytes 4 5 ++ [104; 105; 0; 121; 111]))
    idle_state.

(** Entry 0 asks to write "a", newline, "b" with attribute 0x0A. *)
Definition write_attr_request : HwState :=
  with_entry 0 (event_of EVENT_CONSOLE_WRITE_ATTR (10 :: le_bytes 4 3 ++ [97; 10; 98]))
    idle_state.

(** Entry 0 asks to open a device whose name is 64 times the letter 'a'. *)
Definition open_long_request : HwState :=
  with_entry 0 (event_of EVENT_DEV_OPEN (replicate 64 97)) idle_state.

(** A sleep, a periodic timer and a sweep on the idle deck. *)
Definition timers_scenario : list DeckOp :=
  [DoSubmit 0 (event_of EVENT_TIMER_SLEEP (le_bytes 8 50));
   DoProcess 0 1000;
   DoSubmit 1 (event_of EVENT_TIMER_CREATE (le_bytes 8 10 ++ le_bytes 8 5));
   DoProcess 1 2000;
   DoSweep 30000000].

Definition timers_scenario_done : HwState :=
  match deck_run timers_scenario idle_state with
  | Ok st => st
  | _ => idle_state
  end.

(** A slot whose previous content is all 0x55, and a ring with that slot
    next in line. *)
Definition stale_slot : list Z := replicate 264 85.

Definition stale_ring : Ulib.Ring :=
  Ulib.mkRing 0 0 (replicate 256 stale_slot).

(** An event whose payload is 224 times the letter 'A'. *)
Definition full_payload_event : Event := event_of EVENT_CONSOLE_WRITE (replicate 224 65).

End HardwareDeck.

(* ------------------------------------------------------------------------- *)
(* The string utilities of the user library (ulib.c) and their callers in    *)
(* the shell (shell.c)                                                       *)
(* ------------------------------------------------------------------------- *)

Module UlibString.

(** The characters of a C string, up to its terminating NUL. *)
Definition c_string (s : list Z) : list Z := take (strlen s) s.

(** strcmp (ulib.c:216): both strings are walked while the character of s1
    is not NUL and equals that of s2; the result is the difference of the
    two characters reached. *)
Fixpoint strcmp (s1 s2 : list Z) : Z :=
  match s1 with
  | [] => 0 - hd 0 s2
  | c1 :: r1 =>
      if negb (c1 =? 0) && (c1 =? hd 0 s2) then strcmp r1 (tl s2)
      else c1 - hd 0 s2
  end.

(** strncmp (ulib.c:224). *)
Fixpoint strncmp (s1 s2 : list Z) (n : nat) {struct n} : Z :=
  match n with
  | O => 0
  | S n' =>
      match s1 with
      | [] => 0 - hd 0 s2
      | c1 :: r1 =>
          if negb (c1 =? 0) && (c1 =? hd 0 s2) then strncmp r1 (tl s2) n'
          else c1 - hd 0 s2
      end
  end.

(** starts_with (ulib.c:297). *)
Fixpoint starts_with (str prefix : list Z) : Z :=
  match prefix with
  | [] => 1
  | p :: pr =>
      if p =? 0 then 1
      else if negb (hd 0 str =? p) then 0
      else starts_with (tl str) pr
  end.

(** contains_char (ulib.c:306). *)
Fixpoint contains_char (s : list Z) (c : Z) : Z :=
  match s with
  | [] => 0
  | x :: r =>
      if x =? 0 then 0
      else if x =? c then 1
      else contains_char r c
  end.

(** is_tag (shell.c:30): does the string contain ':'? *)
Fixpoint is_tag (s : list Z) : Z :=
  match s with
  | [] => 0
  | x :: r =>
      if x =? 0 then 0
      else if x =? 58 then 1
      else is_tag r
  end.

(** int arithmetic as the machine does it (two's complement). *)
Definition int_wrap (z : Z) : Z := sint32 (wrap32 z).

(** atoi, leading blanks: the pointer is advanced over spaces and tabs. *)
Fixpoint skip_blanks (str : list Z) : list Z :=
  match str with
  | [] => []
  | c :: r => if (c =? 32) || (c =? 9) then skip_blanks r else str
  end.

(** atoi, the digit loop:
    [result = result * 10 + (c - '0')] while c is a decimal digit. *)
Fixpoint atoi_digits (str : list Z) (result : Z) : Z :=
  match str with
  | [] => result
  | c :: r =>
      if (48 <=? c) && (c <=? 57)
      then atoi_digits r (int_wrap (int_wrap (result * 10) + (c - 48)))
      else result
  end.

(** atoi (ulib.c:313). *)
Definition atoi (str : list Z) : Z :=
  let str := skip_blanks str in
  let '(sign, str) :=
    match str with
    | [] => (1, str)
    | c :: r =>
        if c =? 45 then (-1, r) else if c =? 43 then (1, r) else (1, str)
    end in
  int_wrap (sign * atoi_digits str 0).

(** itoa, the digit loop: a do-while that stores ['0' + value % 10] at p,
    advances p and divides value by 10, until value is 0; the division is
    C's, truncating.  [fuel] bounds the iterations. *)
Fixpoint itoa_digits (fuel : nat) (value : Z) (str : list Z) (p : nat)
  : Res (list Z * nat) :=
  match fuel with
  | O => Ok (str, p)
  | S fuel' =>
      match store_at str p (48 + Z.rem value 10) with
      | Ok str =>
          let value := Z.quot value 10 in
          if value =? 0 then Ok (str, S p)
          else itoa_digits fuel' value str (S p)
      | Blocks => Blocks
      | Fault k => Fault k
      end
  end.

(** itoa, the reversal in place: while start < end, the characters at
    start and end are exchanged and the two pointers move inwards. *)
Fixpoint reverse_loop (fuel : nat) (str : list Z) (start end_ : nat) : list Z :=
  match fuel with
  | O => str
  | S fuel' =>
      if (start <? end_)%nat then
        let tmp := default 0 (str !! start) in
        let str := <[start := default 0 (str !! end_)]> str in
        let str := <[end_ := tmp]> str in
        reverse_loop fuel' str (S start) (pred end_)
      else str
  end.

(** itoa (ulib.c:337).  The digit loop runs at most once per unit of the
    value, so that many iterations always suffice. *)
Definition itoa (value : Z) (str : list Z) : Res (list Z) :=
  let negative := value <? 0 in
  let value := if negative then int_wrap (- value) else value in
  '(str, p) ← itoa_digits (S (Z.abs_nat value)) value str 0;
  '(str, p) ← (if negative
               then str ← store_at str p 45; Ok (str, S p)
               else Ok (str, p));
  str ← store_at str p 0;
  Ok (reverse_loop p str 0 (pred p)).

(** The decimal digits of a non-negative number as characters, least
    significant first: what the digit loop of itoa stores. *)
Fixpoint decimal_lsd (fuel : nat) (v : Z) : list Z :=
  match fuel with
  | O => []
  | S fuel' =>
      (48 + v mod 10) :: (if v / 10 =? 0 then [] else decimal_lsd fuel' (v / 10))
  end.

(** strcpy (ulib.c:234): characters are stored until the NUL has been
    stored; the walk starts at offset [d] of the destination. *)
Fixpoint strcpy_from (dest : list Z) (d : nat) (src : list Z) : Res (list Z) :=
  match src with
  | [] => store_at dest d 0
  | c :: r =>
      match store_at dest d c with
      | Ok dest => if c =? 0 then Ok dest else strcpy_from dest (S d) r
      | Blocks => Blocks
      | Fault k => Fault k
      end
  end.

Definition strcpy (dest src : list Z) : Res (list Z) := strcpy_from dest 0 src.

(** strncpy (ulib.c:240), first loop: while n is not 0 a character is
    stored and both pointers advance; n is decremented only if the character
    stored was not NUL.  The result carries the destination, the offset
    reached and the count left. *)
Fixpoint strncpy_copy (dest : list Z) (d : nat) (src : list Z) (n : nat)
  : Res (list Z * nat * nat) :=
  match n with
  | O => Ok (dest, d, O)
  | S n' =>
      match store_at dest d (hd 0 src) with
      | Ok dest =>
          if hd 0 src =? 0 then Ok (dest, S d, n)
          else strncpy_copy dest (S d) (tl src) n'
      | Blocks => Blocks
      | Fault k => Fault k
      end
  end.

(** memset (ulib.c:247): n bytes of (unsigned char)c from offset [d]. *)
Fixpoint memset (s : list Z) (d : nat) (c : Z) (n : nat) : Res (list Z) :=
  match n with
  | O => Ok s
  | S n' =>
      match store_at s d (c mod 256) with
      | Ok s => memset s (S d) c n'
      | Blocks => Blocks
      | Fault k => Fault k
      end
  end.

(** strncpy, second loop: the count left is filled with NUL. *)
Fixpoint strncpy_fill (dest : list Z) (d : nat) (n : nat) : Res (list Z) :=
  match n with
  | O => Ok dest
  | S n' =>
      match store_at dest d 0 with
      | Ok dest => strncpy_fill dest (S d) n'
      | Blocks => Blocks
      | Fault k => Fault k
      end
  end.

Definition strncpy (dest src : list Z) (n : nat) : Res (list Z) :=
  '(dest, d, n) ← strncpy_copy dest 0 src n;
  strncpy_fill dest d n.

(** struct Tag (ulib.h): char key[32]; char value[64]. *)
Definition TAG_KEY_SIZE : nat := 32.
Definition TAG_VALUE_SIZE : nat := 64.

Record Tag := mkTag {
  tag_key : list Z;
  tag_value : list Z
}.

(** The character s[i] of a C string. *)
Definition char_at (s : list Z) (i : nat) : Z := default 0 (s !! i).

(** parse_tag (shell.c:39), the key loop:
    [while (s[i] && s[i] != ':' && i < TAG_KEY_SIZE - 1) { key[i] = s[i]; i++; }]
    The loop runs at most TAG_KEY_SIZE - 1 times; [fuel] is that bound. *)
Fixpoint parse_tag_key (s : list Z) (i fuel : nat) (key : list Z)
  : Res (nat * list Z) :=
  match fuel with
  | O => Ok (i, key)
  | S fuel' =>
      if negb (char_at s i =? 0) && negb (char_at s i =? 58)
         && (i <? TAG_KEY_SIZE - 1)%nat
      then
        match store_at key i (char_at s i) with
        | Ok key => parse_tag_key s (S i) fuel' key
        | Blocks => Blocks
        | Fault k => Fault k
        end
      else Ok (i, key)
  end.

(** parse_tag, the value loop:
    [while (s[i] && j < TAG_VALUE_SIZE - 1) { value[j++] = s[i++]; }] *)
Fixpoint parse_tag_value (s : list Z) (i j fuel : nat) (value : list Z)
  : Res (nat * list Z) :=
  match fuel with
  | O => Ok (j, value)
  | S fuel' =>
      if negb (char_at s i =? 0) && (j <? TAG_VALUE_SIZE - 1)%nat then
        match store_at value j (char_at s i) with
        | Ok value => parse_tag_value s (S i) (S j) fuel' value
        | Blocks => Blocks
        | Fault k => Fault k
        end
      else Ok (j, value)
  end.

(** parse_tag (shell.c:39). *)
Definition parse_tag (s : list Z) (tag : Tag) : Res (Z * Tag) :=
  '(i, key) ← parse_tag_key s 0 TAG_KEY_SIZE (tag_key tag);
  key ← store_at key i 0;
  if negb (char_at s i =? 58) then
    value ← store_at (tag_value tag) 0 0;
    Ok (1, mkTag key value)
  else
    '(j, value) ← parse_tag_value s (S i) 0 TAG_VALUE_SIZE (tag_value tag);
    value ← store_at value j 0;
    Ok (1, mkTag key value).

(** The number of characters of a string before its first ':' or its end. *)
Fixpoint key_len (s : list Z) : nat :=
  match s with
  | [] => O
  | c :: r => if (c =? 0) || (c =? 58) then O else S (key_len r)
  end.

(** The static state of strtok (ulib.c:19): the 256-byte buffer and the
    position in it ([None] for the NULL pointer, else an offset). *)
Record StrtokState := mkStrtok {
  strtok_buffer : list Z;
  strtok_pos : option nat
}.

(** strtok, the loop that skips leading delimiters: the position advances
    while the character under it is not NUL and is a delimiter.  [rest] is
    the buffer from the position on; walking off its end is a read outside
    the buffer. *)
Fixpoint strtok_skip (delim rest : list Z) (p : nat) : Res nat :=
  match rest with
  | [] => Fault ReadOutOfBounds
  | c :: r =>
      if negb (c =? 0) && negb (contains_char delim c =? 0)
      then strtok_skip delim r (S p)
      else Ok p
  end.

(** strtok, the loop that finds the end of the token: the position
    advances while the character under it is neither NUL nor a delimiter. *)
Fixpoint strtok_scan (delim rest : list Z) (p : nat) : Res nat :=
  match rest with
  | [] => Fault ReadOutOfBounds
  | c :: r =>
      if negb (c =? 0) && (contains_char delim c =? 0)
      then strtok_scan delim r (S p)
      else Ok p
  end.

(** strtok, lines 261-266: a new string is copied to the buffer. *)
Definition strtok_init (str : option (list Z)) (st : StrtokState)
  : Res StrtokState :=
  match str with
  | Some s =>
      buf ← strncpy (strtok_buffer st) s 255;
      buf ← store_at buf 255 0;
      Ok (mkStrtok buf (Some 0%nat))
  | None => Ok st
  end.

(** strtok, lines 268-294: the next token, as its offset in the buffer. *)
Definition strtok_next (delim : list Z) (st : StrtokState)
  : Res (option nat * StrtokState) :=
  let buf := strtok_buffer st in
  match strtok_pos st with
  | None => Ok (None, st)
  | Some p =>
      c ← load_byte buf p;
      if c =? 0 then Ok (None, st)
      else
        p ← strtok_skip delim (drop p buf) p;
        c ← load_byte buf p;
        if c =? 0 then Ok (None, mkStrtok buf (Some p))
        else
          let token_start := p in
          p ← strtok_scan delim (drop p buf) p;
          c ← load_byte buf p;
          if c =? 0 then Ok (Some token_start, mkStrtok buf (Some p))
          else
            buf ← store_at buf p 0;
            Ok (Some token_start, mkStrtok buf (Some (S p)))
  end.

(** strtok (ulib.c:260). *)
Definition strtok (str : option (list Z)) (delim : list Z) (st : StrtokState)
  : Res (option nat * StrtokState) :=
  st ← strtok_init str st;
  strtok_next delim st.

(** parse_and_execute (shell.c:352), the tokenizer:
    [while (token && arg_count < MAX_ARGS) { args[arg_count++] = token;
     token = strtok(NULL, " \t"); }]
    The loop body runs at most MAX_ARGS times; [fuel] is one more. *)
Definition MAX_ARGS : nat := 16.

Fixpoint tokenize_loop (fuel : nat) (token : option nat) (args : list nat)
    (st : StrtokState) : Res (list nat * StrtokState) :=
  match fuel with
  | O => Ok (args, st)
  | S fuel' =>
      match token with
      | Some t =>
          if (length args <? MAX_ARGS)%nat then
            match strtok None [32; 9] st with
            | Ok (token', st') => tokenize_loop fuel' token' (args ++ [t]) st'
            | Blocks => Blocks
            | Fault k => Fault k
            end
          else Ok (args, st)
      | None => Ok (args, st)
      end
  end.

(** parse_and_execute, lines 353-369: the arguments found in a line, read
    as the strings the pointers in [args] point to when the loop is over. *)
Definition parse_args (line : list Z) (st : StrtokState)
  : Res (list (list Z)) :=
  let line := skip_blanks line in
  if hd 0 line =? 0 then Ok []
  else
    match strtok (Some line) [32; 9] st with
    | Ok (token, st) =>
        match tokenize_loop (S MAX_ARGS) token [] st with
        | Ok (args, st) =>
            Ok ((fun t => c_string (drop t (strtok_buffer st))) <$> args)
        | Blocks => Blocks
        | Fault k => Fault k
        end
    | Blocks => Blocks
    | Fault k => Fault k
    end.

(** The words of a text: its maximal runs of characters that are not
    delimiters. *)
Fixpoint words (d : Z -> bool) (s : list Z) : list (list Z) :=
  match s with
  | [] => []
  | c :: r =>
      if d c then words d r
      else
        match r with
        | [] => [[c]]
        | c' :: _ =>
            if d c' then [c] :: words d r
            else
              match words d r with
              | w :: ws => (c :: w) :: ws
              | [] => [[c]]
              end
        end
  end.

Definition is_delim (delim : list Z) (c : Z) : bool :=
  negb (contains_char delim c =? 0).

(** The length of the longest prefix whose characters all satisfy [f]. *)
Fixpoint span_len (f : Z -> bool) (s : list Z) : nat :=
  match s with
  | [] => O
  | c :: r => if f c then S (span_len f r) else O
  end.

(** The buffer holds, from offset [p] on, the text [rest] (free of NUL)
    followed by a NUL. *)
Definition text_at (p : nat) (buf rest : list Z) : Prop :=
  Forall (fun c => c <> 0) rest /\
  exists junk, drop p buf = rest ++ 0 :: junk.

(** The token [tok] lies NUL-terminated at offset [t] of the buffer, before
    the position [p] (or ending at it, with no text left). *)
Definition token_at (p : nat) (rest buf : list Z) (t : nat) (tok : list Z)
  : Prop :=
  Forall (fun c => c <> 0) tok /\
  take (S (length tok)) (drop t buf) = tok ++ [0] /\
  ((t + length tok < p)%nat \/ ((t + length tok)%nat = p /\ rest = [])).

End UlibString.

(* ========================================================================= *)
(* Properties of the user library                                            *)
(* ========================================================================= *)

Section UlibFacts.
Import Ulib.

Lemma le_bytes_length w v : length (le_bytes w v) = w.
Proof. revert v. induction w as [|w IH]; intros v; simpl; [done|]. by rewrite IH. Qed.

Lemma strlen_le_length s : (strlen s <= length s)%nat.
Proof.
  induction s as [|c r IH]; simpl; [lia|].
  destruct (c =? 0); simpl; lia.
Qed.

(** memcpy inside both objects stores exactly [n] bytes at [d..d+n). *)
Lemma memcpy_in_bounds n : forall dest d src s,
  (d + n <= length dest)%nat -> (s + n <= length src)%nat ->
  memcpy dest d src s n
  = Ok (take d dest ++ take n (drop s src) ++ drop (d + n) dest).
Proof.
  induction n as [|n IH]; intros dest d src s Hd Hs; simpl.
  - rewrite Nat.add_0_r. by rewrite take_drop.
  - unfold load_byte.
    destruct (src !! s) as [b|] eqn:Hb.
    2:{ apply lookup_ge_None in Hb. lia. }
    simpl. unfold store_byte, store_at.
    destruct (decide (d < length dest)%nat) as [Hlt|]; [|lia]. simpl.
    rewrite IH by (rewrite ?length_insert; lia).
    f_equal.
    rewrite take_insert_lt by lia.
    rewrite drop_insert_lt by lia.
    rewrite (take_S_r dest d (default 0 (dest !! d))).
    2:{ destruct (lookup_lt_is_Some_2 dest d Hlt) as [x Hx]. by rewrite Hx. }
    rewrite insert_app_r_alt by (rewrite length_take; lia).
    rewrite length_take, Nat.min_l by lia. rewrite Nat.sub_diag. simpl.
    rewrite <- app_assoc. simpl.
    rewrite (drop_S src b s Hb). simpl.
    replace (d + S n)%nat with (S d + n)%nat by lia. done.
Qed.

(** Whatever the source object, memcpy never stores outside a destination
    that has room for [n] bytes at [d]. *)
Lemma memcpy_dest_safe n : forall dest d src s,
  (d + n <= length dest)%nat ->
  (exists out, memcpy dest d src s n = Ok out /\ length out = length dest /\
               take d out = take d dest /\ drop (d + n) out = drop (d + n) dest)
  \/ memcpy dest d src s n = Fault ReadOutOfBounds.
Proof.
  induction n as [|n IH]; intros dest d src s Hd; simpl.
  - left. exists dest. by rewrite Nat.add_0_r.
  - unfold load_byte. destruct (src !! s) as [b|]; [|by right]. simpl.
    unfold store_byte, store_at.
    destruct (decide (d < length dest)%nat) as [Hlt|]; [|lia]. simpl.
    destruct (IH (<[d:=b]> dest) (S d) src (S s)) as [(out & -> & Hl & Ht & Hdr) | -> ];
      [rewrite length_insert; lia| |by right].
    left. exists out. rewrite length_insert in Hl. split_and!; [done|done| |].
    + assert (take d (take (S d) out) = take d (take (S d) (<[d:=b]> dest)))
        as H by (by rewrite Ht).
      rewrite !take_take, Nat.min_l in H by lia.
      rewrite H. by rewrite take_insert_ge by lia.
    + replace (d + S n)%nat with (S d + n)%nat by lia.
      rewrite Hdr. by rewrite drop_insert_lt by lia.
Qed.

Lemma copy_qwords_spec count : forall i src dst,
  (8 * (i + count) <= length src)%nat -> (8 * (i + count) <= length dst)%nat ->
  copy_qwords i count src dst
  = take (8 * i) dst ++ take (8 * count) (drop (8 * i) src)
    ++ drop (8 * (i + count)) dst.
Proof.
  induction count as [|c IH]; intros i src dst Hs Hd; cbn [copy_qwords].
  - rewrite Nat.add_0_r, Nat.mul_0_r, take_0. cbn [app]. by rewrite take_drop.
  - assert (Hq : length (qword_at i src) = 8%nat).
    { unfold qword_at. rewrite length_take, length_drop. lia. }
    assert (Hl : length (store_qword i (qword_at i src) dst) = length dst).
    { unfold store_qword. rewrite !length_app, Hq, length_take, length_drop. lia. }
    rewrite IH by (rewrite ?Hl; lia).
    unfold store_qword, qword_at.
    set (a := (8 * i)%nat).
    replace (8 * S i)%nat with (a + 8)%nat by lia.
    replace (8 * (S i + c))%nat with (a + 8 + 8 * c)%nat by lia.
    replace (8 * (i + S c))%nat with (a + 8 + 8 * c)%nat by lia.
    replace (8 * S c)%nat with (8 + 8 * c)%nat by lia.
    assert (Hta : length (take a dst) = a) by (rewrite length_take; lia).
    assert (Ht8 : length (take 8 (drop a src)) = 8%nat)
      by (rewrite length_take, length_drop; lia).
    rewrite (app_assoc (take a dst)).
    rewrite take_app_length' by (rewrite length_app; lia).
    rewrite (drop_app_add' (take a dst ++ take 8 (drop a src)) _ (a + 8) (8 * c))
      by (rewrite length_app; lia).
    rewrite drop_drop.
    rewrite <- (take_take_drop (drop a src) 8 (8 * c)), drop_drop.
    by rewrite <- !app_assoc.
Qed.

Lemma wrap64_small z : 0 <= z < 2 ^ 64 -> wrap64 z = z.
Proof. intros H. unfold wrap64. by apply Z.mod_small. Qed.

Lemma wrap32_small z : 0 <= z < 2 ^ 32 -> wrap32 z = z.
Proof. intros H. unfold wrap32. by apply Z.mod_small. Qed.

Lemma Event_bytes_length ev :
  Event_wf ev -> Z.of_nat (length (Event_bytes ev)) = sizeof_Event.
Proof.
  intros [_ _ _ _ _ Hr _ Hd _]. unfold Event_bytes.
  rewrite !length_app, !le_bytes_length, Hr, Hd. reflexivity.
Qed.

(** What push_event leaves in the slot: the first 256 bytes of the event,
    followed by whatever the slot held from byte 256 on. *)
Lemma push_event_slot_image ev r slot :
  Event_wf ev ->
  wrap64 (ring_tail r - ring_head r) < 256 ->
  ring_slots r !! Z.to_nat (Z.land (ring_tail r) 255) = Some slot ->
  Z.of_nat (length slot) = sizeof_Event ->
  ring_slots (push_event ev r).2 !! Z.to_nat (Z.land (ring_tail r) 255)
  = Some (take 256 (Event_bytes ev) ++ drop 256 slot).
Proof.
  intros Hwf Hroom Hslot Hlen. unfold push_event.
  destruct (256 <=? wrap64 (ring_tail r - ring_head r)) eqn:E; [lia|].
  cbn [snd ring_slots]. rewrite list_lookup_alter_eq, Hslot. cbn [fmap option_fmap option_map].
  f_equal. pose proof (Event_bytes_length ev Hwf) as Hb.
  unfold sizeof_Event, MAX_ROUTING_STEPS, EVENT_DATA_SIZE in *.
  rewrite copy_qwords_spec by lia.
  by rewrite take_0, drop_0.
Qed.

Lemma push_event_full r ev :
  ring_wf r -> 256 <= ring_tail r - ring_head r -> push_event ev r = (0, r).
Proof.
  intros (H0 & Hle & Hcap & Hmax) Hfull. unfold push_event.
  rewrite wrap64_small by lia.
  destruct (256 <=? ring_tail r - ring_head r) eqn:E; [done|lia].
Qed.

Lemma push_event_room r ev :
  ring_wf r -> ring_tail r - ring_head r < 256 ->
  push_event ev r
  = (1, {| ring_head := ring_head r; ring_tail := wrap64 (ring_tail r + 1);
           ring_slots := alter (copy_qwords 0 32 (Event_bytes ev))
                           (Z.to_nat (Z.land (ring_tail r) 255)) (ring_slots r) |}).
Proof.
  intros (H0 & Hle & Hcap & Hmax) Hroom. unfold push_event.
  rewrite wrap64_small by lia.
  destruct (256 <=? ring_tail r - ring_head r) eqn:E; [lia|done].
Qed.

Lemma drain_nonempty r :
  ring_wf r -> ring_head r < ring_tail r ->
  drain r = {| ring_head := ring_head r + 1; ring_tail := ring_tail r;
               ring_slots := ring_slots r |}.
Proof.
  intros (H0 & Hle & Hcap & Hmax) Hne. unfold drain.
  destruct (ring_tail r <=? ring_head r) eqn:E; [lia|].
  by rewrite wrap64_small by lia.
Qed.

(** One transport step keeps the counters in order, as long as the tail
    counter has room to grow. *)
Lemma ring_step_wf op r :
  ring_wf r -> ring_tail r + 1 < 2 ^ 64 ->
  ring_wf (ring_step op r) /\ ring_tail (ring_step op r) <= ring_tail r + 1.
Proof.
  intros Hwf Hmax. pose proof Hwf as (H0 & Hle & Hcap & _).
  destruct op as [ev|]; cbn [ring_step].
  - destruct (Z_lt_le_dec (ring_tail r - ring_head r) 256) as [Hroom|Hfull].
    + rewrite push_event_room by done. cbn [snd].
      rewrite wrap64_small by lia. unfold ring_wf; cbn [ring_head ring_tail]. lia.
    + rewrite push_event_full by done. cbn [snd]. split; [done|lia].
  - unfold pop_response.
    destruct (ring_tail r <=? ring_head r) eqn:E; cbn [snd].
    + split; [done|lia].
    + rewrite wrap64_small by lia. unfold ring_wf; cbn [ring_head ring_tail]. lia.
Qed.

Lemma ring_run_wf ops : forall r,
  ring_wf r -> ring_tail r + Z.of_nat (length ops) < 2 ^ 64 ->
  ring_wf (ring_run ops r).
Proof.
  induction ops as [|op ops IH]; intros r Hwf Hmax; cbn [ring_run foldl]; [done|].
  cbn [length] in Hmax.
  destruct (ring_step_wf op r Hwf) as [Hwf' Ht]; [lia|].
  apply IH; [done|lia].
Qed.

(** C3 (as the code has it): print of a 220-character string builds an Event
    whose payload is full; sizeof(Event) is 264 bytes, push_event copies 256
    of them, and the last 8 payload bytes never reach the slot. *)
Theorem push_event_loses_payload_tail :
  sizeof_Event = 264 /\
  exists payload ev r slot,
    Ulib.print_payload (replicate 220 65) = Ok (payload, 224) /\
    Ulib.execute_event_build EVENT_CONSOLE_WRITE 3 (Some payload) 224 1 = Ok ev /\
    Z.of_nat (length (Event_bytes ev)) = sizeof_Event /\
    Ulib.push_event ev Ulib.empty_ring = (1, r) /\
    Ulib.ring_slots r !! 0%nat = Some slot /\
    take 216 (ev_data (Event_of_bytes slot)) = take 216 (ev_data ev) /\
    drop 216 (ev_data ev) = replicate 8 65 /\
    drop 216 (ev_data (Event_of_bytes slot)) = replicate 8 0.
Proof.
  split; [reflexivity|].
  eexists _, _, _, _.
  split; [vm_compute; reflexivity|].
  split; [vm_compute; reflexivity|].
  split; [vm_compute; reflexivity|].
  split; [vm_compute; reflexivity|].
  split; [vm_compute; reflexivity|].
  split; [vm_compute; reflexivity|].
  split; vm_compute; reflexivity.
Qed.

(** C4: on a ring whose counters are in order, a push to a full ring returns
    0 and leaves the ring as it was; once one slot has been drained the same
    push returns 1 and publishes tail + 1; and along any run of pushes and
    pops that does not exhaust the 64-bit tail counter, head never exceeds
    tail. *)
Theorem push_event_backpressure (r : Ulib.Ring) (ev : Event)
    (ops : list Ulib.RingOp) :
  Ulib.ring_wf r ->
  (256 <= Ulib.ring_tail r - Ulib.ring_head r ->
     Ulib.push_event ev r = (0, r) /\
     Ulib.ring_head (Ulib.drain r) = Ulib.ring_head r + 1 /\
     (Ulib.push_event ev (Ulib.drain r)).1 = 1 /\
     Ulib.ring_tail (Ulib.push_event ev (Ulib.drain r)).2
       = wrap64 (Ulib.ring_tail r + 1)) /\
  (Ulib.ring_tail r + Z.of_nat (length ops) < 2 ^ 64 ->
     Ulib.ring_head (Ulib.ring_run ops r) <= Ulib.ring_tail (Ulib.ring_run ops r)).
Proof.
  intros Hwf. split.
  - intros Hfull. pose proof Hwf as (H0 & Hle & Hcap & Hmax).
    split; [by apply push_event_full|].
    rewrite drain_nonempty by (done || lia). cbn [ring_head].
    split; [done|].
    rewrite push_event_room; [done| |cbn [ring_head ring_tail]; lia].
    unfold ring_wf; cbn [ring_head ring_tail]. lia.
  - intros Hbudget.
    destruct (ring_run_wf ops r Hwf Hbudget) as (_ & Hle & _). done.
Qed.

(** The scenario of 257 pushes: 256 fill the empty ring, the next one is
    refused, and it goes through after one slot is drained. *)
Lemma push_event_backpressure_witness :
  Ulib.push_event Ulib.zero_Event (Ulib.push_many 256 Ulib.zero_Event Ulib.empty_ring)
    = (0, Ulib.push_many 256 Ulib.zero_Event Ulib.empty_ring) /\
  (Ulib.push_event Ulib.zero_Event
     (Ulib.drain (Ulib.push_many 256 Ulib.zero_Event Ulib.empty_ring))).1 = 1.
Proof.
  assert (Hh : Ulib.ring_head (Ulib.push_many 256 Ulib.zero_Event Ulib.empty_ring) = 0)
    by (vm_compute; reflexivity).
  assert (Ht : Ulib.ring_tail (Ulib.push_many 256 Ulib.zero_Event Ulib.empty_ring) = 256)
    by (vm_compute; reflexivity).
  assert (Hwf : Ulib.ring_wf (Ulib.push_many 256 Ulib.zero_Event Ulib.empty_ring)).
  { unfold Ulib.ring_wf. rewrite Hh, Ht. lia. }
  destruct (push_event_backpressure _ Ulib.zero_Event [] Hwf) as [Hfull _].
  destruct Hfull as (H1 & _ & H2 & _); [rewrite Hh, Ht; lia|].
  exact (conj H1 H2).
Defined.

Lemma execute_event_build_safe type deck_prefix payload payload_size id :
  (exists ev n,
     execute_event_build type deck_prefix payload payload_size id = Ok ev /\
     Z.of_nat (length (ev_data ev)) = EVENT_DATA_SIZE /\
     Z.of_nat n <= EVENT_DATA_SIZE /\ Z.of_nat n <= Z.max 0 payload_size /\
     drop n (ev_data ev) = replicate (224 - n) 0)
  \/ execute_event_build type deck_prefix payload payload_size id
     = Fault ReadOutOfBounds.
Proof.
  unfold execute_event_build, EVENT_DATA_SIZE.
  destruct payload as [p|].
  2:{ left. eexists _, 0%nat. cbn [mbind Res_bind ev_data zero_Event].
      split_and!; [reflexivity|done|lia|lia|done]. }
  destruct (0 <? payload_size) eqn:Hpos.
  2:{ left. eexists _, 0%nat. cbn [mbind Res_bind ev_data zero_Event].
      split_and!; [reflexivity|done|lia|lia|done]. }
  set (sz := if 224 <? payload_size then 224 else payload_size).
  assert (Hsz : 0 < sz <= 224 /\ sz <= payload_size).
  { subst sz. destruct (224 <? payload_size) eqn:E; lia. }
  cbn [ev_data zero_Event].
  destruct (memcpy_dest_safe (Z.to_nat sz) (replicate 224 0) 0 p 0)
    as [(out & Hout & Hlen & _ & Hdrop)| Hfault].
  { rewrite length_replicate. lia. }
  - left. exists (mkEvent id 1 type 0 0 (<[1%nat:=0]> (<[0%nat:=deck_prefix]> (replicate 8 0))) out), (Z.to_nat sz).
    rewrite Hout. cbn [mbind Res_bind ev_data ev_pad zero_Event].
    rewrite length_replicate in Hlen.
    split_and!; [reflexivity|lia|lia|lia|].
    cbn [plus] in Hdrop. rewrite Hdrop. by rewrite drop_replicate.
  - right. rewrite Hfault. reflexivity.
Qed.

Lemma print_payload_spec str :
  let n := Nat.min (strlen str) 220 in
  print_payload str
  = Ok (le_bytes 4 (Z.of_nat n) ++ take n str ++ replicate (220 - n) 0,
        4 + Z.of_nat n).
Proof.
  intros n. unfold print_payload, EVENT_DATA_SIZE.
  set (len := if 224 - 4 <? Z.of_nat (strlen str) then 224 - 4
              else Z.of_nat (strlen str)).
  assert (Hlen : len = Z.of_nat n).
  { subst len n. destruct (224 - 4 <? Z.of_nat (strlen str)) eqn:E; lia. }
  rewrite Hlen. assert (Hn : (n <= 220)%nat) by (subst n; lia).
  assert (Hs : (n <= length str)%nat)
    by (pose proof (strlen_le_length str); subst n; lia).
  rewrite Nat2Z.id.
  rewrite memcpy_in_bounds
    by (rewrite ?length_replicate, ?le_bytes_length; simpl; lia).
  cbn [mbind Res_bind].
  rewrite wrap32_small by lia.
  replace (take 0 (replicate (Z.to_nat 224) 0) ++
           take 4 (drop 0 (le_bytes 4 (Z.of_nat n))) ++
           drop (0 + 4) (replicate (Z.to_nat 224) 0))
    with (le_bytes 4 (Z.of_nat n) ++ replicate 220 0).
  2:{ rewrite take_0, drop_0, (take_ge (le_bytes 4 _))
        by (rewrite le_bytes_length; lia).
      change (Z.to_nat 224) with 224%nat. by rewrite drop_replicate. }
  rewrite memcpy_in_bounds.
  2:{ rewrite length_app, length_replicate, le_bytes_length. lia. }
  2:{ simpl. lia. }
  cbn [mbind Res_bind]. f_equal. f_equal.
  rewrite take_app_length' by (by rewrite le_bytes_length).
  f_equal. rewrite drop_0. f_equal.
  rewrite (drop_app_add' (le_bytes 4 (Z.of_nat n)) _ 4 n) by (by rewrite le_bytes_length).
  by rewrite drop_replicate.
Qed.

Lemma print_attr_payload_spec str attr :
  let n := Nat.min (strlen str) 219 in
  print_attr_payload str attr
  = Ok (attr :: le_bytes 4 (Z.of_nat n) ++ take n str ++ replicate (219 - n) 0,
        5 + Z.of_nat n).
Proof.
  intros n. unfold print_attr_payload, EVENT_DATA_SIZE.
  set (len := if 224 - 5 <? Z.of_nat (strlen str) then 224 - 5
              else Z.of_nat (strlen str)).
  assert (Hlen : len = Z.of_nat n).
  { subst len n. destruct (224 - 5 <? Z.of_nat (strlen str)) eqn:E; lia. }
  rewrite Hlen. assert (Hn : (n <= 219)%nat) by (subst n; lia).
  assert (Hs : (n <= length str)%nat)
    by (pose proof (strlen_le_length str); subst n; lia).
  rewrite Nat2Z.id. change (Z.to_nat 224) with 224%nat.
  change (store_byte (replicate 224 0) 0 attr) with (Ok (attr :: replicate 223 0)).
  cbn [mbind Res_bind].
  rewrite wrap32_small by lia.
  rewrite memcpy_in_bounds
    by (cbn [length]; rewrite ?length_replicate, ?le_bytes_length; lia).
  replace (take 1 (attr :: replicate 223 0) ++
           take 4 (drop 0 (le_bytes 4 (Z.of_nat n))) ++
           drop (1 + 4) (attr :: replicate 223 0))
    with ((attr :: le_bytes 4 (Z.of_nat n)) ++ replicate 219 0).
  2:{ rewrite drop_0, (take_ge (le_bytes 4 _)) by (rewrite le_bytes_length; lia).
      reflexivity. }
  cbn [mbind Res_bind].
  rewrite memcpy_in_bounds.
  2:{ rewrite length_app, length_replicate. cbn [length]. rewrite le_bytes_length. lia. }
  2:{ simpl. lia. }
  cbn [mbind Res_bind]. f_equal. f_equal.
  rewrite take_app_length' by (cbn [length]; by rewrite le_bytes_length).
  cbn [app]. f_equal. f_equal. rewrite drop_0. f_equal.
  rewrite app_comm_cons.
  rewrite (drop_app_add' (attr :: le_bytes 4 (Z.of_nat n)) _ 5 n)
    by (cbn [length]; by rewrite le_bytes_length).
  by rewrite drop_replicate.
Qed.

(** A payload that fits is copied whole, and the rest of the region keeps
    the zeros of the memset. *)
Lemma execute_event_build_copy type deck_prefix p payload_size id :
  0 < payload_size <= EVENT_DATA_SIZE ->
  (Z.to_nat payload_size <= length p)%nat ->
  exists ev,
    execute_event_build type deck_prefix (Some p) payload_size id = Ok ev /\
    ev_data ev = take (Z.to_nat payload_size) p
                 ++ replicate (224 - Z.to_nat payload_size) 0.
Proof.
  unfold EVENT_DATA_SIZE. intros Hsz Hp. unfold execute_event_build, EVENT_DATA_SIZE.
  destruct (0 <? payload_size) eqn:E1; [|lia].
  destruct (224 <? payload_size) eqn:E2; [lia|].
  cbn [ev_data zero_Event].
  rewrite memcpy_in_bounds by (rewrite ?length_replicate; lia).
  cbn [mbind Res_bind]. eexists. split; [reflexivity|].
  cbn [ev_data]. rewrite take_0, drop_0. cbn [app plus].
  by rewrite drop_replicate.
Qed.

Lemma execute_event_returns kernel type deck_prefix payload payload_size out st ev :
  execute_event_build type deck_prefix payload payload_size (next_event_id st)
    = Ok ev ->
  exists res, execute_event kernel type deck_prefix payload payload_size out st
              = Ok res.
Proof.
  intros Hb. unfold execute_event. rewrite Hb. cbn [mbind Res_bind].
  cbn [event_ring response_ring next_event_id].
  destruct (push_event ev (event_ring st)) as [pushed er].
  destruct (pushed =? 0); [eauto|].
  destruct (pop_response _ _) as [[popped resp'] rr].
  destruct out; eauto.
Qed.

(** C9: the payload region of an Event is 224 bytes and no store of
    execute_event, print or print_attr falls outside it.  execute_event
    copies at most min(payload_size, 224) bytes, whatever it is given; print
    keeps at most 220 characters after its 4-byte length and print_attr at
    most 219 after its attribute byte and 4-byte length, so header and string
    fill the region at most exactly; both always return. *)
Theorem payload_region_never_overrun :
  (forall type deck_prefix payload payload_size id,
     Ulib.execute_event_build type deck_prefix payload payload_size id
       <> Fault WriteOutOfBounds /\
     forall ev,
       Ulib.execute_event_build type deck_prefix payload payload_size id = Ok ev ->
       Z.of_nat (length (ev_data ev)) = EVENT_DATA_SIZE /\
       exists n : nat,
         Z.of_nat n <= EVENT_DATA_SIZE /\ Z.of_nat n <= Z.max 0 payload_size /\
         drop n (ev_data ev) = replicate (224 - n) 0) /\
  (forall str id, exists (n : nat) payload ev,
     Z.of_nat n = Z.min (Z.of_nat (strlen str)) (EVENT_DATA_SIZE - 4) /\
     payload = le_bytes 4 (Z.of_nat n) ++ take n str ++ replicate (220 - n) 0 /\
     Z.of_nat (length payload) = EVENT_DATA_SIZE /\
     Ulib.print_payload str = Ok (payload, 4 + Z.of_nat n) /\
     Ulib.execute_event_build EVENT_CONSOLE_WRITE 3 (Some payload)
       (4 + Z.of_nat n) id = Ok ev /\
     ev_data ev = payload) /\
  (forall str attr id, exists (n : nat) payload ev,
     Z.of_nat n = Z.min (Z.of_nat (strlen str)) (EVENT_DATA_SIZE - 5) /\
     payload = attr :: le_bytes 4 (Z.of_nat n) ++ take n str
                 ++ replicate (219 - n) 0 /\
     Z.of_nat (length payload) = EVENT_DATA_SIZE /\
     Ulib.print_attr_payload str attr = Ok (payload, 5 + Z.of_nat n) /\
     Ulib.execute_event_build EVENT_CONSOLE_WRITE_ATTR 3 (Some payload)
       (5 + Z.of_nat n) id = Ok ev /\
     ev_data ev = payload) /\
  (forall kernel str st, exists st', Ulib.print kernel str st = Ok st') /\
  (forall kernel str attr st, exists st', Ulib.print_attr kernel str attr st = Ok st').
Proof.
  assert (Hprint : forall str id, exists (n : nat) payload ev,
     Z.of_nat n = Z.min (Z.of_nat (strlen str)) (EVENT_DATA_SIZE - 4) /\
     payload = le_bytes 4 (Z.of_nat n) ++ take n str ++ replicate (220 - n) 0 /\
     Z.of_nat (length payload) = EVENT_DATA_SIZE /\
     print_payload str = Ok (payload, 4 + Z.of_nat n) /\
     execute_event_build EVENT_CONSOLE_WRITE 3 (Some payload)
       (4 + Z.of_nat n) id = Ok ev /\
     ev_data ev = payload).
  { intros str id. pose proof (strlen_le_length str) as Hs.
    set (n := Nat.min (strlen str) 220).
    assert (Hl : length (le_bytes 4 (Z.of_nat n) ++ take n str
                         ++ replicate (220 - n) 0) = 224%nat).
    { rewrite !length_app, le_bytes_length, length_take, length_replicate. lia. }
    destruct (execute_event_build_copy EVENT_CONSOLE_WRITE 3
                (le_bytes 4 (Z.of_nat n) ++ take n str ++ replicate (220 - n) 0)
                (4 + Z.of_nat n) id) as (ev & Hev & Hdata).
    { unfold EVENT_DATA_SIZE. lia. }
    { rewrite Hl. lia. }
    exists n, (le_bytes 4 (Z.of_nat n) ++ take n str ++ replicate (220 - n) 0), ev.
    unfold EVENT_DATA_SIZE.
    split_and!; [lia|reflexivity|lia|apply print_payload_spec|exact Hev|].
    rewrite Hdata.
    replace (Z.to_nat (4 + Z.of_nat n)) with (4 + n)%nat by lia.
    rewrite (app_assoc (le_bytes 4 _)).
    rewrite take_app_length'
      by (rewrite length_app, le_bytes_length, length_take; lia).
    rewrite <- app_assoc; repeat f_equal; lia. }
  assert (Hattr : forall str attr id, exists (n : nat) payload ev,
     Z.of_nat n = Z.min (Z.of_nat (strlen str)) (EVENT_DATA_SIZE - 5) /\
     payload = attr :: le_bytes 4 (Z.of_nat n) ++ take n str
                 ++ replicate (219 - n) 0 /\
     Z.of_nat (length payload) = EVENT_DATA_SIZE /\
     print_attr_payload str attr = Ok (payload, 5 + Z.of_nat n) /\
     execute_event_build EVENT_CONSOLE_WRITE_ATTR 3 (Some payload)
       (5 + Z.of_nat n) id = Ok ev /\
     ev_data ev = payload).
  { intros str attr id. pose proof (strlen_le_length str) as Hs.
    set (n := Nat.min (strlen str) 219).
    assert (Hl : length (attr :: le_bytes 4 (Z.of_nat n) ++ take n str
                         ++ replicate (219 - n) 0) = 224%nat).
    { cbn [length]. rewrite !length_app, le_bytes_length, length_take,
        length_replicate. lia. }
    destruct (execute_event_build_copy EVENT_CONSOLE_WRITE_ATTR 3
                (attr :: le_bytes 4 (Z.of_nat n) ++ take n str
                   ++ replicate (219 - n) 0)
                (5 + Z.of_nat n) id) as (ev & Hev & Hdata).
    { unfold EVENT_DATA_SIZE. lia. }
    { rewrite Hl. lia. }
    exists n, (attr :: le_bytes 4 (Z.of_nat n) ++ take n str
                 ++ replicate (219 - n) 0), ev.
    unfold EVENT_DATA_SIZE.
    split_and!; [lia|reflexivity|lia|apply print_attr_payload_spec|exact Hev|].
    rewrite Hdata.
    replace (Z.to_nat (5 + Z.of_nat n)) with (S (4 + n)) by lia.
    cbn [take]. rewrite <- app_comm_cons. f_equal.
    rewrite (app_assoc (le_bytes 4 _)).
    rewrite take_app_length'
      by (rewrite length_app, le_bytes_length, length_take; lia).
    rewrite <- app_assoc; repeat f_equal; lia. }
  split_and!.
  - intros type deck_prefix payload payload_size id.
    destruct (execute_event_build_safe type deck_prefix payload payload_size id)
      as [(ev & n & Hev & Hlen & Hn & Hn' & Hdrop)|Hf].
    + rewrite Hev. split; [done|]. intros ev' [= <-]. eauto.
    + rewrite Hf. split; [done|]. intros ev' [=].
  - exact Hprint.
  - exact Hattr.
  - intros kernel [str|] st; cbn [print]; [|eauto].
    destruct (Z.of_nat (strlen str) =? 0); [eauto|].
    destruct (Hprint str (next_event_id st)) as (n & payload & ev & _ & _ & _ & Hp & Hev & _).
    rewrite Hp. cbn [mbind Res_bind].
    destruct (execute_event_returns kernel _ _ _ _ None st ev Hev) as [[[r o] st'] ->].
    cbn [mbind Res_bind]. eauto.
  - intros kernel [str|] attr st; cbn [print_attr]; [|eauto].
    destruct (Z.of_nat (strlen str) =? 0); [eauto|].
    destruct (Hattr str attr (next_event_id st)) as (n & payload & ev & _ & _ & _ & Hp & Hev & _).
    rewrite Hp. cbn [mbind Res_bind].
    destruct (execute_event_returns kernel _ _ _ _ None st ev Hev) as [[[r o] st'] ->].
    cbn [mbind Res_bind]. eauto.
Qed.

(* --- the response ring ----------------------------------------------------- *)

Lemma land_255 z : 0 <= z -> Z.land z 255 = z mod 256.
Proof. intros Hz. change 255 with (Z.ones 8). by rewrite Z.land_ones. Qed.

Lemma pop_response_empty resp r :
  ring_tail r <= ring_head r -> pop_response resp r = (0, resp, r).
Proof.
  intros He. unfold pop_response.
  by destruct (Z.leb_spec (ring_tail r) (ring_head r)); [|lia].
Qed.

Lemma pop_response_some resp r slot :
  ring_wf r -> ring_head r < ring_tail r ->
  ring_slots r !! Z.to_nat (ring_head r mod 256) = Some slot ->
  length slot = 56%nat -> length resp = 56%nat ->
  pop_response resp r
  = (1, slot, {| ring_head := ring_head r + 1; ring_tail := ring_tail r;
                 ring_slots := ring_slots r |}).
Proof.
  intros (H0 & Hle & Hcap & Hmax) Hne Hslot Hls Hlr. unfold pop_response.
  destruct (Z.leb_spec (ring_tail r) (ring_head r)); [lia|].
  rewrite land_255, Hslot by done. cbn [default from_option id].
  change (Z.to_nat (sizeof_Response / 8)) with 7%nat.
  rewrite copy_qwords_spec by lia.
  rewrite take_0, drop_0, take_ge, drop_ge by lia.
  rewrite app_nil_r. cbn [app].
  rewrite wrap64_small by (change (2 ^ 64) with 18446744073709551616 in *; lia).
  reflexivity.
Qed.

(** X18: pop_response delivers the published responses whole and in
    order.  On a ring whose counters are in order and whose slots are
    56-byte responses, n calls return the slots from index head mod 256 on,
    one after the other and wrapping around after slot 255, each copied in
    full, as long as head is below tail; they advance head by one each and
    no further than tail, and never change a slot or tail. *)
Theorem pop_responses_in_order n : forall resp r,
  ring_wf r -> length (ring_slots r) = 256%nat ->
  Forall (fun slot => length slot = 56%nat) (ring_slots r) ->
  length resp = 56%nat ->
  pop_responses n resp r
  = ((fun j => default []
                 (ring_slots r !! Z.to_nat ((ring_head r + Z.of_nat j) mod 256)))
       <$> seq 0 (Nat.min n (Z.to_nat (ring_tail r - ring_head r))),
     {| ring_head :=
          ring_head r
          + Z.of_nat (Nat.min n (Z.to_nat (ring_tail r - ring_head r)));
        ring_tail := ring_tail r; ring_slots := ring_slots r |}).
Proof.
  induction n as [|n IH]; intros resp r Hwf Hlen Hslots Hresp.
  { cbn [pop_responses Nat.min seq fmap list_fmap].
    rewrite Z.add_0_r. by destruct r. }
  cbn [pop_responses].
  destruct (Z_lt_le_dec (ring_head r) (ring_tail r)) as [Hne|Hempty].
  - assert (Hidx : (Z.to_nat (ring_head r mod 256) < length (ring_slots r))%nat).
    { pose proof (Z.mod_pos_bound (ring_head r) 256). lia. }
    destruct (lookup_lt_is_Some_2 _ _ Hidx) as [slot Hslot].
    assert (Hls : length slot = 56%nat).
    { by apply (proj1 (Forall_lookup _ _) Hslots _ _ Hslot). }
    rewrite (pop_response_some resp r slot) by done. cbn [Z.eqb].
    set (r' := {| ring_head := ring_head r + 1; ring_tail := ring_tail r;
                  ring_slots := ring_slots r |}).
    assert (Hwf' : ring_wf r').
    { destruct Hwf as (H0 & Hle & Hcap & Hmax). unfold ring_wf, r'.
      cbn [ring_head ring_tail]. lia. }
    rewrite (IH slot r' Hwf' Hlen Hslots Hls).
    cbn [ring_head ring_tail ring_slots r'].
    replace (Nat.min (S n) (Z.to_nat (ring_tail r - ring_head r)))
      with (S (Nat.min n (Z.to_nat (ring_tail r - (ring_head r + 1))))) by lia.
    f_equal.
    + cbn [seq fmap list_fmap]. f_equal.
      * by rewrite Z.add_0_r, Hslot.
      * rewrite <- seq_shift, <- list_fmap_compose. apply list_fmap_ext.
        intros _ j _. cbn [compose].
        by replace (ring_head r + Z.of_nat (S j)) with (ring_head r + 1 + Z.of_nat j)
          by lia.
    + f_equal. lia.
  - rewrite pop_response_empty by done. cbn [Z.eqb].
    replace (Nat.min (S n) (Z.to_nat (ring_tail r - ring_head r))) with 0%nat by lia.
    cbn [seq fmap list_fmap]. rewrite Z.add_0_r. by destruct r.
Qed.

Lemma pop_responses_in_order_witness :
  pop_responses 5 (replicate 56 9) response_ring_3
  = ([replicate 56 1; replicate 56 2; replicate 56 3],
     {| ring_head := 257; ring_tail := 257;
        ring_slots := ring_slots response_ring_3 |}).
Proof.
  rewrite (pop_responses_in_order 5 (replicate 56 9) response_ring_3).
  - vm_compute. reflexivity.
  - vm_compute. split_and!; discriminate || reflexivity.
  - reflexivity.
  - unfold response_ring_3. cbn [ring_slots].
    repeat (apply Forall_insert; [|reflexivity]).
    apply Forall_replicate. reflexivity.
  - reflexivity.
Defined.

End UlibFacts.

(* ========================================================================= *)
(* Properties of the hardware deck                                           *)
(* ========================================================================= *)

Section DeckFacts.
Import HardwareDeck.

(** Unfolding of the state updates, leaving arithmetic alone. *)
Ltac st_simpl :=
  cbn [timers next_timer_id entries deck_log outbox vga_log vga_loc keyboard
       kheap kheap_free set_timers set_next_timer_id set_entries log_call
       vga_call set_keyboard set_kheap set_entry_state
       deck_complete deck_error_detailed reject complete
       vga_print_char vga_print_newline vga_update_cursor vga_clear_screen
       vga_set_cursor_position vga_set_current_loc fst snd] in *.

Ltac case_types :=
  repeat match goal with
         | |- context [?a =? ?b] => destruct (Z.eqb_spec a b)
         end.

Lemma le_value_le_bytes w : forall v,
  le_value (le_bytes w v) = v mod 2 ^ (8 * Z.of_nat w).
Proof.
  induction w as [|w IH]; intros v; cbn [le_bytes le_value].
  - change (2 ^ (8 * Z.of_nat 0)) with 1. by rewrite Z.mod_1_r.
  - rewrite IH.
    replace (2 ^ (8 * Z.of_nat (S w))) with (256 * 2 ^ (8 * Z.of_nat w)).
    2:{ replace (8 * Z.of_nat (S w)) with (8 + 8 * Z.of_nat w) by lia.
        rewrite Z.pow_add_r by lia. reflexivity. }
    rewrite Z.rem_mul_r by lia. reflexivity.
Qed.

Lemma read_le_le_bytes w v rest :
  0 <= v < 2 ^ (8 * Z.of_nat w) -> read_le w 0 (le_bytes w v ++ rest) = v.
Proof.
  intros Hv. unfold read_le. rewrite drop_0.
  rewrite take_app_length' by (by rewrite le_bytes_length).
  rewrite le_value_le_bytes, Z.mod_mod by lia. by apply Z.mod_small.
Qed.

Lemma read_le_range w off m : 0 <= read_le w off m < 2 ^ (8 * Z.of_nat w).
Proof. unfold read_le. apply Z.mod_pos_bound. lia. Qed.

(** Every handled type is one of the constants, and none lies in 60-69. *)
Lemma handled_types_spec t :
  t ∈ handled_types <->
  (40 <= t <= 43) \/ (50 <= t <= 53) \/ (70 <= t <= 76).
Proof.
  unfold handled_types, EVENT_TIMER_CREATE, EVENT_TIMER_CANCEL,
    EVENT_TIMER_SLEEP, EVENT_TIMER_GETTICKS, EVENT_DEV_OPEN, EVENT_DEV_IOCTL,
    EVENT_DEV_READ, EVENT_DEV_WRITE, EVENT_CONSOLE_WRITE,
    EVENT_CONSOLE_WRITE_ATTR, EVENT_CONSOLE_READ_LINE, EVENT_CONSOLE_READ_CHAR,
    EVENT_CONSOLE_CLEAR, EVENT_CONSOLE_SET_POS, EVENT_CONSOLE_GET_POS.
  rewrite !elem_of_cons, elem_of_nil. lia.
Qed.

Lemma process_out_of_range e re now st :
  entries st !! e = Some re ->
  ev_type (event_copy re) < 40 \/ 80 <= ev_type (event_copy re) ->
  hardware_deck_process (Some e) now st
  = reject e ERROR_INVALID_PARAMETER
      "Event type out of hardware range (40-79)" st.
Proof.
  intros He Hty. unfold hardware_deck_process. rewrite He.
  destruct (40 <=? ev_type (event_copy re)) eqn:E1;
    destruct (ev_type (event_copy re) <? 80) eqn:E2; cbn [andb negb];
    try reflexivity; lia.
Qed.

Lemma process_unhandled e re now st :
  entries st !! e = Some re ->
  40 <= ev_type (event_copy re) < 80 ->
  ev_type (event_copy re) ∉ handled_types ->
  hardware_deck_process (Some e) now st
  = reject e ERROR_NOT_IMPLEMENTED "Hardware operation type not implemented" st.
Proof.
  intros He Hty Hnot. rewrite handled_types_spec in Hnot.
  unfold hardware_deck_process. rewrite He.
  destruct (40 <=? ev_type (event_copy re)) eqn:E1; [|lia].
  destruct (ev_type (event_copy re) <? 80) eqn:E2; [|lia]. cbn [andb negb].
  unfold EVENT_TIMER_CREATE, EVENT_TIMER_CANCEL,
    EVENT_TIMER_SLEEP, EVENT_TIMER_GETTICKS, EVENT_DEV_OPEN, EVENT_DEV_IOCTL,
    EVENT_DEV_READ, EVENT_DEV_WRITE, EVENT_CONSOLE_WRITE,
    EVENT_CONSOLE_WRITE_ATTR, EVENT_CONSOLE_READ_LINE, EVENT_CONSOLE_READ_CHAR,
    EVENT_CONSOLE_CLEAR, EVENT_CONSOLE_SET_POS, EVENT_CONSOLE_GET_POS.
  case_types; try lia. reflexivity.
Qed.

(** Dispatch to the case of a handled type. *)
Lemma process_dispatch e re now st :
  entries st !! e = Some re ->
  let data := ev_data (event_copy re) in
  let type := ev_type (event_copy re) in
  (type = EVENT_TIMER_CREATE ->
     hardware_deck_process (Some e) now st = case_TIMER_CREATE e data now st) /\
  (type = EVENT_TIMER_CANCEL ->
     hardware_deck_process (Some e) now st = case_TIMER_CANCEL e data st) /\
  (type = EVENT_TIMER_SLEEP ->
     hardware_deck_process (Some e) now st = case_TIMER_SLEEP e data now st) /\
  (type = EVENT_TIMER_GETTICKS ->
     hardware_deck_process (Some e) now st = case_TIMER_GETTICKS e now st) /\
  (type = EVENT_DEV_OPEN ->
     hardware_deck_process (Some e) now st = case_DEV_OPEN e data st) /\
  (type = EVENT_DEV_IOCTL ->
     hardware_deck_process (Some e) now st = case_DEV_IOCTL e data st) /\
  (type = EVENT_DEV_READ ->
     hardware_deck_process (Some e) now st = case_DEV_READ e data st) /\
  (type = EVENT_DEV_WRITE ->
     hardware_deck_process (Some e) now st = case_DEV_WRITE e data st) /\
  (type = EVENT_CONSOLE_WRITE ->
     hardware_deck_process (Some e) now st = case_CONSOLE_WRITE e data st) /\
  (type = EVENT_CONSOLE_WRITE_ATTR ->
     hardware_deck_process (Some e) now st = case_CONSOLE_WRITE_ATTR e data st) /\
  (type = EVENT_CONSOLE_READ_LINE ->
     hardware_deck_process (Some e) now st = case_CONSOLE_READ_LINE e data st) /\
  (type = EVENT_CONSOLE_READ_CHAR ->
     hardware_deck_process (Some e) now st = case_CONSOLE_READ_CHAR e st) /\
  (type = EVENT_CONSOLE_CLEAR ->
     hardware_deck_process (Some e) now st = case_CONSOLE_CLEAR e st) /\
  (type = EVENT_CONSOLE_SET_POS ->
     hardware_deck_process (Some e) now st = case_CONSOLE_SET_POS e data st) /\
  (type = EVENT_CONSOLE_GET_POS ->
     hardware_deck_process (Some e) now st = case_CONSOLE_GET_POS e st).
Proof.
  intros He data type. unfold hardware_deck_process. rewrite He.
  fold data type.
  split_and!; intros ->; reflexivity.
Qed.

Lemma entry_state_set e s st :
  is_Some (entries st !! e) -> entry_state e (set_entry_state e s st) = Some s.
Proof.
  intros [re He]. unfold entry_state, set_entry_state, set_entries; cbn [entries].
  by rewrite lookup_alter_eq, He.
Qed.

Lemma entry_state_set_ne e e' s st :
  e <> e' -> entry_state e' (set_entry_state e s st) = entry_state e' st.
Proof.
  intros Hne. unfold entry_state, set_entry_state, set_entries; cbn [entries].
  by rewrite lookup_alter_ne.
Qed.

Lemma entry_state_deck_complete e p r k st :
  is_Some (entries st !! e) ->
  entry_state e (deck_complete e p r k st) = Some EVENT_STATUS_COMPLETED.
Proof. intros He. unfold deck_complete. by apply entry_state_set. Qed.

Lemma entry_state_deck_error e p c m st :
  is_Some (entries st !! e) ->
  entry_state e (deck_error_detailed e p c m st) = Some EVENT_STATUS_ERROR.
Proof. intros He. unfold deck_error_detailed. by apply entry_state_set. Qed.

(** C6 (amended): an operation type outside 40..79 is rejected with
    invalid-parameter and a type inside 40..79 that has no case, such as
    60..69, is rejected with not-implemented; either way the only thing done
    is the failure of the entry, so no handler runs: timers, console,
    keyboard and allocator are as before. *)
Theorem unhandled_type_rejected e re now st :
  entries st !! e = Some re ->
  ((ev_type (event_copy re) < 40 \/ 80 <= ev_type (event_copy re)) ->
     hardware_deck_process (Some e) now st
     = Ok (0, deck_error_detailed e DECK_PREFIX_HARDWARE ERROR_INVALID_PARAMETER
                "Event type out of hardware range (40-79)" st)) /\
  (40 <= ev_type (event_copy re) < 80 ->
   ev_type (event_copy re) ∉ handled_types ->
     hardware_deck_process (Some e) now st
     = Ok (0, deck_error_detailed e DECK_PREFIX_HARDWARE ERROR_NOT_IMPLEMENTED
                "Hardware operation type not implemented" st)) /\
  (60 <= ev_type (event_copy re) < 70 ->
     ev_type (event_copy re) ∉ handled_types) /\
  (forall code msg,
     let st' := deck_error_detailed e DECK_PREFIX_HARDWARE code msg st in
     timers st' = timers st /\ next_timer_id st' = next_timer_id st /\
     vga_log st' = vga_log st /\ keyboard st' = keyboard st /\
     kheap st' = kheap st /\
     deck_log st' = deck_log st ++ [CallError e DECK_PREFIX_HARDWARE code msg] /\
     entry_state e st' = Some EVENT_STATUS_ERROR).
Proof.
  intros He. split_and!.
  - intros Hty. by rewrite (process_out_of_range e re).
  - intros Hty Hnot. by rewrite (process_unhandled e re).
  - intros Hty. rewrite handled_types_spec. lia.
  - intros code msg st'. subst st'. st_simpl.
    split_and!; try reflexivity.
    apply entry_state_deck_error. eauto.
Qed.

Lemma unhandled_type_rejected_witness :
  hardware_deck_process (Some 0%nat) 0 (with_entry 0 (event_of 90 []) idle_state)
  = Ok (0, deck_error_detailed 0 DECK_PREFIX_HARDWARE ERROR_INVALID_PARAMETER
             "Event type out of hardware range (40-79)"
             (with_entry 0 (event_of 90 []) idle_state)).
Proof.
  refine (proj1 (unhandled_type_rejected 0 _ 0
                   (with_entry 0 (event_of 90 []) idle_state) _) _).
  - vm_compute. reflexivity.
  - vm_compute. right. discriminate.
Defined.

(** C6 (as stated) fails at type 60: it lies outside 40-59 and 70-79, yet
    the entry is failed with not-implemented, not invalid-parameter. *)
Lemma type_60_is_not_implemented :
  hardware_deck_process (Some 0%nat) 0 (with_entry 0 (event_of 60 []) idle_state)
  = Ok (0, deck_error_detailed 0 DECK_PREFIX_HARDWARE ERROR_NOT_IMPLEMENTED
             "Hardware operation type not implemented"
             (with_entry 0 (event_of 60 []) idle_state)) /\
  ERROR_NOT_IMPLEMENTED <> ERROR_INVALID_PARAMETER /\
  ~ (40 <= 60 <= 59 \/ 70 <= 60 <= 79).
Proof.
  split; [vm_compute; reflexivity|]. split; [discriminate|lia].
Qed.

(** timer_cancel deactivates the first active slot carrying the id and
    returns 1, or finds none and returns 0 leaving the state as it was. *)
Lemma timer_cancel_spec timer_id st :
  (forall i t,
     take MAX_TIMERS (timers st) !! i = Some t -> has_id timer_id t ->
     (forall j t', take MAX_TIMERS (timers st) !! j = Some t' -> (j < i)%nat ->
                   ~ has_id timer_id t') ->
     timer_cancel timer_id st = (1, set_timers (alter deactivate i) st)) /\
  (Forall (fun t => ~ has_id timer_id t) (take MAX_TIMERS (timers st)) ->
     timer_cancel timer_id st = (0, st)).
Proof.
  unfold timer_cancel. split.
  - intros i t Hi Hid Hfirst.
    assert (H : list_find (has_id timer_id) (take MAX_TIMERS (timers st))
                = Some (i, t)) by (apply list_find_Some; eauto).
    by rewrite H.
  - intros Hnone. by rewrite (proj2 (list_find_None _ _) Hnone).
Qed.

(** C7 (amended): a cancel event with a non-zero identifier deactivates the
    first active slot that carries it, completes the entry and leaves every
    other slot and every other entry (a suspended one linked to the timer
    included) as it was; with no such slot it fails with not-found and alters
    no slot; identifier zero is refused with invalid-parameter and alters no
    slot. *)
Theorem timer_cancel_by_id e re now st :
  entries st !! e = Some re ->
  ev_type (event_copy re) = EVENT_TIMER_CANCEL ->
  (read_le 8 0 (ev_data (event_copy re)) = 0 ->
     hardware_deck_process (Some e) now st
     = Ok (0, deck_error_detailed e DECK_PREFIX_HARDWARE ERROR_INVALID_PARAMETER
                "Timer cancel: timer ID is zero" st) /\
     timers (deck_error_detailed e DECK_PREFIX_HARDWARE ERROR_INVALID_PARAMETER
               "Timer cancel: timer ID is zero" st) = timers st) /\
  (read_le 8 0 (ev_data (event_copy re)) <> 0 ->
     (forall i t,
        take MAX_TIMERS (timers st) !! i = Some t ->
        has_id (read_le 8 0 (ev_data (event_copy re))) t ->
        (forall j t', take MAX_TIMERS (timers st) !! j = Some t' -> (j < i)%nat ->
                      ~ has_id (read_le 8 0 (ev_data (event_copy re))) t') ->
        exists st',
          hardware_deck_process (Some e) now st = Ok (1, st') /\
          timers st' = <[i := deactivate t]> (timers st) /\
          deck_log st'
            = deck_log st
              ++ [CallComplete e DECK_PREFIX_HARDWARE RNull RESULT_TYPE_NONE] /\
          entry_state e st' = Some EVENT_STATUS_COMPLETED /\
          forall e', e' <> e -> entries st' !! e' = entries st !! e') /\
     (Forall (fun t => ~ has_id (read_le 8 0 (ev_data (event_copy re))) t)
             (take MAX_TIMERS (timers st)) ->
        hardware_deck_process (Some e) now st
        = Ok (0, deck_error_detailed e DECK_PREFIX_HARDWARE
                   ERROR_HW_TIMER_NOT_FOUND "Timer cancel: timer not found" st) /\
        timers (deck_error_detailed e DECK_PREFIX_HARDWARE
                  ERROR_HW_TIMER_NOT_FOUND "Timer cancel: timer not found" st)
          = timers st)).
Proof.
  intros He Hty.
  destruct (process_dispatch e re now st He) as (_ & Hd & _).
  rewrite (Hd Hty). clear Hd. unfold case_TIMER_CANCEL.
  set (timer_id := read_le 8 0 (ev_data (event_copy re))).
  destruct (timer_cancel_spec timer_id st) as [Hfound Hnone].
  split.
  - intros ->. split; reflexivity.
  - intros Hnz. destruct (Z.eqb_spec timer_id 0) as [|_]; [done|].
    split.
    + intros i t Hi Hid Hfirst.
      rewrite (Hfound i t Hi Hid Hfirst). cbn [Z.eqb negb].
      eexists. split; [reflexivity|]. st_simpl.
      apply lookup_take_Some in Hi as [Hi _].
      split_and!.
      * apply list_eq. intros j. destruct (decide (i = j)) as [<-|Hne].
        -- rewrite list_lookup_alter_eq, Hi.
           by rewrite list_lookup_insert_eq by (by eapply lookup_lt_Some).
        -- by rewrite list_lookup_alter_ne, list_lookup_insert_ne.
      * reflexivity.
      * apply entry_state_deck_complete. st_simpl. eauto.
      * intros e' Hne. by rewrite lookup_alter_ne.
    + intros Hno. rewrite (Hnone Hno). cbn [Z.eqb negb]. split; reflexivity.
Qed.

Lemma timer_cancel_by_id_witness :
  exists st',
    hardware_deck_process (Some 0%nat) 0 cancel_scenario = Ok (1, st') /\
    timers st' = <[2%nat := deactivate sleeper_timer]> (timers cancel_scenario) /\
    entries st' !! 1%nat = Some sleeper.
Proof.
  assert (He : entries cancel_scenario !! 0%nat
               = Some (mkRoutingEntry (event_of EVENT_TIMER_CANCEL (le_bytes 8 5))
                         EVENT_STATUS_PROCESSING 1))
    by (vm_compute; reflexivity).
  destruct (timer_cancel_by_id 0 _ 0 cancel_scenario He eq_refl) as [_ Hnz].
  destruct Hnz as [Hfound _]; [vm_compute; discriminate|].
  destruct (Hfound 2%nat sleeper_timer) as (st' & Hrun & Hts & _ & _ & Hothers).
  - vm_compute. reflexivity.
  - split; vm_compute; reflexivity.
  - intros [|[|j]] t' Hj Hlt [Ha _]; [| |lia];
      vm_compute in Hj; injection Hj as <-; discriminate.
  - exists st'. split; [exact Hrun|]. split; [exact Hts|].
    rewrite Hothers by lia. vm_compute. reflexivity.
Defined.

(** C7 (as stated) fails for identifier 0: no active slot carries it, yet
    the cancel is refused with invalid-parameter, not not-found. *)
Lemma cancel_id_zero_is_invalid_parameter :
  Forall (fun t => ~ has_id 0 t)
    (timers (with_entry 0 (event_of EVENT_TIMER_CANCEL (le_bytes 8 0)) idle_state)) /\
  hardware_deck_process (Some 0%nat) 0
    (with_entry 0 (event_of EVENT_TIMER_CANCEL (le_bytes 8 0)) idle_state)
  = Ok (0, deck_error_detailed 0 DECK_PREFIX_HARDWARE ERROR_INVALID_PARAMETER
             "Timer cancel: timer ID is zero"
             (with_entry 0 (event_of EVENT_TIMER_CANCEL (le_bytes 8 0)) idle_state)) /\
  ERROR_INVALID_PARAMETER <> ERROR_HW_TIMER_NOT_FOUND.
Proof.
  split; [|split; [vm_compute; reflexivity|discriminate]].
  apply Forall_forall. intros t Ht [Ha _].
  apply elem_of_replicate in Ht as [-> _]. discriminate.
Qed.

(** The console-write loop on [n] characters free of NUL prints each of them
    and touches nothing but the console. *)
Lemma console_write_loop_spec attr chars : forall rest st,
  Forall (fun c => c <> 0) chars ->
  vga_log (console_write_loop attr (chars ++ rest) (length chars) st)
    = vga_log st ++ (console_call attr <$> chars) /\
  same_but_console st (console_write_loop attr (chars ++ rest) (length chars) st).
Proof.
  induction chars as [|c chars IH]; intros rest st Hnz.
  - simpl. rewrite app_nil_r. unfold same_but_console. by split_and!.
  - apply Forall_cons in Hnz as [Hc Hnz].
    simpl length. simpl app. simpl console_write_loop.
    destruct (Z.eqb_spec c 0) as [|_]; [done|].
    destruct (IH rest (console_putc attr c st) Hnz) as [Hlog Hframe].
    rewrite Hlog. split.
    + change (list_fmap Z VgaCall (console_call attr) chars)
        with (console_call attr <$> chars).
      rewrite (cons_middle _ (vga_log st)), app_assoc. f_equal.
      unfold console_putc, console_call. destruct (c =? 10); reflexivity.
    + destruct Hframe as (H1 & H2 & H3 & H4 & H5 & H6 & H7 & H8).
      unfold same_but_console. rewrite H1, H2, H3, H4, H5, H6, H7, H8.
      unfold console_putc. destruct (c =? 10); st_simpl; by split_and!.
Qed.

(** C8: a console-write event whose payload is a 4-byte length n and n bytes
    free of NUL, with 1 <= n <= 220, makes the deck print exactly those n
    characters in payload order and complete the entry with a success
    Response carrying the inline value n. *)
Theorem console_write_emits e re now st (chars rest : list Z) :
  entries st !! e = Some re ->
  ev_type (event_copy re) = EVENT_CONSOLE_WRITE ->
  ev_data (event_copy re)
    = le_bytes 4 (Z.of_nat (length chars)) ++ chars ++ rest ->
  Forall (fun c => c <> 0) chars ->
  1 <= Z.of_nat (length chars) <= EVENT_DATA_SIZE - 4 ->
  exists st',
    hardware_deck_process (Some e) now st = Ok (1, st') /\
    vga_log st'
      = vga_log st ++ (console_call VGA_DEFAULT <$> chars) ++ [VgaUpdateCursor] /\
    deck_log st'
      = deck_log st
        ++ [CallComplete e DECK_PREFIX_HARDWARE
              (RValue (Z.of_nat (length chars))) RESULT_TYPE_VALUE] /\
    outbox st'
      = outbox st
        ++ [{| resp_event_id := ev_id (event_copy re);
               resp_workflow_id := ev_user_id (event_copy re);
               resp_status := 0; resp_error_code := None;
               resp_result := RValue (Z.of_nat (length chars));
               resp_result_kind := RESULT_TYPE_VALUE;
               resp_completed_prefix := DECK_PREFIX_HARDWARE |}] /\
    entry_state e st' = Some EVENT_STATUS_COMPLETED.
Proof.
  unfold EVENT_DATA_SIZE. intros He Hty Hdata Hnz Hn.
  destruct (process_dispatch e re now st He) as (_&_&_&_&_&_&_&_& Hd &_).
  rewrite (Hd Hty). clear Hd. unfold case_CONSOLE_WRITE, EVENT_DATA_SIZE.
  rewrite Hdata.
  rewrite read_le_le_bytes by (change (2 ^ (8 * Z.of_nat 4)) with 4294967296; lia).
  rewrite (drop_app_length' (le_bytes 4 _)) by (by rewrite le_bytes_length).
  destruct (Z.eqb_spec (Z.of_nat (length chars)) 0) as [|_]; [lia|].
  destruct (224 - 4 <? Z.of_nat (length chars)) eqn:E; [lia|]. cbn [orb].
  rewrite Nat2Z.id.
  destruct (console_write_loop_spec VGA_DEFAULT chars rest st Hnz)
    as (Hlog & H1 & H2 & H3 & H4 & H5 & H6 & H7 & H8).
  eexists. split; [reflexivity|]. st_simpl.
  rewrite Hlog, H3, H4, H5.
  split_and!.
  - by rewrite <- app_assoc.
  - reflexivity.
  - by rewrite He.
  - apply entry_state_deck_complete. st_simpl. rewrite H3, He. eauto.
Qed.

(** The scenario of the payload "hi": two characters, result value 2. *)
Lemma console_write_emits_witness :
  exists st',
    hardware_deck_process (Some 0%nat) 0
      (with_entry 0 (event_of EVENT_CONSOLE_WRITE (le_bytes 4 2 ++ [104; 105]))
         idle_state) = Ok (1, st') /\
    vga_log st' = [VgaPrintChar 104 VGA_DEFAULT; VgaPrintChar 105 VGA_DEFAULT;
                   VgaUpdateCursor] /\
    deck_log st' = [CallComplete 0 DECK_PREFIX_HARDWARE (RValue 2) RESULT_TYPE_VALUE].
Proof.
  destruct (console_write_emits 0
              (mkRoutingEntry
                 (event_of EVENT_CONSOLE_WRITE (le_bytes 4 2 ++ [104; 105]))
                 EVENT_STATUS_PROCESSING 1)
              0
              (with_entry 0
                 (event_of EVENT_CONSOLE_WRITE (le_bytes 4 2 ++ [104; 105]))
                 idle_state)
              [104; 105] (replicate 218 0))
    as (st' & Hrun & Hvga & Hlog & _).
  - vm_compute. reflexivity.
  - reflexivity.
  - vm_compute. reflexivity.
  - repeat constructor; discriminate.
  - vm_compute. split; discriminate.
  - exists st'. split; [exact Hrun|]. split; [exact Hvga|exact Hlog].
Defined.

(* --- the sweep ----------------------------------------------------------- *)

Lemma alter_as_insert {A} (f : A -> A) (l : list A) i x :
  l !! i = Some x -> alter f i l = <[i := f x]> l.
Proof.
  intros Hi. apply list_eq. intros j. destruct (decide (i = j)) as [<-|Hne].
  - rewrite list_lookup_alter_eq, Hi.
    by rewrite list_lookup_insert_eq by (by eapply lookup_lt_Some).
  - by rewrite list_lookup_alter_ne, list_lookup_insert_ne.
Qed.

Lemma foldl_invariant {A B} (P : A -> Prop) (f : A -> B -> A) (l : list B) :
  forall a, (forall a b, b ∈ l -> P a -> P (f a b)) -> P a -> P (foldl f a l).
Proof.
  induction l as [|b l IH]; intros a Hstep Ha; cbn [foldl]; [done|].
  apply IH.
  - intros a' b' Hb'. apply Hstep. by right.
  - apply Hstep; [by left|done].
Qed.

(** An iteration of the sweep on a slot that is active and due: the entry it
    is linked to (if any) gets deck_complete and then state PROCESSING, and
    the slot becomes [fire_timer]. *)
Lemma check_slot_fired now st k t :
  timers st !! k = Some t -> t_active t = true -> t_expiration t <= now ->
  timers (check_slot now st k) = <[k := fire_timer now t]> (timers st) /\
  match t_suspended_entry t with
  | Some e =>
      deck_log (check_slot now st k)
        = deck_log st
          ++ [CallComplete e DECK_PREFIX_HARDWARE RNull RESULT_TYPE_NONE] /\
      outbox (check_slot now st k)
        = outbox (deck_complete e DECK_PREFIX_HARDWARE RNull RESULT_TYPE_NONE st) /\
      entries (check_slot now st k)
        = alter (set_state EVENT_STATUS_PROCESSING) e
            (alter (set_state EVENT_STATUS_COMPLETED) e (entries st))
  | None =>
      deck_log (check_slot now st k) = deck_log st /\
      outbox (check_slot now st k) = outbox st /\
      entries (check_slot now st k) = entries st
  end.
Proof.
  intros Hk Ha Hexp. unfold check_slot. rewrite Hk, Ha.
  destruct (Z.leb_spec (t_expiration t) now) as [_|]; [|lia].
  cbn [andb]. split.
  - assert (Hf : fire_timer now t
                 = if 0 <? t_interval t
                   then set_expiration (wrap64 (now + t_interval t)) (clear_link t)
                   else deactivate (clear_link t)) by reflexivity.
    assert (Hc : t_suspended_entry t = None -> clear_link t = t)
      by (destruct t; cbn; by intros ->).
    rewrite Hf.
    destruct (t_suspended_entry t) as [e|] eqn:Hl;
      destruct (0 <? t_interval t) eqn:Hi; st_simpl;
      rewrite ?list_alter_alter_eq, (alter_as_insert _ _ _ _ Hk); cbn [compose];
      rewrite ?Hc by done; reflexivity.
  - destruct (t_suspended_entry t) as [e|];
      destruct (0 <? t_interval t); st_simpl; done.
Qed.

Lemma check_slot_not_due now st k t :
  timers st !! k = Some t -> now < t_expiration t -> check_slot now st k = st.
Proof.
  intros Hk Hlt. unfold check_slot. rewrite Hk.
  destruct (Z.leb_spec (t_expiration t) now); [lia|].
  by rewrite andb_false_r.
Qed.

(** One iteration of the sweep either leaves the state alone or fires the
    slot. *)
Lemma check_slot_effect now st k :
  check_slot now st k = st \/
  exists t,
    timers st !! k = Some t /\ t_active t = true /\ t_expiration t <= now /\
    timers (check_slot now st k) = <[k := fire_timer now t]> (timers st) /\
    match t_suspended_entry t with
    | Some e =>
        deck_log (check_slot now st k)
          = deck_log st
            ++ [CallComplete e DECK_PREFIX_HARDWARE RNull RESULT_TYPE_NONE] /\
        entries (check_slot now st k)
          = alter (set_state EVENT_STATUS_PROCESSING) e
              (alter (set_state EVENT_STATUS_COMPLETED) e (entries st))
    | None =>
        deck_log (check_slot now st k) = deck_log st /\
        entries (check_slot now st k) = entries st
    end.
Proof.
  destruct (timers st !! k) as [t|] eqn:Hk.
  2:{ left. unfold check_slot. by rewrite Hk. }
  destruct (t_active t) eqn:Ha.
  2:{ left. unfold check_slot. by rewrite Hk, Ha. }
  destruct (Z.leb_spec (t_expiration t) now) as [Hexp|Hlt].
  2:{ left. by eapply check_slot_not_due. }
  right. exists t. destruct (check_slot_fired now st k t Hk Ha Hexp) as [Hts H].
  split_and!; try done.
  destruct (t_suspended_entry t); destruct H as (? & ? & ?); done.
Qed.

Lemma check_slot_other_slot now st k i :
  k <> i -> timers (check_slot now st k) !! i = timers st !! i.
Proof.
  intros Hne. destruct (check_slot_effect now st k) as [->|(t & _ & _ & _ & -> & _)];
    [done|]. by rewrite list_lookup_insert_ne.
Qed.

Lemma check_slot_log_grows now st k :
  exists new, deck_log (check_slot now st k) = deck_log st ++ new.
Proof.
  destruct (check_slot_effect now st k) as [->|(t & _ & _ & _ & _ & H)].
  - exists []. by rewrite app_nil_r.
  - destruct (t_suspended_entry t); destruct H as [-> _]; eauto.
    exists []. by rewrite app_nil_r.
Qed.

Lemma check_slot_keeps_entries now st k e :
  is_Some (entries st !! e) -> is_Some (entries (check_slot now st k) !! e).
Proof.
  intros He. destruct (check_slot_effect now st k) as [->|(t & _ & _ & _ & _ & H)];
    [done|].
  destruct (t_suspended_entry t) as [e'|]; destruct H as [_ ->]; [|done].
  by rewrite !lookup_alter_is_Some.
Qed.

Lemma check_slot_keeps_processing now st k e :
  entry_state e st = Some EVENT_STATUS_PROCESSING ->
  entry_state e (check_slot now st k) = Some EVENT_STATUS_PROCESSING.
Proof.
  intros He. destruct (check_slot_effect now st k) as [->|(t & _ & _ & _ & _ & H)];
    [done|].
  unfold entry_state in *.
  destruct (t_suspended_entry t) as [e'|]; destruct H as [_ ->]; [|done].
  destruct (decide (e' = e)) as [->|Hne].
  - rewrite !lookup_alter_eq. destruct (entries st !! e); [done|discriminate].
  - by rewrite !lookup_alter_ne.
Qed.

Lemma sweep_split i :
  (i < MAX_TIMERS)%nat ->
  seq 0 MAX_TIMERS = seq 0 i ++ i :: seq (S i) (MAX_TIMERS - S i).
Proof.
  intros Hi. replace MAX_TIMERS with (i + S (MAX_TIMERS - S i))%nat at 1 by lia.
  by rewrite seq_app.
Qed.

Lemma fire_timer_fields now t :
  t_suspended_entry (fire_timer now t) = None /\
  t_id (fire_timer now t) = t_id t /\
  t_interval (fire_timer now t) = t_interval t /\
  (0 < t_interval t ->
     t_active (fire_timer now t) = t_active t /\
     t_expiration (fire_timer now t) = wrap64 (now + t_interval t)) /\
  (t_interval t <= 0 -> t_active (fire_timer now t) = false).
Proof.
  unfold fire_timer. cbn [clear_link t_interval].
  destruct (Z.ltb_spec 0 (t_interval t)); cbn; split_and!; try done; lia.
Qed.

(** C1 (amended): for a slot that is active and due at a sweep, the sweep
    calls deck_complete on the entry the slot is linked to (hardware prefix,
    no result), sets that entry's state to PROCESSING and clears the link;
    the slot is then rescheduled to now + interval (64-bit) when
    interval > 0 and deactivated when interval = 0. *)
Theorem sweep_fires_due_slot now st i t :
  (i < MAX_TIMERS)%nat ->
  timers st !! i = Some t -> t_active t = true -> t_expiration t <= now ->
  timers (timer_check_expired now st) !! i = Some (fire_timer now t) /\
  t_suspended_entry (fire_timer now t) = None /\
  (0 < t_interval t ->
     t_active (fire_timer now t) = true /\
     t_expiration (fire_timer now t) = wrap64 (now + t_interval t)) /\
  (t_interval t = 0 -> t_active (fire_timer now t) = false) /\
  forall e, t_suspended_entry t = Some e -> is_Some (entries st !! e) ->
    entry_state e (timer_check_expired now st) = Some EVENT_STATUS_PROCESSING /\
    exists before after,
      deck_log (timer_check_expired now st)
      = deck_log st ++ before
        ++ [CallComplete e DECK_PREFIX_HARDWARE RNull RESULT_TYPE_NONE] ++ after.
Proof.
  intros Hi Ht Ha Hexp.
  destruct (fire_timer_fields now t) as (Hlink & _ & _ & Hper & Hone).
  split_and!; [|done|intros; rewrite <- Ha; by apply Hper|intros; apply Hone; lia|].
  - unfold timer_check_expired. rewrite (sweep_split i Hi), foldl_app. cbn [foldl].
    set (st1 := foldl (check_slot now) st (seq 0 i)).
    assert (H1 : timers st1 !! i = Some t).
    { subst st1. apply (foldl_invariant (fun s => timers s !! i = Some t)); [|done].
      intros s k Hk Hs. rewrite check_slot_other_slot; [done|].
      apply elem_of_seq in Hk. lia. }
    apply (foldl_invariant (fun s => timers s !! i = Some (fire_timer now t))).
    + intros s k Hk Hs. rewrite check_slot_other_slot; [done|].
      apply elem_of_seq in Hk. lia.
    + destruct (check_slot_fired now st1 i t H1 Ha Hexp) as [-> _].
      apply list_lookup_insert_eq. by eapply lookup_lt_Some.
  - intros e Hl He.
    unfold timer_check_expired. rewrite (sweep_split i Hi), foldl_app. cbn [foldl].
    set (st1 := foldl (check_slot now) st (seq 0 i)).
    assert (H1 : timers st1 !! i = Some t /\ is_Some (entries st1 !! e) /\
                 exists before, deck_log st1 = deck_log st ++ before).
    { subst st1.
      apply (foldl_invariant
               (fun s => timers s !! i = Some t /\ is_Some (entries s !! e) /\
                         exists before, deck_log s = deck_log st ++ before)).
      - intros s k Hk (Hs & Hes & before & Hlog). split_and!.
        + rewrite check_slot_other_slot; [done|]. apply elem_of_seq in Hk. lia.
        + by apply check_slot_keeps_entries.
        + destruct (check_slot_log_grows now s k) as [new ->].
          exists (before ++ new). by rewrite Hlog, app_assoc.
      - split_and!; [done|done|]. exists []. by rewrite app_nil_r. }
    destruct H1 as (H1 & He1 & before & Hlog1).
    destruct (check_slot_fired now st1 i t H1 Ha Hexp) as [_ H2].
    rewrite Hl in H2. destruct H2 as (Hlog2 & _ & Hent2).
    set (call := CallComplete e DECK_PREFIX_HARDWARE RNull RESULT_TYPE_NONE) in *.
    assert (H3 : entry_state e (check_slot now st1 i) = Some EVENT_STATUS_PROCESSING).
    { unfold entry_state. rewrite Hent2, !lookup_alter_eq.
      destruct He1 as [re ->]. done. }
    apply (foldl_invariant
             (fun s => entry_state e s = Some EVENT_STATUS_PROCESSING /\
                       exists before after,
                         deck_log s = deck_log st ++ before ++ [call] ++ after)).
    + intros s k _ (Hs & b & a & Hlog). split.
      * by apply check_slot_keeps_processing.
      * destruct (check_slot_log_grows now s k) as [new ->].
        exists b, (a ++ new). rewrite Hlog. by rewrite <- !app_assoc.
    + split; [done|]. exists before, []. rewrite Hlog2, Hlog1.
      by rewrite <- !app_assoc.
Qed.

(** A sleeping entry whose one-shot timer is due: after the sweep the slot
    is the fired one and the entry is PROCESSING. *)
Lemma sweep_fires_due_slot_witness :
  timers (timer_check_expired 120000000 sleep_scenario) !! 2%nat
    = Some (fire_timer 120000000 (mkTimer 5 1 120000000 0 0 (Some 1%nat) true)) /\
  t_active (fire_timer 120000000 (mkTimer 5 1 120000000 0 0 (Some 1%nat) true))
    = false /\
  entry_state 1 (timer_check_expired 120000000 sleep_scenario)
    = Some EVENT_STATUS_PROCESSING.
Proof.
  destruct (sweep_fires_due_slot 120000000 sleep_scenario 2
              (mkTimer 5 1 120000000 0 0 (Some 1%nat) true))
    as (Hslot & _ & _ & Hone & Hentry).
  - vm_compute. lia.
  - vm_compute. reflexivity.
  - reflexivity.
  - cbn. lia.
  - split; [exact Hslot|]. split; [apply Hone; reflexivity|].
    destruct (Hentry 1%nat) as [Hst _]; [reflexivity|vm_compute; eauto|exact Hst].
Defined.

(** C1 (as stated) fails: the sweep itself completes the entry.  On the
    sleeping entry above it calls deck_complete, which delivers the entry's
    Response, and only then writes PROCESSING into the state. *)
Lemma sweep_completes_entry_itself :
  deck_log (timer_check_expired 120000000 sleep_scenario)
    = [CallComplete 1 DECK_PREFIX_HARDWARE RNull RESULT_TYPE_NONE] /\
  outbox (timer_check_expired 120000000 sleep_scenario)
    = [mkResponse 1 1 0 None RNull RESULT_TYPE_NONE DECK_PREFIX_HARDWARE] /\
  entry_state 1 (deck_complete 1 DECK_PREFIX_HARDWARE RNull RESULT_TYPE_NONE
                   sleep_scenario) = Some EVENT_STATUS_COMPLETED.
Proof. split_and!; vm_compute; reflexivity. Qed.

(* --- a sleeping entry and the sweeps that follow ------------------------- *)

Lemma wakes_app e st st' new :
  deck_log st' = deck_log st ++ new ->
  wakes e st' = (wakes e st + length (filter (fun c => is_wake e c = true) new))%nat.
Proof. intros H. unfold wakes. by rewrite H, filter_app, length_app. Qed.

Lemma wakes_same_log e st st' :
  deck_log st' = deck_log st -> wakes e st' = wakes e st.
Proof. intros H. unfold wakes. by rewrite H. Qed.

Lemma unheld_lookup e st :
  unheld e st <-> forall j t, timers st !! j = Some t -> ~ holds e t.
Proof. unfold unheld. by rewrite Forall_lookup. Qed.

(** A slot that does not hold the entry neither wakes it nor touches it. *)
Lemma check_slot_not_holder now st k e :
  (forall t, timers st !! k = Some t -> ~ holds e t) ->
  wakes e (check_slot now st k) = wakes e st /\
  entries (check_slot now st k) !! e = entries st !! e.
Proof.
  intros Hk.
  destruct (check_slot_effect now st k) as [->|(t & Ht & Ha & _ & _ & H)]; [done|].
  destruct (t_suspended_entry t) as [e'|] eqn:Hl.
  - destruct H as [Hlog Hent].
    assert (Hne : e' <> e).
    { intros ->. apply (Hk t Ht). by split. }
    split.
    + rewrite (wakes_app e st _ _ Hlog). cbn [filter list_filter is_wake].
      rewrite bool_decide_eq_false_2 by done. cbn [andb].
      destruct (decide (false = true)); [discriminate|]. cbn. lia.
    + rewrite Hent. by rewrite !lookup_alter_ne.
  - destruct H as [Hlog Hent]. split; [by apply wakes_same_log|by rewrite Hent].
Qed.

(** The sweep never makes a slot hold an entry. *)
Lemma check_slot_no_new_holder now st k e j t' :
  timers (check_slot now st k) !! j = Some t' -> holds e t' ->
  timers st !! j = Some t'.
Proof.
  intros Hj [_ Hl].
  destruct (check_slot_effect now st k) as [Hs|(t & Ht & _ & _ & Hts & _)].
  - by rewrite Hs in Hj.
  - rewrite Hts in Hj. destruct (decide (k = j)) as [->|Hne].
    + rewrite list_lookup_insert_eq in Hj by (by eapply lookup_lt_Some).
      injection Hj as <-.
      destruct (fire_timer_fields now t) as (Hn & _). congruence.
    + by rewrite list_lookup_insert_ne in Hj.
Qed.


Lemma sweep_unheld now st e :
  unheld e st ->
  unheld e (timer_check_expired now st) /\
  wakes e (timer_check_expired now st) = wakes e st /\
  entries (timer_check_expired now st) !! e = entries st !! e.
Proof.
  intros Hun. unfold timer_check_expired.
  apply (foldl_invariant
           (fun s => unheld e s /\ wakes e s = wakes e st /\
                     entries s !! e = entries st !! e)); [|done].
  intros s k _ (Hs & Hw & He). rewrite unheld_lookup in Hs.
  destruct (check_slot_not_holder now s k e) as [Hw' He']; [by eauto|].
  split_and!; [|congruence|congruence].
  apply unheld_lookup. intros j t' Hj Hh.
  eapply Hs; [|exact Hh]. by eapply check_slot_no_new_holder.
Qed.





Lemma sweeps_nil st : sweeps [] st = st.
Proof. reflexivity. Qed.

Lemma sweeps_cons now nows st :
  sweeps (now :: nows) st = sweeps nows (timer_check_expired now st).
Proof. unfold sweeps. cbn [foldl]. reflexivity. Qed.


Lemma sweeps_unheld nows : forall st e,
  unheld e st ->
  unheld e (sweeps nows st) /\ wakes e (sweeps nows st) = wakes e st /\
  entries (sweeps nows st) !! e = entries st !! e.
Proof.
  induction nows as [|now nows IH]; intros st e Hun.
  { split_and!; [exact Hun|reflexivity|reflexivity]. }
  destruct (sweep_unheld now st e Hun) as (H1 & H2 & H3).
  destruct (IH _ e H1) as (H4 & H5 & H6).
  rewrite sweeps_cons.
  split_and!; [exact H4|by rewrite H5|by rewrite H6].
Qed.




(* --- the line reader ------------------------------------------------------ *)

Lemma same_but_console_refl st : same_but_console st st.
Proof. unfold same_but_console. by split_and!. Qed.

Lemma same_but_console_trans st1 st2 st3 :
  same_but_console st1 st2 -> same_but_console st2 st3 ->
  same_but_console st1 st3.
Proof.
  unfold same_but_console.
  intros (A1 & A2 & A3 & A4 & A5 & A6 & A7 & A8)
         (B1 & B2 & B3 & B4 & B5 & B6 & B7 & B8).
  rewrite B1, B2, B3, B4, B5, B6, B7, B8. by split_and!.
Qed.

Lemma same_but_console_vga_call c l st : same_but_console st (vga_call c l st).
Proof. unfold same_but_console. by split_and!. Qed.

Lemma same_but_console_erase st : same_but_console st (erase_char st).
Proof.
  unfold erase_char. destruct (2 <=? vga_get_current_loc st).
  - unfold vga_set_current_loc, vga_print_char.
    eapply same_but_console_trans; [|apply same_but_console_vga_call].
    eapply same_but_console_trans; [|apply same_but_console_vga_call].
    apply same_but_console_vga_call.
  - apply same_but_console_refl.
Qed.

Lemma read_line_loop_unfold m keys pos line st :
  read_line_loop m keys pos line st
  = if negb (pos <? wrap32 (m - 1)) then Ok (pos, line, keys, st)
    else
      match keys with
      | [] => Blocks
      | c :: ks =>
          if (c =? 10) || (c =? 13) then Ok (pos, line, ks, vga_print_newline st)
          else if c =? 8 then
            if 0 <? pos then
              read_line_loop m ks (wrap32 (pos - 1)) line (erase_char st)
            else read_line_loop m ks pos line st
          else if printable c then
            match store_at line (Z.to_nat pos) (Some c) with
            | Ok line =>
                read_line_loop m ks (wrap32 (pos + 1)) line
                  (vga_print_char c VGA_INPUT st)
            | Blocks => Blocks
            | Fault k => Fault k
            end
          else read_line_loop m ks pos line st
      end.
Proof. destruct keys; reflexivity. Qed.

Lemma line_loop_post_step m c ks st st1 res :
  c <> 10 -> c <> 13 -> same_but_console st st1 ->
  line_loop_post m ks st1 res -> line_loop_post m (c :: ks) st res.
Proof.
  intros H10 H13 Hframe. destruct res as [[[[pos line] keys'] st']| |k]; cbn.
  - intros (chars & ? & ? & ? & ? & ? & Hf & used & ->).
    exists chars. split_and!; try done.
    + by eapply same_but_console_trans.
    + by exists (c :: used).
  - intros H. by apply Forall_cons.
  - done.
Qed.

(** The loop of the line reader, from any point where the buffer holds the
    characters read so far. *)
Lemma read_line_loop_spec m keys : forall pos line st (chars : list Z),
  1 <= m <= 256 ->
  Z.of_nat (length line) = m ->
  pos = Z.of_nat (length chars) -> pos <= m - 1 ->
  take (length chars) line = Some <$> chars ->
  Forall (fun c => 0x20 <= c <= 0x7E) chars ->
  line_loop_post m keys st (read_line_loop m keys pos line st).
Proof.
  induction keys as [|c ks IH]; intros pos line st chars Hm Hlen Hpos Hle Htake Hpr;
    rewrite read_line_loop_unfold;
    rewrite (wrap32_small (m - 1)) by (change (2 ^ 32) with 4294967296; lia);
    destruct (Z.ltb_spec pos (m - 1)) as [Hlt|Hge]; cbn [negb].
  - constructor.
  - exists chars. split_and!; try done; try apply same_but_console_refl.
    by exists [].
  - destruct (Z.eqb_spec c 10) as [->|H10]; cbn [orb].
    { exists chars. split_and!; try done; try apply same_but_console_vga_call.
      by exists [10]. }
    destruct (Z.eqb_spec c 13) as [->|H13].
    { exists chars. split_and!; try done; try apply same_but_console_vga_call.
      by exists [13]. }
    destruct (Z.eqb_spec c 8) as [->|H8].
    { destruct (Z.ltb_spec 0 pos) as [Hpos0|Hpos0].
      - apply (line_loop_post_step m 8 ks st (erase_char st)); [done|done| |].
        { apply same_but_console_erase. }
        rewrite wrap32_small by (change (2 ^ 32) with 4294967296; lia).
        apply (IH _ _ _ (take (length chars - 1) chars)); try done.
        + rewrite length_take. lia.
        + lia.
        + rewrite length_take, Nat.min_l by lia.
          rewrite fmap_take, <- Htake, take_take. f_equal. lia.
        + by apply Forall_take.
      - apply (line_loop_post_step m 8 ks st st); [done|done| |].
        { apply same_but_console_refl. }
        by apply (IH _ _ _ chars). }
    unfold printable.
    destruct (Z.leb_spec 32 c) as [Hlo|Hlo]; cbn [andb].
    2:{ apply (line_loop_post_step m c ks st st); [done|done| |].
        { apply same_but_console_refl. }
        by apply (IH _ _ _ chars). }
    destruct (Z.leb_spec c 126) as [Hhi|Hhi].
    2:{ apply (line_loop_post_step m c ks st st); [done|done| |].
        { apply same_but_console_refl. }
        by apply (IH _ _ _ chars). }
    unfold store_at.
    destruct (decide (Z.to_nat pos < length line)%nat) as [Hin|Hout]; [|lia].
    apply (line_loop_post_step m c ks st (vga_print_char c VGA_INPUT st));
      [done|done|apply same_but_console_vga_call|].
    rewrite wrap32_small by (change (2 ^ 32) with 4294967296; lia).
    apply (IH _ _ _ (chars ++ [c])); try done.
    + by rewrite length_insert.
    + rewrite length_app. cbn [length]. lia.
    + lia.
    + rewrite length_app. cbn [length]. rewrite Hpos, Nat2Z.id.
      replace (length chars + 1)%nat with (S (length chars)) by lia.
      rewrite (take_S_r _ _ (Some c)).
      2:{ apply list_lookup_insert_eq. lia. }
      rewrite take_insert_ge by lia. rewrite Htake. by rewrite fmap_app.
    + apply Forall_app. split; [done|]. by apply Forall_singleton.
  - exists chars. split_and!; try done; try apply same_but_console_refl.
    by exists [].
Qed.

Lemma line_size_spec req :
  0 <= req ->
  1 <= line_size req <= 256 /\
  (req = 0 \/ 256 < req -> line_size req = 256) /\
  (1 <= req <= 256 -> line_size req = req).
Proof.
  intros Hreq. unfold line_size.
  destruct (Z.eqb_spec req 0); destruct (Z.ltb_spec 256 req); cbn [orb]; lia.
Qed.

(** The read-line case: out of memory, blocked on input without an end of
    line, or completed with a buffer that holds a NUL-terminated string of
    printable characters. *)
Lemma case_CONSOLE_READ_LINE_spec e data st :
  (kheap_free st < line_size (read_le 4 0 data) /\
   case_CONSOLE_READ_LINE e data st
   = reject e ERROR_OUT_OF_MEMORY
       "Console read line: failed to allocate buffer" st) \/
  (line_size (read_le 4 0 data) <= kheap_free st /\
   ((case_CONSOLE_READ_LINE e data st = Blocks /\ no_line_end (keyboard st)) \/
    exists a line chars st2,
      case_CONSOLE_READ_LINE e data st
      = complete e (RBuffer a) RESULT_TYPE_KMALLOC st2 /\
      deck_log st2 = deck_log st /\ entries st2 = entries st /\
      timers st2 = timers st /\
      kheap st !! a = None /\ kheap st2 !! a = Some line /\
      Z.of_nat (length line) = line_size (read_le 4 0 data) /\
      Z.of_nat (length chars) <= line_size (read_le 4 0 data) - 1 /\
      Forall (fun c => 0x20 <= c <= 0x7E) chars /\
      holds_string line chars)).
Proof.
  pose proof (read_le_range 4 0 data) as [Hreq _].
  destruct (line_size_spec _ Hreq) as (Hm & _).
  set (m := line_size (read_le 4 0 data)) in *.
  unfold case_CONSOLE_READ_LINE, kmalloc. fold m.
  destruct (Z.leb_spec m (kheap_free st)) as [Hfits|Hfull]; [right|left; by split].
  split; [done|]. st_simpl.
  set (a := fresh (dom (kheap st))).
  assert (Hfresh : kheap st !! a = None).
  { apply not_elem_of_dom. subst a. apply is_fresh. }
  rewrite lookup_insert_eq. cbn [default].
  change (id (replicate (Z.to_nat m) None)) with (replicate (Z.to_nat m) (@None Z)).
  set (st_a := set_kheap _ _ st).
  pose proof (read_line_loop_spec m (keyboard st) 0
                (replicate (Z.to_nat m) None) st_a []) as Hloop.
  destruct (read_line_loop m (keyboard st) 0 (replicate (Z.to_nat m) None) st_a)
    as [[[[pos line] keys'] st']| |k].
  - destruct Hloop as (chars & Hpos & Hle & Hlen & Htake & Hpr & Hframe & _);
      [done|rewrite length_replicate; lia|done|lia|done|done|].
    destruct Hframe as (F1 & F2 & F3 & F4 & F5 & F6 & F7 & F8).
    right. cbn [mbind Res_bind]. unfold store_at.
    destruct (decide (Z.to_nat pos < length line)%nat) as [Hin|]; [|lia].
    cbn [mbind Res_bind].
    eexists a, _, chars, _. split; [reflexivity|]. st_simpl.
    rewrite F4, F3, F1. subst st_a. st_simpl.
    split; [reflexivity|]. split; [reflexivity|]. split; [reflexivity|].
    split; [exact Hfresh|]. split; [apply lookup_insert_eq|].
    split; [rewrite length_insert; exact Hlen|]. split; [lia|].
    split; [exact Hpr|]. split.
    + rewrite take_insert_ge by lia. exact Htake.
    + rewrite Hpos, Nat2Z.id. apply list_lookup_insert_eq. lia.
  - left. split; [reflexivity|]. apply Hloop; try done.
    + rewrite length_replicate. lia.
    + lia.
  - exfalso. apply Hloop; try done.
    + rewrite length_replicate. lia.
    + lia.
Qed.

(** C10: the line reader allocates 256 bytes when the requested size is 0
    or above 256 and the requested size otherwise; it never stores outside
    the buffer, it can only block on input that has no end of line, and when
    it completes the buffer starts with at most size - 1 characters, all in
    0x20..0x7E, followed by a NUL. *)
Theorem read_line_well_formed e re now st :
  entries st !! e = Some re ->
  ev_type (event_copy re) = EVENT_CONSOLE_READ_LINE ->
  (1 <= line_size (read_le 4 0 (ev_data (event_copy re))) <= 256 /\
   (read_le 4 0 (ev_data (event_copy re)) = 0 \/
    256 < read_le 4 0 (ev_data (event_copy re)) ->
      line_size (read_le 4 0 (ev_data (event_copy re))) = 256) /\
   (1 <= read_le 4 0 (ev_data (event_copy re)) <= 256 ->
      line_size (read_le 4 0 (ev_data (event_copy re)))
      = read_le 4 0 (ev_data (event_copy re)))) /\
  (forall k, hardware_deck_process (Some e) now st <> Fault k) /\
  (hardware_deck_process (Some e) now st = Blocks -> no_line_end (keyboard st)) /\
  forall r st',
    hardware_deck_process (Some e) now st = Ok (r, st') ->
    (kheap_free st < line_size (read_le 4 0 (ev_data (event_copy re))) /\ r = 0 /\
     st' = deck_error_detailed e DECK_PREFIX_HARDWARE ERROR_OUT_OF_MEMORY
             "Console read line: failed to allocate buffer" st) \/
    (line_size (read_le 4 0 (ev_data (event_copy re))) <= kheap_free st /\ r = 1 /\
     exists a line chars,
       deck_log st'
       = deck_log st
         ++ [CallComplete e DECK_PREFIX_HARDWARE (RBuffer a) RESULT_TYPE_KMALLOC] /\
       kheap st !! a = None /\ kheap st' !! a = Some line /\
       Z.of_nat (length line)
       = line_size (read_le 4 0 (ev_data (event_copy re))) /\
       Z.of_nat (length chars)
       <= line_size (read_le 4 0 (ev_data (event_copy re))) - 1 /\
       Forall (fun c => 0x20 <= c <= 0x7E) chars /\
       holds_string line chars).
Proof.
  intros He Hty.
  destruct (process_dispatch e re now st He) as (_&_&_&_&_&_&_&_&_&_& Hd &_).
  rewrite (Hd Hty). clear Hd.
  pose proof (read_le_range 4 0 (ev_data (event_copy re))) as [Hreq _].
  split; [by apply line_size_spec|].
  destruct (case_CONSOLE_READ_LINE_spec e (ev_data (event_copy re)) st)
    as [[Hfull ->]|[Hfits [[-> Hnl]|(a & line & chars & st2 & -> & Hlog & Hent &
                                      _ & Hfresh & Hheap & Hlen & Hn & Hpr & Hstr)]]].
  - split_and!; [done|done|]. intros r st' [= <- <-]. left. by split_and!.
  - split_and!; [done|done|]. intros r st' [=].
  - split_and!; [done|done|]. intros r st' [= <- <-]. right.
    split_and!; [done|done|]. exists a, line, chars. st_simpl.
    rewrite Hlog. by split_and!.
Qed.

(** "hi", a backspace, "!", an ignored control character and Enter give the
    string "h!" in a 256-byte buffer. *)
Lemma read_line_well_formed_witness :
  hardware_deck_process (Some 0%nat) 0 read_line_scenario = Ok (1, read_line_done) /\
  kheap read_line_done !! 0%nat
    = Some ([Some 104; Some 33; Some 0] ++ replicate 253 None) /\
  exists a line chars,
    kheap read_line_done !! a = Some line /\
    Z.of_nat (length line) = 256 /\
    Forall (fun c => 0x20 <= c <= 0x7E) chars /\
    holds_string line chars.
Proof.
  assert (Hrun : hardware_deck_process (Some 0%nat) 0 read_line_scenario
                 = Ok (1, read_line_done)) by (vm_compute; reflexivity).
  split; [exact Hrun|]. split; [vm_compute; reflexivity|].
  destruct (read_line_well_formed 0
              (mkRoutingEntry (event_of EVENT_CONSOLE_READ_LINE (le_bytes 4 0))
                 EVENT_STATUS_PROCESSING 1)
              0 read_line_scenario) as (_ & _ & _ & Hok).
  - vm_compute. reflexivity.
  - reflexivity.
  - destruct (Hok 1 read_line_done Hrun)
      as [(Hfull & _)|(_ & _ & a & line & chars & _ & _ & Hheap & Hlen & _ & Hpr & Hstr)].
    + vm_compute in Hfull. discriminate Hfull.
    + exists a, line, chars. split; [exact Hheap|]. split; [exact Hlen|].
      split; [exact Hpr|exact Hstr].
Defined.

(* --- the deck contract ----------------------------------------------------- *)




Lemma console_write_loop_frame attr n : forall str st,
  same_but_console st (console_write_loop attr str n st).
Proof.
  induction n as [|n IH]; intros str st; simpl.
  - apply same_but_console_refl.
  - destruct str as [|c r]; [apply same_but_console_refl|].
    destruct (c =? 0); [apply same_but_console_refl|].
    eapply same_but_console_trans; [|apply IH].
    unfold console_putc. destruct (c =? 10); apply same_but_console_vga_call.
Qed.











(* --- a rejected operation leaves everything else as it was --------------- *)

Lemma timer_create_none now delay_ms interval_ms entry st s' :
  timer_create now delay_ms interval_ms entry st = (None, s') -> s' = st.
Proof.
  unfold timer_create.
  destruct (list_find is_free (take MAX_TIMERS (timers st))) as [[i old]|];
    [discriminate|]. by intros [= <-].
Qed.

Lemma timer_cancel_cases timer_id st success s' :
  timer_cancel timer_id st = (success, s') ->
  success = 1 \/ (success = 0 /\ s' = st).
Proof.
  unfold timer_cancel.
  destruct (list_find (has_id timer_id) (take MAX_TIMERS (timers st)))
    as [[i old]|]; intros [= <- <-]; [by left|by right].
Qed.








(* --- timer ids ------------------------------------------------------------ *)

Lemma read_line_loop_frame m keys : forall pos line st pos' line' keys' st',
  read_line_loop m keys pos line st = Ok (pos', line', keys', st') ->
  same_but_console st st'.
Proof.
  induction keys as [|c ks IH]; intros pos line st pos' line' keys' st';
    rewrite read_line_loop_unfold.
  - destruct (negb _); [|discriminate]. intros [= _ _ _ <-].
    apply same_but_console_refl.
  - destruct (negb _).
    { intros [= _ _ _ <-]. apply same_but_console_refl. }
    destruct (_ || _).
    { intros [= _ _ _ <-]. apply same_but_console_vga_call. }
    destruct (c =? 8).
    { destruct (0 <? pos); intros Hrun; apply IH in Hrun; [|done].
      eapply same_but_console_trans; [apply same_but_console_erase|done]. }
    destruct (printable c); [|by apply IH].
    destruct (store_at _ _ _); try discriminate.
    intros Hrun. apply IH in Hrun.
    eapply same_but_console_trans; [apply same_but_console_vga_call|done].
Qed.

Lemma steps_timers_reject e st code msg : steps_timers st (reject e code msg st).
Proof. intros r st' [= _ <-]. left. by split. Qed.

Lemma steps_timers_complete e st st2 result rtype :
  timers_step st st2 -> steps_timers st (complete e result rtype st2).
Proof. intros H r st' [= _ <-]. exact H. Qed.

Lemma timers_step_console st st2 : same_but_console st st2 -> timers_step st st2.
Proof. intros (H1 & H2 & _). left. by split. Qed.

Lemma timer_create_step now delay_ms interval_ms entry st i s' :
  timer_create now delay_ms interval_ms entry st = (Some i, s') ->
  timers_step st s' /\ entries s' = entries st /\ deck_log s' = deck_log st.
Proof.
  unfold timer_create, atomic_increment_u64.
  destruct (list_find is_free (take MAX_TIMERS (timers st))) as [[k old]|] eqn:Hf;
    [|discriminate].
  intros [= <- <-]. apply list_find_Some in Hf as (Hk & Hfree & _).
  apply lookup_take_Some in Hk as [Hk _].
  split_and!; [|reflexivity|reflexivity].
  right. left. eexists k, old, _. split_and!; [exact Hk|exact Hfree| | |];
    reflexivity.
Qed.

Lemma timer_cancel_step timer_id st success s' :
  timer_cancel timer_id st = (success, s') -> timers_step st s'.
Proof.
  unfold timer_cancel.
  destruct (list_find (has_id timer_id) (take MAX_TIMERS (timers st)))
    as [[i old]|]; intros [= <- <-].
  - right. right. exists i. by split.
  - left. by split.
Qed.

Ltac timers_cases :=
  repeat first
    [ apply steps_timers_reject
    | apply steps_timers_complete; left; split; reflexivity
    | match goal with
      | |- steps_timers _ (if ?b then _ else _) => destruct b
      end ].

Lemma process_timers_step e now st r st' :
  hardware_deck_process (Some e) now st = Ok (r, st') -> timers_step st st'.
Proof.
  revert r st'. change (steps_timers st (hardware_deck_process (Some e) now st)).
  unfold hardware_deck_process.
  destruct (entries st !! e) as [re|]; [|intros r st'; discriminate].
  unfold case_TIMER_CREATE, case_TIMER_CANCEL, case_TIMER_SLEEP,
    case_TIMER_GETTICKS, case_DEV_OPEN, case_DEV_IOCTL, case_DEV_READ,
    case_DEV_WRITE, case_CONSOLE_WRITE, case_CONSOLE_WRITE_ATTR,
    case_CONSOLE_READ_CHAR, case_CONSOLE_CLEAR, case_CONSOLE_SET_POS,
    case_CONSOLE_GET_POS.
  timers_cases.
  - destruct (timer_create _ _ _ _ _) as [[i|] s'] eqn:Htc.
    + apply steps_timers_complete. by apply timer_create_step in Htc as [? _].
    + apply timer_create_none in Htc as ->. timers_cases.
  - destruct (timer_cancel _ _) as [success s'] eqn:Htc.
    pose proof (timer_cancel_step _ _ _ _ Htc) as Hstep.
    apply timer_cancel_cases in Htc as [->|[-> ->]]; cbn [Z.eqb negb].
    + by apply steps_timers_complete.
    + timers_cases.
  - destruct (timer_create _ _ _ _ _) as [[i|] s'] eqn:Htc.
    + intros r st' [= _ <-]. by apply timer_create_step in Htc as [? _].
    + apply timer_create_none in Htc as ->. timers_cases.
  - apply steps_timers_complete. apply timers_step_console. st_simpl.
    eapply same_but_console_trans;
      [apply console_write_loop_frame|apply same_but_console_vga_call].
  - apply steps_timers_complete. apply timers_step_console. st_simpl.
    eapply same_but_console_trans;
      [apply console_write_loop_frame|apply same_but_console_vga_call].
  - unfold case_CONSOLE_READ_LINE, kmalloc.
    destruct (_ <=? kheap_free st); [|timers_cases].
    intros r st' Hrun.
    destruct (read_line_loop _ _ _ _ _) as [[[[pos line] keys] s2]| |] eqn:Hloop;
      cbn [mbind Res_bind] in Hrun; try discriminate.
    destruct (store_at _ _ _); cbn [mbind Res_bind] in Hrun; try discriminate.
    injection Hrun as _ <-.
    apply read_line_loop_frame in Hloop as (H1 & H2 & _).
    left. st_simpl. by split.
  - destruct (keyboard_getchar st) as [c s'] eqn:Hk. apply steps_timers_complete.
    left. unfold keyboard_getchar in Hk.
    destruct (keyboard st); injection Hk as _ <-; by split.
Qed.

Lemma timers_step_ids st st' :
  timers_step st st' ->
  ids_distinct st -> ids_bounded st ->
  0 <= next_timer_id st -> next_timer_id st + 1 < 2 ^ 64 ->
  ids_distinct st' /\ ids_bounded st' /\
  next_timer_id st <= next_timer_id st' <= next_timer_id st + 1.
Proof.
  intros Hstep Hd Hb Hn0 Hn.
  destruct Hstep as [[Ht Hn']|[(i & old & t & Hold & Hfree & Ht & Hid & Hn')
                              |(i & Ht & Hn')]].
  - unfold ids_distinct, ids_bounded. rewrite Ht, Hn'. split_and!; [done|done|lia|lia].
  - rewrite wrap64_small in Hid, Hn' by lia.
    assert (Hold_id : forall j tj, j <> i -> <[i := t]> (timers st) !! j = Some tj ->
                        t_active tj = true -> t_id tj <= next_timer_id st).
    { intros j tj Hne Hj Ha. rewrite list_lookup_insert_ne in Hj by done.
      by eapply Hb. }
    split_and!; [| |lia|lia].
    + intros a b ta tb Ha Hb' Aa Ab Hab. rewrite Ht in Ha, Hb'.
      destruct (decide (a = i)) as [->|Hai], (decide (b = i)) as [->|Hbi]; [done| | |].
      * apply list_lookup_insert_Some in Ha as [(_ & <- & _)|[? _]]; [|done].
        specialize (Hold_id b tb Hbi Hb' Ab). lia.
      * apply list_lookup_insert_Some in Hb' as [(_ & <- & _)|[? _]]; [|done].
        specialize (Hold_id a ta Hai Ha Aa). lia.
      * rewrite list_lookup_insert_ne in Ha, Hb' by done. by eapply Hd.
    + intros a ta Ha Aa. rewrite Ht in Ha. rewrite Hn'.
      destruct (decide (a = i)) as [->|Hai].
      * apply list_lookup_insert_Some in Ha as [(_ & <- & _)|[? _]]; [lia|done].
      * specialize (Hold_id a ta Hai Ha Aa). lia.
  - assert (Hlk : forall a ta, alter deactivate i (timers st) !! a = Some ta ->
                    t_active ta = true -> timers st !! a = Some ta).
    { intros a ta Ha Aa. destruct (decide (a = i)) as [->|Hai].
      - rewrite list_lookup_alter_eq in Ha.
        destruct (timers st !! i) as [x|]; [|discriminate].
        cbn [fmap option_fmap option_map] in Ha. injection Ha as <-.
        discriminate Aa.
      - by rewrite list_lookup_alter_ne in Ha. }
    split_and!; [| |lia|lia].
    + intros a b ta tb Ha Hb' Aa Ab Hab. rewrite Ht in Ha, Hb'.
      eapply Hd; eauto.
    + intros a ta Ha Aa. rewrite Ht in Ha. rewrite Hn'. eapply Hb; eauto.
Qed.

Lemma check_slot_ids now st k :
  ids_distinct st /\ ids_bounded st ->
  (ids_distinct (check_slot now st k) /\ ids_bounded (check_slot now st k)) /\
  next_timer_id (check_slot now st k) = next_timer_id st.
Proof.
  intros [Hd Hb].
  assert (Hn : next_timer_id (check_slot now st k) = next_timer_id st).
  { unfold check_slot. destruct (timers st !! k) as [t|]; [|done].
    destruct (_ && _); [|done].
    destruct (t_suspended_entry t), (0 <? t_interval t); reflexivity. }
  split; [|exact Hn].
  destruct (check_slot_effect now st k) as [->|(t & Hk & Hact & _ & Ht & _)];
    [done|].
  assert (Hlk : forall a ta, <[k := fire_timer now t]> (timers st) !! a = Some ta ->
                  t_active ta = true ->
                  exists ta', timers st !! a = Some ta' /\ t_active ta' = true /\
                              t_id ta' = t_id ta).
  { intros a ta Ha Aa. destruct (decide (a = k)) as [->|Hak].
    - apply list_lookup_insert_Some in Ha as [(_ & <- & _)|[? _]]; [|done].
      destruct (fire_timer_fields now t) as (_ & Hid & _). by exists t.
    - rewrite list_lookup_insert_ne in Ha by done. by exists ta. }
  split.
  - intros a b ta tb Ha Hb' Aa Ab Hab. rewrite Ht in Ha, Hb'.
    destruct (Hlk a ta Ha Aa) as (ta' & Ha' & Aa' & Ia).
    destruct (Hlk b tb Hb' Ab) as (tb' & Hb'' & Ab' & Ib).
    eapply Hd; eauto. congruence.
  - intros a ta Ha Aa. rewrite Ht in Ha. rewrite Hn.
    destruct (Hlk a ta Ha Aa) as (ta' & Ha' & Aa' & Ia). rewrite <- Ia.
    by eapply Hb.
Qed.

Lemma sweep_ids now st :
  ids_distinct st -> ids_bounded st ->
  ids_distinct (timer_check_expired now st) /\
  ids_bounded (timer_check_expired now st) /\
  next_timer_id (timer_check_expired now st) = next_timer_id st.
Proof.
  intros Hd Hb. unfold timer_check_expired.
  apply (foldl_invariant
           (fun s => ids_distinct s /\ ids_bounded s /\
                     next_timer_id s = next_timer_id st)).
  - intros s k _ (Hd' & Hb' & Hn').
    destruct (check_slot_ids now s k (conj Hd' Hb')) as [[? ?] Hn].
    split_and!; [done|done|congruence].
  - by split_and!.
Qed.

Lemma timer_cancel_clears timer_id st :
  ids_distinct st ->
  Forall (fun t => ~ has_id timer_id t)
    (take MAX_TIMERS (timers (timer_cancel timer_id st).2)).
Proof.
  intros Hd. unfold timer_cancel.
  destruct (list_find (has_id timer_id) (take MAX_TIMERS (timers st)))
    as [[i old]|] eqn:Hf; cbn [snd].
  - apply list_find_Some in Hf as (Hi & [Hact Hid] & _).
    apply lookup_take_Some in Hi as [Hi Hlt].
    apply Forall_lookup. intros j t Hj [Aj Ij].
    apply lookup_take_Some in Hj as [Hj _]. st_simpl.
    destruct (decide (j = i)) as [->|Hji].
    + rewrite list_lookup_alter_eq, Hi in Hj.
      cbn [fmap option_fmap option_map] in Hj. injection Hj as <-.
      discriminate Aj.
    + rewrite list_lookup_alter_ne in Hj by done.
      apply Hji. eapply Hd; eauto. congruence.
  - by apply list_find_None in Hf.
Qed.

Lemma deck_step_ids op st s1 :
  deck_step op st = Ok s1 ->
  ids_distinct st -> ids_bounded st ->
  0 <= next_timer_id st -> next_timer_id st + 1 < 2 ^ 64 ->
  ids_distinct s1 /\ ids_bounded s1 /\
  next_timer_id st <= next_timer_id s1 <= next_timer_id st + 1.
Proof.
  intros Hs Hd Hb Hn0 Hn. destruct op as [e now|now|e ev]; cbn [deck_step] in Hs.
  - destruct (hardware_deck_process (Some e) now st) as [[r s2]| |] eqn:Hp;
      try discriminate.
    injection Hs as <-. apply process_timers_step in Hp.
    by apply timers_step_ids.
  - injection Hs as <-. destruct (sweep_ids now st Hd Hb) as (Hd1 & Hb1 & Hn1).
    split; [exact Hd1|split; [exact Hb1|]]. rewrite Hn1. lia.
  - injection Hs as <-. split; [exact Hd|split; [exact Hb|]].
    cbn [next_timer_id with_entry set_entries]. lia.
Qed.

(** X7: timer ids stay unique.  Along every run of submissions, callback
    calls and sweeps in which the 64-bit id counter does not wrap, any two
    active timers carry different ids, none above the counter; so after a
    cancel by id no active timer with that id is left in the table. *)
Theorem timer_ids_stay_distinct ops : forall st st',
  ids_distinct st -> ids_bounded st ->
  0 <= next_timer_id st ->
  next_timer_id st + Z.of_nat (length ops) < 2 ^ 64 ->
  deck_run ops st = Ok st' ->
  ids_distinct st' /\ ids_bounded st' /\
  forall timer_id,
    Forall (fun t => ~ has_id timer_id t)
      (take MAX_TIMERS (timers (timer_cancel timer_id st').2)).
Proof.
  assert (Hmain : forall st st',
             ids_distinct st -> ids_bounded st -> 0 <= next_timer_id st ->
             next_timer_id st + Z.of_nat (length ops) < 2 ^ 64 ->
             deck_run ops st = Ok st' -> ids_distinct st' /\ ids_bounded st').
  { induction ops as [|op ops IH]; intros st st' Hd Hb Hn0 Hn Hrun.
    { injection Hrun as <-. by split. }
    rewrite length_cons in Hn. cbn [deck_run] in Hrun.
    destruct (deck_step op st) as [s1| |] eqn:Hs; try discriminate.
    assert (Hlt : next_timer_id st + 1 < 2 ^ 64) by lia.
    destruct (deck_step_ids op st s1 Hs Hd Hb Hn0 Hlt) as (Hd1 & Hb1 & Hn1).
    apply (IH s1 st'); [exact Hd1|exact Hb1|lia|lia|exact Hrun]. }
  intros st st' Hd Hb Hn0 Hn Hrun.
  destruct (Hmain st st' Hd Hb Hn0 Hn Hrun) as [Hd' Hb'].
  split; [exact Hd'|split; [exact Hb'|]].
  intros timer_id. apply timer_cancel_clears. exact Hd'.
Qed.

Lemma timer_ids_stay_distinct_witness :
  ids_distinct timers_scenario_done /\ ids_bounded timers_scenario_done /\
  forall timer_id,
    Forall (fun t => ~ has_id timer_id t)
      (take MAX_TIMERS (timers (timer_cancel timer_id timers_scenario_done).2)).
Proof.
  apply (timer_ids_stay_distinct timers_scenario idle_state).
  - intros i j ti tj Hi _ Hact _ _. apply lookup_replicate in Hi as [-> _].
    discriminate Hact.
  - intros i t Hi Hact. apply lookup_replicate in Hi as [-> _]. discriminate Hact.
  - vm_compute. discriminate.
  - vm_compute. reflexivity.
  - vm_compute. reflexivity.
Defined.

(* --- creating a timer ----------------------------------------------------- *)

(** X8: a valid EVENT_TIMER_CREATE (delay 1..3600000 ms, interval at most
    3600000 ms) takes the first free slot of the table: the slot gets the
    next id, the deadline now + delay * 2400000, the interval in ticks, no
    owner and no linked entry, and the entry is completed with the address
    of the slot (not the timer id) as a static result.  With all 64 slots
    active the request fails with the slots-full error. *)
Theorem timer_create_request e re now st :
  entries st !! e = Some re ->
  ev_type (event_copy re) = EVENT_TIMER_CREATE ->
  1 <= read_le 8 0 (ev_data (event_copy re)) <= 3600000 ->
  read_le 8 8 (ev_data (event_copy re)) <= 3600000 ->
  (Forall (fun t => t_active t = true) (take MAX_TIMERS (timers st)) ->
     hardware_deck_process (Some e) now st
     = Ok (0, deck_error_detailed e DECK_PREFIX_HARDWARE ERROR_HW_TIMER_SLOTS_FULL
                "Timer create: no free timer slots" st)) /\
  (forall i old,
     timers st !! i = Some old -> (i < MAX_TIMERS)%nat -> t_active old = false ->
     (forall j t, (j < i)%nat -> timers st !! j = Some t -> t_active t = true) ->
     exists st',
       hardware_deck_process (Some e) now st = Ok (1, st') /\
       timers st'
       = <[i := mkTimer (wrap64 (next_timer_id st + 1)) 0
                  (wrap64 (now + read_le 8 0 (ev_data (event_copy re)) * 2400000))
                  (read_le 8 8 (ev_data (event_copy re)) * 2400000)
                  (t_event_id old) None true]> (timers st) /\
       next_timer_id st' = wrap64 (next_timer_id st + 1) /\
       deck_log st'
       = deck_log st
         ++ [CallComplete e DECK_PREFIX_HARDWARE (RTimer i) RESULT_TYPE_STATIC] /\
       entry_state e st' = Some EVENT_STATUS_COMPLETED).
Proof.
  intros He Hty Hdelay Hint.
  destruct (process_dispatch e re now st He) as (Hcase & _).
  rewrite (Hcase Hty). clear Hcase. unfold case_TIMER_CREATE.
  pose proof (read_le_range 8 8 (ev_data (event_copy re))) as Hr.
  set (delay := read_le 8 0 (ev_data (event_copy re))) in *.
  set (interval := read_le 8 8 (ev_data (event_copy re))) in *.
  destruct (Z.eqb_spec delay 0); [lia|].
  destruct (Z.ltb_spec 3600000 delay); [lia|].
  destruct (Z.ltb_spec 3600000 interval); [lia|].
  assert (Hwd : wrap64 (delay * 2400000) = delay * 2400000).
  { apply wrap64_small. change (2 ^ 64) with 18446744073709551616. lia. }
  assert (Hwi : wrap64 (interval * 2400000) = interval * 2400000).
  { apply wrap64_small. change (2 ^ 64) with 18446744073709551616. lia. }
  unfold timer_create, atomic_increment_u64. split.
  - intros Hfull.
    rewrite (proj2 (list_find_None is_free (take MAX_TIMERS (timers st)))).
    + reflexivity.
    + eapply Forall_impl; [exact Hfull|]. unfold is_free. intros t Ht. congruence.
  - intros i old Hi Hlt Hfree Hbefore.
    assert (Hfind : list_find is_free (take MAX_TIMERS (timers st)) = Some (i, old)).
    { apply list_find_Some. split_and!.
      - by apply lookup_take_Some.
      - exact Hfree.
      - intros j y Hj Hji. apply lookup_take_Some in Hj as [Hj _].
        unfold is_free. rewrite (Hbefore j y Hji Hj). discriminate. }
    rewrite Hfind. st_simpl. rewrite Hwd, Hwi.
    eexists. split_and!; [reflexivity|reflexivity|reflexivity|reflexivity|].
    apply entry_state_deck_complete. st_simpl. by rewrite He.
Qed.

Lemma timer_create_request_witness :
  exists st',
    hardware_deck_process (Some 0%nat) 1000 create_request = Ok (1, st') /\
    timers st'
    = <[0%nat := mkTimer 2 0 24001000 12000000 0 None true]> (timers create_request) /\
    deck_log st' = [CallComplete 0 DECK_PREFIX_HARDWARE (RTimer 0) RESULT_TYPE_STATIC].
Proof.
  assert (He : entries create_request !! 0%nat
               = Some (mkRoutingEntry
                         (event_of EVENT_TIMER_CREATE (le_bytes 8 10 ++ le_bytes 8 5))
                         EVENT_STATUS_PROCESSING 1))
    by (vm_compute; reflexivity).
  destruct (timer_create_request 0 _ 1000 create_request He eq_refl) as [_ Hfree].
  - vm_compute. split; discriminate.
  - vm_compute. discriminate.
  - destruct (Hfree 0%nat idle_timer) as (st' & Hrun & Ht & _ & Hlog & _).
    + reflexivity.
    + unfold MAX_TIMERS. lia.
    + reflexivity.
    + intros j t Hj. lia.
    + exists st'. split_and!; [exact Hrun|exact Ht|exact Hlog].
Defined.

(* --- sweeps that fire nothing --------------------------------------------- *)

Lemma sweep_nothing_due now st :
  (forall i t, (i < MAX_TIMERS)%nat -> timers st !! i = Some t ->
               t_active t = true -> now < t_expiration t) ->
  timer_check_expired now st = st.
Proof.
  intros Hnone. unfold timer_check_expired.
  apply (foldl_invariant (fun s => s = st)); [|reflexivity].
  intros s k Hk ->. apply elem_of_seq in Hk.
  destruct (check_slot_effect now st k) as [H|(t & Hl & Hact & Hdue & _)];
    [exact H|].
  specialize (Hnone k t ltac:(lia) Hl Hact). lia.
Qed.



(** X10: a sweep fires nothing before a deadline.  If every active timer
    among the 64 slots is due later than each clock reading of a run of
    sweeps, the run leaves the whole state (timers, entries, calls made) as
    it was. *)
Theorem sweeps_before_deadlines nows : forall st,
  (forall i t, (i < MAX_TIMERS)%nat -> timers st !! i = Some t ->
               t_active t = true ->
               Forall (fun now => now < t_expiration t) nows) ->
  sweeps nows st = st.
Proof.
  induction nows as [|now nows IH]; intros st Hlate.
  { apply sweeps_nil. }
  rewrite sweeps_cons.
  assert (Hstep : timer_check_expired now st = st).
  { apply sweep_nothing_due. intros i t Hi Hl Hact.
    specialize (Hlate i t Hi Hl Hact). by inversion Hlate. }
  rewrite Hstep. apply IH. intros i t Hi Hl Hact.
  specialize (Hlate i t Hi Hl Hact). by inversion Hlate.
Qed.

Lemma sweeps_before_deadlines_witness :
  sweeps [1000; 2000; 119999999] sleep_scenario = sleep_scenario.
Proof.
  apply (sweeps_before_deadlines [1000; 2000; 119999999] sleep_scenario).
  intros i t Hi Hl Hact.
  destruct (decide (i = 2%nat)) as [->|Hne].
  - vm_compute in Hl. injection Hl as <-.
    repeat constructor.
  - unfold sleep_scenario in Hl. st_simpl. unfold idle_state in Hl. st_simpl.
    rewrite list_lookup_insert_ne in Hl by done.
    apply lookup_replicate in Hl as [-> _]. discriminate Hact.
Defined.

(* --- a cancelled sleep ---------------------------------------------------- *)

(** X11: cancelling the timer of a sleeping entry strands the entry.  When a
    cancel request names the id of the one active timer that holds a
    suspended entry, the request is completed, and from then on no sweep, at
    whatever clock readings, ever reports on the sleeping entry or changes
    it: it is left as it was, with no timer holding it. *)
Theorem cancelled_sleeper_is_stranded e e2 re2 now st i t nows :
  entries st !! e2 = Some re2 ->
  ev_type (event_copy re2) = EVENT_TIMER_CANCEL ->
  read_le 8 0 (ev_data (event_copy re2)) = t_id t ->
  t_id t <> 0 ->
  e <> e2 ->
  (i < MAX_TIMERS)%nat -> timers st !! i = Some t -> holds e t ->
  (forall j t', j <> i -> timers st !! j = Some t' ->
                ~ holds e t' /\ ~ has_id (t_id t) t') ->
  exists st1,
    hardware_deck_process (Some e2) now st = Ok (1, st1) /\
    timers st1 !! i = Some (deactivate t) /\
    entries st1 !! e = entries st !! e /\
    wakes e (sweeps nows st1) = wakes e st /\
    entries (sweeps nows st1) !! e = entries st !! e /\
    unheld e (sweeps nows st1).
Proof.
  intros He2 Hty Hid Hnz Hne Hi Hl [Hact Hlink] Hothers.
  destruct (process_dispatch e2 re2 now st He2) as (_ & Hcase & _).
  rewrite (Hcase Hty). clear Hcase. unfold case_TIMER_CANCEL. rewrite Hid.
  destruct (Z.eqb_spec (t_id t) 0); [done|].
  destruct (timer_cancel_spec (t_id t) st) as [Hfound _].
  rewrite (Hfound i t).
  2:{ by apply lookup_take_Some. }
  2:{ by split. }
  2:{ intros j t' Hj Hji. apply lookup_take_Some in Hj as [Hj _].
      apply (Hothers j t'); [lia|done]. }
  cbn [Z.eqb negb]. unfold complete.
  set (st1 := deck_complete e2 DECK_PREFIX_HARDWARE RNull RESULT_TYPE_NONE
                (set_timers (alter deactivate i) st)).
  assert (Hts : timers st1 = alter deactivate i (timers st)) by reflexivity.
  assert (Hun : unheld e st1).
  { apply unheld_lookup. intros j t' Hj [Hact' Hlink']. rewrite Hts in Hj.
    destruct (decide (j = i)) as [->|Hji].
    - rewrite list_lookup_alter_eq, Hl in Hj.
      cbn [fmap option_fmap option_map] in Hj. injection Hj as <-.
      discriminate Hact'.
    - rewrite list_lookup_alter_ne in Hj by done.
      destruct (Hothers j t' Hji Hj) as [Hnh _]. apply Hnh. by split. }
  assert (Hent : entries st1 !! e = entries st !! e).
  { subst st1. st_simpl. unfold set_entries. cbn [entries].
    by rewrite lookup_alter_ne. }
  assert (Hw : wakes e st1 = wakes e st).
  { rewrite (wakes_app e st st1
               [CallComplete e2 DECK_PREFIX_HARDWARE RNull RESULT_TYPE_NONE])
      by reflexivity.
    cbn [filter list_filter is_wake].
    rewrite bool_decide_eq_false_2 by done. cbn [andb].
    destruct (decide (false = true)); [discriminate|]. cbn [length]. lia. }
  destruct (sweeps_unheld nows st1 e Hun) as (H1 & H2 & H3).
  exists st1. split_and!.
  - reflexivity.
  - by rewrite Hts, list_lookup_alter_eq, Hl.
  - exact Hent.
  - by rewrite H2.
  - by rewrite H3.
  - exact H1.
Qed.

Lemma cancelled_sleeper_is_stranded_witness :
  exists st1,
    hardware_deck_process (Some 0%nat) 0 cancel_scenario = Ok (1, st1) /\
    timers st1 !! 2%nat = Some (deactivate sleeper_timer) /\
    entries st1 !! 1%nat = entries cancel_scenario !! 1%nat /\
    wakes 1 (sweeps [120000000; 240000000] st1) = wakes 1 cancel_scenario /\
    entries (sweeps [120000000; 240000000] st1) !! 1%nat
    = entries cancel_scenario !! 1%nat /\
    unheld 1 (sweeps [120000000; 240000000] st1).
Proof.
  assert (He : entries cancel_scenario !! 0%nat
               = Some (mkRoutingEntry (event_of EVENT_TIMER_CANCEL (le_bytes 8 5))
                         EVENT_STATUS_PROCESSING 1))
    by (vm_compute; reflexivity).
  apply (cancelled_sleeper_is_stranded 1 0 _ 0 cancel_scenario 2 sleeper_timer
           [120000000; 240000000] He).
  - reflexivity.
  - vm_compute. reflexivity.
  - vm_compute. discriminate.
  - lia.
  - unfold MAX_TIMERS. lia.
  - vm_compute. reflexivity.
  - split; reflexivity.
  - intros j t' Hj Hl.
    unfold cancel_scenario, with_entry, idle_state in Hl. st_simpl.
    rewrite list_lookup_insert_ne in Hl by done.
    apply lookup_replicate in Hl as [-> _].
    split; intros [Hact _]; discriminate Hact.
Defined.

(* --- console writes: what is printed -------------------------------------- *)

Lemma strlen_app_nul chars rest :
  Forall (fun c => c <> 0) chars -> strlen (chars ++ 0 :: rest) = length chars.
Proof.
  induction 1 as [|c chars Hc _ IH]; [reflexivity|].
  cbn [app strlen length]. destruct (Z.eqb_spec c 0); [done|]. by rewrite IH.
Qed.

(** The loop prints the characters before the first NUL, and at most [n]. *)
Lemma console_write_loop_log attr n : forall str st,
  vga_log (console_write_loop attr str n st)
  = vga_log st ++ (console_call attr <$> take (Nat.min n (strlen str)) str).
Proof.
  induction n as [|n IH]; intros str st.
  { cbn [console_write_loop Nat.min take fmap list_fmap]. by rewrite app_nil_r. }
  destruct str as [|c r]; cbn [console_write_loop strlen].
  { rewrite take_nil. cbn [fmap list_fmap]. by rewrite app_nil_r. }
  destruct (Z.eqb_spec c 0) as [|Hc].
  { rewrite Nat.min_0_r. cbn [take fmap list_fmap]. by rewrite app_nil_r. }
  rewrite IH. cbn [Nat.min take]. rewrite fmap_cons.
  rewrite (cons_middle _ (vga_log st)), app_assoc. f_equal.
  unfold console_putc, console_call. destruct (c =? 10); reflexivity.
Qed.

(** X12: a console write stops at a NUL inside the announced length but
    still reports the announced length.  With a payload of a 4-byte size,
    then characters free of NUL, then a NUL, where the size (at most 220)
    is larger than the number of those characters, the deck prints exactly
    the characters before the NUL and completes the entry with the size as
    its result value. *)
Theorem console_write_stops_at_nul e re now st (size : Z) (chars rest : list Z) :
  entries st !! e = Some re ->
  ev_type (event_copy re) = EVENT_CONSOLE_WRITE ->
  ev_data (event_copy re) = le_bytes 4 size ++ chars ++ 0 :: rest ->
  Forall (fun c => c <> 0) chars ->
  Z.of_nat (length chars) < size <= EVENT_DATA_SIZE - 4 ->
  exists st',
    hardware_deck_process (Some e) now st = Ok (1, st') /\
    vga_log st'
      = vga_log st ++ (console_call VGA_DEFAULT <$> chars) ++ [VgaUpdateCursor] /\
    deck_log st'
      = deck_log st
        ++ [CallComplete e DECK_PREFIX_HARDWARE (RValue size) RESULT_TYPE_VALUE] /\
    entry_state e st' = Some EVENT_STATUS_COMPLETED.
Proof.
  unfold EVENT_DATA_SIZE. intros He Hty Hdata Hnz Hn.
  destruct (process_dispatch e re now st He) as (_&_&_&_&_&_&_&_& Hd &_).
  rewrite (Hd Hty). clear Hd. unfold case_CONSOLE_WRITE, EVENT_DATA_SIZE.
  rewrite Hdata.
  rewrite read_le_le_bytes by (change (2 ^ (8 * Z.of_nat 4)) with 4294967296; lia).
  rewrite (drop_app_length' (le_bytes 4 _)) by (by rewrite le_bytes_length).
  destruct (Z.eqb_spec size 0) as [|_]; [lia|].
  destruct (224 - 4 <? size) eqn:E; [lia|]. cbn [orb].
  pose proof (console_write_loop_log VGA_DEFAULT (Z.to_nat size)
                (chars ++ 0 :: rest) st) as Hlog.
  rewrite strlen_app_nul, Nat.min_r, take_app_length in Hlog by (done || lia).
  destruct (console_write_loop_frame VGA_DEFAULT (Z.to_nat size)
              (chars ++ 0 :: rest) st) as (H1 & H2 & H3 & H4 & H5 & H6 & H7 & H8).
  eexists. split; [reflexivity|]. st_simpl.
  rewrite Hlog, H4.
  split_and!.
  - by rewrite <- app_assoc.
  - reflexivity.
  - apply entry_state_deck_complete. st_simpl. rewrite H3, He. eauto.
Qed.

Lemma console_write_stops_at_nul_witness :
  exists st',
    hardware_deck_process (Some 0%nat) 0 write_nul_request = Ok (1, st') /\
    vga_log st' = [VgaPrintChar 104 VGA_DEFAULT; VgaPrintChar 105 VGA_DEFAULT;
                   VgaUpdateCursor] /\
    deck_log st' = [CallComplete 0 DECK_PREFIX_HARDWARE (RValue 5) RESULT_TYPE_VALUE].
Proof.
  assert (He : entries write_nul_request !! 0%nat
               = Some (mkRoutingEntry
                         (event_of EVENT_CONSOLE_WRITE
                            (le_bytes 4 5 ++ [104; 105; 0; 121; 111]))
                         EVENT_STATUS_PROCESSING 1))
    by (vm_compute; reflexivity).
  destruct (console_write_stops_at_nul 0 _ 0 write_nul_request 5 [104; 105]
              ([121; 111] ++ replicate 215 0) He eq_refl)
    as (st' & Hrun & Hvga & Hlog & _).
  - vm_compute. reflexivity.
  - repeat constructor; discriminate.
  - vm_compute. split; [reflexivity|discriminate].
  - exists st'. split_and!; [exact Hrun|exact Hvga|exact Hlog].
Defined.

(** X13: a console write with attribute prints with that attribute.  For a
    payload of an attribute byte, a 4-byte size and a text, the deck rejects
    size 0 and sizes above 219 as invalid parameters, and otherwise prints
    the text up to its first NUL and at most size characters, every
    character but the newline with the given attribute, moves the cursor
    once and completes the entry with the size as its result value. *)
Theorem console_write_attr_emits e re now st (attr size : Z) (str : list Z) :
  entries st !! e = Some re ->
  ev_type (event_copy re) = EVENT_CONSOLE_WRITE_ATTR ->
  ev_data (event_copy re) = attr :: le_bytes 4 size ++ str ->
  0 <= attr < 256 -> 0 <= size < 2 ^ 32 ->
  (size = 0 \/ EVENT_DATA_SIZE - 5 < size ->
     hardware_deck_process (Some e) now st
     = Ok (0, deck_error_detailed e DECK_PREFIX_HARDWARE ERROR_INVALID_PARAMETER
                "Console write attr: invalid size" st)) /\
  (1 <= size <= EVENT_DATA_SIZE - 5 ->
     exists st',
       hardware_deck_process (Some e) now st = Ok (1, st') /\
       vga_log st'
       = vga_log st
         ++ (console_call attr
               <$> take (Nat.min (Z.to_nat size) (strlen str)) str)
         ++ [VgaUpdateCursor] /\
       deck_log st'
       = deck_log st
         ++ [CallComplete e DECK_PREFIX_HARDWARE (RValue size) RESULT_TYPE_VALUE] /\
       entry_state e st' = Some EVENT_STATUS_COMPLETED).
Proof.
  unfold EVENT_DATA_SIZE. intros He Hty Hdata Hattr Hsize.
  destruct (process_dispatch e re now st He) as (_&_&_&_&_&_&_&_&_& Hd &_).
  rewrite (Hd Hty). clear Hd. unfold case_CONSOLE_WRITE_ATTR, EVENT_DATA_SIZE.
  rewrite Hdata.
  assert (Ha : read_le 1 0 (attr :: le_bytes 4 size ++ str) = attr).
  { unfold read_le. cbn [drop take]. rewrite take_0. cbn [le_value].
    change (2 ^ (8 * Z.of_nat 1)) with 256. rewrite Z.mod_small; lia. }
  assert (Hs : read_le 4 1 (attr :: le_bytes 4 size ++ str) = size).
  { change (read_le 4 1 (attr :: le_bytes 4 size ++ str))
      with (read_le 4 0 (le_bytes 4 size ++ str)).
    apply read_le_le_bytes. exact Hsize. }
  assert (Hdrop : drop 5 (attr :: le_bytes 4 size ++ str) = str).
  { change (drop 5 (attr :: le_bytes 4 size ++ str))
      with (drop 4 (le_bytes 4 size ++ str)).
    by rewrite (drop_app_length' (le_bytes 4 _)) by (by rewrite le_bytes_length). }
  rewrite Ha, Hs, Hdrop. split.
  - intros [->|Hbig]; [reflexivity|].
    destruct (Z.eqb_spec size 0); [reflexivity|].
    destruct (Z.ltb_spec (224 - 5) size); [reflexivity|lia].
  - intros Hn.
    destruct (Z.eqb_spec size 0) as [|_]; [lia|].
    destruct (Z.ltb_spec (224 - 5) size); [lia|]. cbn [orb].
    pose proof (console_write_loop_log attr (Z.to_nat size) str st) as Hlog.
    destruct (console_write_loop_frame attr (Z.to_nat size) str st)
      as (H1 & H2 & H3 & H4 & H5 & H6 & H7 & H8).
    eexists. split; [reflexivity|]. st_simpl.
    rewrite Hlog, H4.
    split_and!.
    + by rewrite <- app_assoc.
    + reflexivity.
    + apply entry_state_deck_complete. st_simpl. rewrite H3, He. eauto.
Qed.

Lemma console_write_attr_emits_witness :
  exists st',
    hardware_deck_process (Some 0%nat) 0 write_attr_request = Ok (1, st') /\
    vga_log st' = [VgaPrintChar 97 10; VgaNewline; VgaPrintChar 98 10;
                   VgaUpdateCursor] /\
    deck_log st' = [CallComplete 0 DECK_PREFIX_HARDWARE (RValue 3) RESULT_TYPE_VALUE].
Proof.
  assert (He : entries write_attr_request !! 0%nat
               = Some (mkRoutingEntry
                         (event_of EVENT_CONSOLE_WRITE_ATTR
                            (10 :: le_bytes 4 3 ++ [97; 10; 98]))
                         EVENT_STATUS_PROCESSING 1))
    by (vm_compute; reflexivity).
  destruct (console_write_attr_emits 0 _ 0 write_attr_request 10 3
              ([97; 10; 98] ++ replicate 216 0) He eq_refl) as [_ Hok].
  - vm_compute. reflexivity.
  - lia.
  - split; [lia|reflexivity].
  - destruct Hok as (st' & Hrun & Hvga & Hlog & _).
    + vm_compute. split; discriminate.
    + exists st'. split_and!; [exact Hrun|exact Hvga|exact Hlog].
Defined.

(* --- device names ---------------------------------------------------------- *)

Lemma strlen_drop_lookup name k :
  strlen (drop k name)
  = match name !! k with
    | Some c => if c =? 0 then 0%nat else S (strlen (drop (S k) name))
    | None => 0%nat
    end.
Proof.
  destruct (name !! k) as [c|] eqn:Hk.
  - by rewrite (drop_S name c k Hk).
  - apply lookup_ge_None in Hk. by rewrite drop_ge.
Qed.

Lemma name_len_loop_spec name fuel : forall k,
  (k <= 64)%nat ->
  name_len_loop name k fuel
  = (k + Nat.min fuel (Nat.min (64 - k) (strlen (drop k name))))%nat.
Proof.
  induction fuel as [|fuel IH]; intros k Hk; cbn [name_len_loop].
  { cbn [Nat.min]. lia. }
  rewrite (strlen_drop_lookup name k).
  destruct (name !! k) as [c|]; cbn [default from_option id].
  - destruct (Z.eqb_spec c 0) as [|Hc]; cbn [negb andb].
    + rewrite Nat.min_0_r. cbn. lia.
    + destruct (Nat.ltb_spec k 64) as [Hlt|Hge].
      * rewrite IH by lia. lia.
      * replace (64 - k)%nat with 0%nat by lia. cbn [Nat.min]. lia.
  - cbn [Z.eqb negb andb]. rewrite Nat.min_0_r. cbn. lia.
Qed.

(** X14: device-open accepts names of 1 to 63 characters.  The name is
    the payload read as a C string: an empty name and a name of 64 or more
    characters are rejected as invalid parameters, and every other name
    completes the entry with the stub handle 100 as an inline value. *)
Theorem dev_open_name_length e re now st :
  entries st !! e = Some re ->
  ev_type (event_copy re) = EVENT_DEV_OPEN ->
  (strlen (ev_data (event_copy re)) = 0%nat ->
     hardware_deck_process (Some e) now st
     = Ok (0, deck_error_detailed e DECK_PREFIX_HARDWARE ERROR_INVALID_PARAMETER
                "Device open: name is NULL or empty" st)) /\
  ((64 <= strlen (ev_data (event_copy re)))%nat ->
     hardware_deck_process (Some e) now st
     = Ok (0, deck_error_detailed e DECK_PREFIX_HARDWARE ERROR_INVALID_PARAMETER
                "Device open: name exceeds 64 characters" st)) /\
  ((1 <= strlen (ev_data (event_copy re)) <= 63)%nat ->
     hardware_deck_process (Some e) now st
     = Ok (1, deck_complete e DECK_PREFIX_HARDWARE (RValue 100)
                RESULT_TYPE_VALUE st)).
Proof.
  intros He Hty.
  destruct (process_dispatch e re now st He) as (_&_&_&_& Hd &_).
  rewrite (Hd Hty). clear Hd. unfold case_DEV_OPEN.
  set (name := ev_data (event_copy re)).
  rewrite name_len_loop_spec by lia. rewrite drop_0, Nat.sub_0_r, Nat.add_0_l.
  assert (Hempty : strlen name = 0%nat -> (default 0 (name !! 0%nat) =? 0) = true).
  { destruct name as [|c r]; cbn [lookup list_lookup default from_option id strlen];
      [done|]. by destruct (Z.eqb_spec c 0). }
  assert (Hfull : strlen name <> 0%nat -> (default 0 (name !! 0%nat) =? 0) = false).
  { destruct name as [|c r]; cbn [lookup list_lookup default from_option id strlen];
      [done|]. by destruct (Z.eqb_spec c 0). }
  split_and!.
  - intros Hz. by rewrite (Hempty Hz).
  - intros Hlong. rewrite Hfull by lia.
    destruct (Nat.leb_spec 64 (Nat.min 65 (Nat.min 64 (strlen name)))); [done|lia].
  - intros Hok. rewrite Hfull by lia.
    destruct (Nat.leb_spec 64 (Nat.min 65 (Nat.min 64 (strlen name)))); [lia|done].
Qed.

Lemma dev_open_name_length_witness :
  hardware_deck_process (Some 0%nat) 0 open_long_request
  = Ok (0, deck_error_detailed 0 DECK_PREFIX_HARDWARE ERROR_INVALID_PARAMETER
             "Device open: name exceeds 64 characters" open_long_request).
Proof.
  assert (He : entries open_long_request !! 0%nat
               = Some (mkRoutingEntry (event_of EVENT_DEV_OPEN (replicate 64 97))
                         EVENT_STATUS_PROCESSING 1))
    by (vm_compute; reflexivity).
  destruct (dev_open_name_length 0 _ 0 open_long_request He eq_refl)
    as (_ & Hlong & _).
  apply Hlong. vm_compute. lia.
Defined.

(* --- what a handled request does, for the library's own events ------------- *)

Lemma strlen_app_ge chars rest :
  Forall (fun c => c <> 0) chars -> (length chars <= strlen (chars ++ rest))%nat.
Proof.
  induction 1 as [|c chars Hc _ IH]; [cbn; lia|].
  cbn [app strlen length]. destruct (Z.eqb_spec c 0); [done|lia].
Qed.

Lemma case_CONSOLE_WRITE_run e re st data :
  entries st !! e = Some re ->
  1 <= read_le 4 0 data <= 220 ->
  exists st',
    case_CONSOLE_WRITE e data st = Ok (1, st') /\
    vga_log st'
    = vga_log st
      ++ (console_call VGA_DEFAULT
            <$> take (Nat.min (Z.to_nat (read_le 4 0 data)) (strlen (drop 4 data)))
                  (drop 4 data))
      ++ [VgaUpdateCursor] /\
    deck_log st'
    = deck_log st
      ++ [CallComplete e DECK_PREFIX_HARDWARE (RValue (read_le 4 0 data))
            RESULT_TYPE_VALUE] /\
    entry_state e st' = Some EVENT_STATUS_COMPLETED.
Proof.
  intros He Hn. unfold case_CONSOLE_WRITE, EVENT_DATA_SIZE.
  destruct (Z.eqb_spec (read_le 4 0 data) 0) as [|_]; [lia|].
  destruct (Z.ltb_spec (224 - 4) (read_le 4 0 data)); [lia|]. cbn [orb].
  pose proof (console_write_loop_log VGA_DEFAULT (Z.to_nat (read_le 4 0 data))
                (drop 4 data) st) as Hlog.
  destruct (console_write_loop_frame VGA_DEFAULT (Z.to_nat (read_le 4 0 data))
              (drop 4 data) st) as (H1 & H2 & H3 & H4 & H5 & H6 & H7 & H8).
  eexists. split; [reflexivity|]. st_simpl.
  rewrite Hlog, H4.
  split_and!.
  - by rewrite <- app_assoc.
  - reflexivity.
  - apply entry_state_deck_complete. st_simpl. rewrite H3, He. eauto.
Qed.

Lemma case_TIMER_SLEEP_run e re now st data i old :
  entries st !! e = Some re ->
  1 <= read_le 8 0 data <= 3600000 ->
  timers st !! i = Some old -> (i < MAX_TIMERS)%nat -> t_active old = false ->
  (forall j t, (j < i)%nat -> timers st !! j = Some t -> t_active t = true) ->
  exists st',
    case_TIMER_SLEEP e data now st = Ok (1, st') /\
    timers st'
    = <[i := mkTimer (wrap64 (next_timer_id st + 1)) (ev_user_id (event_copy re))
               (wrap64 (now + read_le 8 0 data * 2400000)) 0
               (t_event_id old) (Some e) true]> (timers st) /\
    deck_log st' = deck_log st /\
    entry_state e st' = Some EVENT_STATUS_SUSPENDED.
Proof.
  intros He Hms Hi Hlt Hfree Hbefore. unfold case_TIMER_SLEEP.
  destruct (Z.eqb_spec (read_le 8 0 data) 0); [lia|].
  destruct (Z.ltb_spec 3600000 (read_le 8 0 data)); [lia|].
  assert (Hwd : wrap64 (read_le 8 0 data * 2400000) = read_le 8 0 data * 2400000).
  { apply wrap64_small. change (2 ^ 64) with 18446744073709551616. lia. }
  unfold timer_create, atomic_increment_u64.
  assert (Hfind : list_find is_free (take MAX_TIMERS (timers st)) = Some (i, old)).
  { apply list_find_Some. split_and!.
    - by apply lookup_take_Some.
    - exact Hfree.
    - intros j y Hj Hji. apply lookup_take_Some in Hj as [Hj _].
      unfold is_free. rewrite (Hbefore j y Hji Hj). discriminate. }
  rewrite Hfind. st_simpl. rewrite He, Hwd. cbn [fmap option_fmap option_map default from_option id compose].
  eexists. split_and!; [reflexivity|reflexivity|reflexivity|].
  apply entry_state_set. st_simpl. by rewrite He.
Qed.

End DeckFacts.

(* ========================================================================= *)
(* Properties of the string utilities                                        *)
(* ========================================================================= *)

Section StringFacts.
Import UlibString.

Lemma c_string_nil : c_string [] = [].
Proof. reflexivity. Qed.

Lemma c_string_cons c r :
  c_string (c :: r) = if c =? 0 then [] else c :: c_string r.
Proof. unfold c_string. cbn [strlen]. by destruct (c =? 0). Qed.

Lemma c_string_hd_zero s : hd 0 s = 0 -> c_string s = [].
Proof.
  destruct s as [|c r]; [done|]. cbn [hd]. intros ->. by rewrite c_string_cons.
Qed.

Lemma c_string_unfold s :
  c_string s = if hd 0 s =? 0 then [] else hd 0 s :: c_string (tl s).
Proof.
  destruct s as [|c r]; [done|]. cbn [hd tl]. apply c_string_cons.
Qed.

Lemma c_string_no_nul s : Forall (fun c => c <> 0) (c_string s).
Proof.
  induction s as [|c r IH]; [constructor|].
  rewrite c_string_cons. destruct (Z.eqb_spec c 0); [constructor|].
  by constructor.
Qed.

(** X1: strcmp returns 0 exactly when the two strings have the same
    characters, and exchanging the arguments negates the result. *)
Theorem strcmp_zero_iff_equal s1 s2 :
  (strcmp s1 s2 = 0 <-> c_string s1 = c_string s2) /\
  strcmp s2 s1 = - strcmp s1 s2.
Proof.
  split.
  - revert s2. induction s1 as [|c1 r1 IH]; intros s2.
    + cbn [strcmp]. rewrite c_string_nil, (c_string_unfold s2).
      destruct (Z.eqb_spec (hd 0 s2) 0); split; intros; try done; lia.
    + cbn [strcmp]. rewrite c_string_cons, (c_string_unfold s2).
      destruct (Z.eqb_spec c1 0) as [->|H1]; cbn [negb andb].
      * destruct (Z.eqb_spec (hd 0 s2) 0); split; intros; try done; lia.
      * destruct (Z.eqb_spec c1 (hd 0 s2)) as [He|Hne].
        -- rewrite <- He. destruct (Z.eqb_spec c1 0); [done|].
           rewrite IH. split; [by intros ->|by intros [= ->]].
        -- destruct (Z.eqb_spec (hd 0 s2) 0); split; intros; try done; try lia.
           congruence.
  - revert s2. induction s1 as [|c1 r1 IH]; intros s2;
      destruct s2 as [|c2 r2]; cbn [strcmp hd tl];
      repeat match goal with
             | |- context [Z.eqb ?a ?b] =>
                 destruct (Z.eqb_spec a b); subst; cbn [negb andb hd tl]
             end;
      try lia; try congruence; try apply IH.
Qed.

(** X2: strncmp returns 0 exactly when the two strings agree on their
    first n characters (or both end before that, equal). *)
Theorem strncmp_zero_iff_prefix_equal s1 s2 n :
  strncmp s1 s2 n = 0 <-> take n (c_string s1) = take n (c_string s2).
Proof.
  revert s1 s2. induction n as [|n IH]; intros s1 s2.
  { cbn [strncmp]. by rewrite !take_0. }
  cbn [strncmp]. rewrite (c_string_unfold s1), (c_string_unfold s2).
  destruct s1 as [|c1 r1]; cbn [hd tl].
  - destruct (Z.eqb_spec (hd 0 s2) 0); split; intros; try done; lia.
  - destruct (Z.eqb_spec c1 0) as [->|H1]; cbn [negb andb].
    + destruct (Z.eqb_spec (hd 0 s2) 0); split; intros; try done; lia.
    + destruct (Z.eqb_spec c1 (hd 0 s2)) as [He|Hne].
      * rewrite <- He. destruct (Z.eqb_spec c1 0); [done|].
        cbn [take]. rewrite IH. split; [by intros ->|by intros [= ->]].
      * destruct (Z.eqb_spec (hd 0 s2) 0); split; intros H; try done; try lia.
        cbn [take] in H. congruence.
Qed.

(** X3: starts_with returns 1 exactly when the characters of the prefix
    are an initial segment of the string, and 0 otherwise; this is the case
    exactly when strncmp over the length of the prefix returns 0. *)
Theorem starts_with_iff_prefix str pre :
  (starts_with str pre = 1 <-> c_string pre `prefix_of` c_string str) /\
  (starts_with str pre = 1 \/ starts_with str pre = 0) /\
  (starts_with str pre = 1 <-> strncmp str pre (strlen pre) = 0).
Proof.
  assert (H1 : forall pre str,
             starts_with str pre = 1
             <-> c_string pre `prefix_of` c_string str).
  { clear. induction pre as [|p pr IH]; intros str.
    - cbn. split; [intros _; apply prefix_nil|done].
    - cbn [starts_with]. rewrite c_string_cons, (c_string_unfold str).
      destruct (Z.eqb_spec p 0) as [->|Hp]; [split; [intros _; apply prefix_nil|done]|].
      destruct (Z.eqb_spec (hd 0 str) p) as [He|Hne]; cbn [negb].
      + rewrite He. destruct (Z.eqb_spec p 0); [done|].
        rewrite IH. split; [apply prefix_cons|apply prefix_cons_inv_2].
      + split; [done|]. destruct (Z.eqb_spec (hd 0 str) 0).
        * intros H. by apply prefix_nil_inv in H.
        * intros H. apply prefix_cons_inv_1 in H. congruence. }
  assert (H2 : forall pre str,
             starts_with str pre = 1 \/ starts_with str pre = 0).
  { clear. induction pre as [|p pr IH]; intros str; cbn [starts_with]; [by left|].
    destruct (p =? 0); [by left|]. destruct (negb _); [by right|apply IH]. }
  assert (H3 : forall pre str,
             starts_with str pre = 1 <-> strncmp str pre (strlen pre) = 0).
  { clear. induction pre as [|p pr IH]; intros str; [done|].
    cbn [starts_with strlen].
    destruct (Z.eqb_spec p 0) as [->|Hp]; [done|].
    cbn [strncmp hd tl]. destruct str as [|c r]; cbn [hd tl].
    - destruct (Z.eqb_spec 0 p); [congruence|]. cbn [negb]. split; [done|lia].
    - destruct (Z.eqb_spec c p) as [->|Hne]; cbn [negb].
      + destruct (Z.eqb_spec p 0); [done|]. cbn [negb andb]. apply IH.
      + destruct (c =? 0); cbn [negb andb]; split; try done; lia. }
  split_and!; [apply H1|apply H2|apply H3].
Qed.

(** X4: contains_char returns 1 exactly when the character is not NUL and
    occurs in the string before its terminator, and 0 otherwise (so NUL is
    never found); is_tag of the shell is contains_char for ':'. *)
Theorem contains_char_iff_member s c :
  (contains_char s c = 1 <-> c <> 0 /\ c ∈ c_string s) /\
  (contains_char s c = 1 \/ contains_char s c = 0) /\
  contains_char s 0 = 0 /\
  is_tag s = contains_char s 58.
Proof.
  split_and!.
  - induction s as [|x r IH]; cbn [contains_char].
    + rewrite c_string_nil. split; [done|]. intros [_ H]. by apply elem_of_nil in H.
    + rewrite c_string_cons. destruct (Z.eqb_spec x 0) as [->|Hx].
      * split; [done|]. intros [_ H]. by apply elem_of_nil in H.
      * destruct (Z.eqb_spec x c) as [->|Hne].
        -- split; [|done]. intros _. split; [done|]. by left.
        -- rewrite IH. rewrite elem_of_cons. split; [intros [? ?]; by eauto|].
           intros [? [?|?]]; [congruence|done].
  - induction s as [|x r IH]; cbn [contains_char]; [by right|].
    destruct (x =? 0); [by right|]. destruct (x =? c); [by left|done].
  - induction s as [|x r IH]; cbn [contains_char]; [done|].
    destruct (Z.eqb_spec x 0) as [->|]; [done|].
    destruct (Z.eqb_spec x 0); [done|]. done.
  - induction s as [|x r IH]; cbn [contains_char is_tag]; [done|].
    by rewrite IH.
Qed.

(* --- atoi and itoa --------------------------------------------------------- *)

Lemma int_wrap_small z : - 2 ^ 31 <= z < 2 ^ 31 -> int_wrap z = z.
Proof.
  intros Hz. unfold int_wrap, sint32, wrap32.
  change (2 ^ 31) with 2147483648 in *. change (2 ^ 32) with 4294967296.
  destruct (Z_lt_le_dec z 0) as [Hneg|Hpos].
  - assert (H : z mod 4294967296 = z + 4294967296).
    { symmetry. apply (Z.mod_unique z 4294967296 (-1)); lia. }
    rewrite H. destruct (Z.ltb_spec (z + 4294967296) 2147483648); lia.
  - rewrite Z.mod_small by lia. destruct (Z.ltb_spec z 2147483648); lia.
Qed.

Lemma div10_step v : 0 <= v -> v / 10 <> 0 -> 0 < v / 10 < v.
Proof.
  intros Hv Hnz.
  assert (Hpos : 10 <= v).
  { destruct (Z_lt_le_dec v 10) as [Hlt|]; [|done].
    rewrite Z.div_small in Hnz by lia. done. }
  split; [|apply Z.div_lt; lia].
  apply Z.div_str_pos. lia.
Qed.

Lemma decimal_lsd_digits fuel : forall v,
  0 <= v -> Forall (fun c => 48 <= c <= 57) (decimal_lsd fuel v).
Proof.
  induction fuel as [|f IH]; intros v Hv; cbn [decimal_lsd]; [constructor|].
  constructor.
  - pose proof (Z.mod_pos_bound v 10). lia.
  - destruct (v / 10 =? 0); [constructor|]. apply IH. apply Z.div_pos; lia.
Qed.

Lemma decimal_lsd_length fuel : forall (k : nat) v,
  0 <= v < 10 ^ Z.of_nat (S k) -> (length (decimal_lsd fuel v) <= S k)%nat.
Proof.
  induction fuel as [|f IH]; intros k v Hv; cbn [decimal_lsd length]; [lia|].
  destruct (Z.eqb_spec (v / 10) 0) as [|Hnz]; [cbn; lia|].
  assert (Hq : 0 <= v / 10 < 10 ^ Z.of_nat k).
  { replace (Z.of_nat (S k)) with (1 + Z.of_nat k) in Hv by lia.
    rewrite Z.pow_add_r in Hv by lia. change (10 ^ 1) with 10 in Hv.
    split; [apply Z.div_pos; lia|]. apply Z.div_lt_upper_bound; lia. }
  destruct k as [|k].
  - change (10 ^ Z.of_nat 0) with 1 in Hq. lia.
  - specialize (IH k (v / 10) Hq). lia.
Qed.

Lemma decimal_lsd_nonempty fuel v : decimal_lsd (S fuel) v <> [].
Proof. done. Qed.

(** The digit loop of itoa stores the decimal digits at p, p+1, ... *)
Lemma itoa_digits_spec fuel : forall v str p,
  0 <= v -> (Z.to_nat v < fuel)%nat ->
  (p + length (decimal_lsd fuel v) <= length str)%nat ->
  itoa_digits fuel v str p
  = Ok (take p str ++ decimal_lsd fuel v
          ++ drop (p + length (decimal_lsd fuel v)) str,
        (p + length (decimal_lsd fuel v))%nat).
Proof.
  induction fuel as [|f IH]; intros v str p Hv Hfuel Hroom; [lia|].
  cbn [itoa_digits decimal_lsd] in *.
  rewrite Z.rem_mod_nonneg, Z.quot_div_nonneg by lia.
  cbn [length] in Hroom. unfold store_at.
  destruct (decide (p < length str)%nat) as [Hp|]; [|lia].
  destruct (Z.eqb_spec (v / 10) 0) as [Hz|Hnz].
  - cbn [length app]. f_equal. f_equal.
    + rewrite insert_take_drop by done.
      by replace (p + 1)%nat with (S p) by lia.
    + lia.
  - assert (Hq : 0 < v / 10 < v).
    { apply div10_step; [lia|exact Hnz]. }
    rewrite IH; [|lia|lia|rewrite length_insert; lia].
    cbn [length app]. f_equal. f_equal; [|lia].
    rewrite take_insert_lt by lia.
    rewrite drop_insert_lt by lia.
    rewrite (take_S_r str p (default 0 (str !! p))).
    2:{ destruct (lookup_lt_is_Some_2 str p Hp) as [x Hx]. by rewrite Hx. }
    rewrite insert_app_r_alt by (rewrite length_take; lia).
    rewrite length_take, Nat.min_l, Nat.sub_diag by lia. cbn [insert list_insert].
    rewrite <- app_assoc. cbn [app].
    by replace (p + S (length (decimal_lsd f (v / 10))))%nat
      with (S p + length (decimal_lsd f (v / 10)))%nat by lia.
Qed.

(** Read most significant digit first, the digits give the number back. *)
Lemma atoi_digits_rev_lsd fuel : forall v tail,
  0 <= v < 2 ^ 31 -> (Z.to_nat v < fuel)%nat ->
  atoi_digits (rev (decimal_lsd fuel v) ++ tail) 0 = atoi_digits tail v.
Proof.
  induction fuel as [|f IH]; intros v tail Hv Hfuel; [lia|].
  cbn [decimal_lsd]. change (2 ^ 31) with 2147483648 in *.
  pose proof (Z.mod_pos_bound v 10) as Hm.
  pose proof (Z.div_mod v 10) as Hdm.
  assert (Hd : forall acc,
             0 <= acc -> acc * 10 + v mod 10 < 2147483648 ->
             atoi_digits ((48 + v mod 10) :: tail) acc
             = atoi_digits tail (acc * 10 + v mod 10)).
  { intros acc Ha Hb. cbn [atoi_digits].
    destruct (Z.leb_spec 48 (48 + v mod 10)); [|lia].
    destruct (Z.leb_spec (48 + v mod 10) 57); [|lia]. cbn [andb].
    rewrite (int_wrap_small (acc * 10)) by (change (2 ^ 31) with 2147483648; lia).
    replace (48 + v mod 10 - 48) with (v mod 10) by lia.
    by rewrite int_wrap_small by (change (2 ^ 31) with 2147483648; lia). }
  destruct (Z.eqb_spec (v / 10) 0) as [Hz|Hnz].
  - cbn [rev app]. rewrite Hd by lia. f_equal. lia.
  - assert (Hq : 0 < v / 10 < v).
    { apply div10_step; [lia|exact Hnz]. }
    cbn [rev]. rewrite <- app_assoc. cbn [app].
    rewrite IH by lia. rewrite Hd by lia. f_equal. lia.
Qed.

Lemma insert_middle {A} (l1 l2 : list A) x y :
  <[length l1 := y]> (l1 ++ x :: l2) = l1 ++ y :: l2.
Proof. rewrite insert_app_r_alt by lia. by rewrite Nat.sub_diag. Qed.

(** The reversal loop of itoa reverses the characters between the pointers. *)
Lemma reverse_loop_spec fuel : forall l pre post,
  (length l <= fuel)%nat ->
  reverse_loop fuel (pre ++ l ++ post) (length pre)
    (length pre + length l - 1)
  = pre ++ rev l ++ post.
Proof.
  induction fuel as [|f IH]; intros l pre post Hlen.
  { destruct l; [done|cbn in Hlen; lia]. }
  cbn [reverse_loop].
  destruct l as [|x l]; [|destruct (exists_last (l:=x :: l) ltac:(done))
                            as (m' & y & Hm')].
  - cbn [length]. destruct (Nat.ltb_spec (length pre) (length pre + 0 - 1)); [lia|done].
  - destruct l as [|x' l].
    + cbn [length]. destruct (Nat.ltb_spec (length pre) (length pre + 1 - 1)); [lia|done].
    + destruct m' as [|x0 m]; [destruct l; discriminate Hm'|].
      injection Hm' as <- Hl. rewrite Hl in Hlen |- *. clear Hl.
      rewrite length_cons, length_app. cbn [length].
      destruct (Nat.ltb_spec (length pre) (length pre + S (length m + 1) - 1));
        [|lia].
      set (e := (length pre + S (length m + 1) - 1)%nat).
      assert (He : e = (length pre + S (length m))%nat) by (subst e; lia).
      assert (H1 : (pre ++ (x :: m ++ [y]) ++ post) !! length pre = Some x).
      { rewrite lookup_app_r by lia. by rewrite Nat.sub_diag. }
      assert (H2 : (pre ++ (x :: m ++ [y]) ++ post) !! e = Some y).
      { replace (pre ++ (x :: m ++ [y]) ++ post)
          with ((pre ++ x :: m) ++ y :: post)
          by (rewrite <- !app_assoc; cbn [app]; by rewrite <- !app_assoc).
        apply list_lookup_middle. rewrite He, length_app. cbn [length]. lia. }
      rewrite H1, H2. cbn [default from_option id].
      assert (H3 : <[e := x]> (<[length pre := y]> (pre ++ (x :: m ++ [y]) ++ post))
                   = (pre ++ [y]) ++ m ++ (x :: post)).
      { replace (pre ++ (x :: m ++ [y]) ++ post)
          with (pre ++ x :: (m ++ y :: post))
          by (cbn [app]; by rewrite <- !app_assoc).
        rewrite insert_middle.
        replace (pre ++ y :: m ++ y :: post)
          with ((pre ++ y :: m) ++ y :: post)
          by (by rewrite <- !app_assoc).
        replace e with (length (pre ++ y :: m))
          by (rewrite He, length_app; cbn [length]; lia).
        rewrite insert_middle. rewrite <- !app_assoc. done. }
      rewrite H3.
      replace (S (length pre)) with (length (pre ++ [y]))
        by (rewrite length_app; cbn; lia).
      replace (pred e) with (length (pre ++ [y]) + length m - 1)%nat
        by (rewrite length_app; cbn; lia).
      rewrite IH by (rewrite length_cons, length_app in Hlen; lia).
      rewrite <- !app_assoc. cbn [app rev]. rewrite rev_app_distr. cbn [rev app].
      by rewrite <- !app_assoc.
Qed.

Lemma store_at_end (l str : list Z) (c : Z) :
  (length l < length str)%nat ->
  store_at (l ++ drop (length l) str) (length l) c
  = Ok ((l ++ [c]) ++ drop (length (l ++ [c])) str).
Proof.
  intros Hl. unfold store_at.
  destruct (decide (length l < length (l ++ drop (length l) str))%nat) as [_|Hn].
  2:{ rewrite length_app, length_drop in Hn. lia. }
  f_equal. destruct (lookup_lt_is_Some_2 str (length l) Hl) as [x Hx].
  rewrite (drop_S str x (length l) Hx), insert_middle, length_app, <- app_assoc.
  cbn [length app]. by replace (length l + 1)%nat with (S (length l)) by lia.
Qed.

(** The tail of itoa: terminate the text and reverse it in place. *)
Lemma itoa_finish (l str : list Z) :
  (length l < length str)%nat ->
  store_at (l ++ drop (length l) str) (length l) 0
    ≫= (fun s => Ok (reverse_loop (length l) s 0 (pred (length l))))
  = Ok (rev l ++ 0 :: drop (S (length l)) str).
Proof.
  intros Hl. rewrite store_at_end by done. cbn [mbind Res_bind]. f_equal.
  rewrite <- app_assoc, length_app. cbn [app length].
  replace (length l + 1)%nat with (S (length l)) by lia.
  pose proof (reverse_loop_spec (length l) l [] (0 :: drop (S (length l)) str))
    as Hrev.
  cbn [app length] in Hrev.
  replace (0 + length l - 1)%nat with (pred (length l)) in Hrev by lia.
  apply Hrev. lia.
Qed.

(** X5: itoa followed by atoi is the identity on every int but INT_MIN.
    Given a buffer of at least 12 bytes, itoa succeeds, writes a text of at
    most 11 non-zero characters followed by a NUL, leaves the rest of the
    buffer alone, and atoi reads the written text back as the same number. *)
Theorem atoi_itoa_round_trip v str :
  - 2 ^ 31 < v < 2 ^ 31 -> (12 <= length str)%nat ->
  exists text,
    itoa v str = Ok (text ++ 0 :: drop (S (length text)) str) /\
    (length text <= 11)%nat /\
    strlen (text ++ 0 :: drop (S (length text)) str) = length text /\
    atoi (text ++ 0 :: drop (S (length text)) str) = v.
Proof.
  intros Hv Hlen. change (2 ^ 31) with 2147483648 in Hv.
  set (a := Z.abs v).
  set (ds := decimal_lsd (S (Z.abs_nat a)) a).
  assert (Ha : 0 <= a < 2147483648) by (subst a; lia).
  assert (Hds : (1 <= length ds <= 10)%nat).
  { split; [subst ds; cbn [decimal_lsd length]; lia|].
    apply (decimal_lsd_length _ 9). change (10 ^ Z.of_nat 10) with 10000000000. lia. }
  assert (Hdig : Forall (fun c => 48 <= c <= 57) ds)
    by (apply decimal_lsd_digits; lia).
  assert (Hrun : itoa_digits (S (Z.abs_nat a)) a str 0
                 = Ok (ds ++ drop (length ds) str, length ds)).
  { rewrite itoa_digits_spec by (fold ds; lia). fold ds. by rewrite take_0. }
  assert (Hval : (if v <? 0 then int_wrap (- v) else v) = a).
  { destruct (Z.ltb_spec v 0); subst a; [|lia].
    rewrite int_wrap_small by (change (2 ^ 31) with 2147483648; lia). lia. }
  assert (Hhd : exists c r, rev ds = c :: r /\ 48 <= c <= 57).
  { destruct (rev ds) as [|c r] eqn:Hr.
    - apply (f_equal length) in Hr. rewrite length_rev in Hr. cbn in Hr. lia.
    - exists c, r. split; [done|].
      pose proof (Forall_rev Hdig) as Hrev. rewrite Hr in Hrev.
      by inversion Hrev. }
  assert (Hread : forall rest,
             atoi_digits (rev ds ++ 0 :: rest) 0 = a).
  { intros rest. subst ds.
    rewrite atoi_digits_rev_lsd by (change (2 ^ 31) with 2147483648; lia).
    done. }
  assert (Hnz : forall t rest,
             Forall (fun c => c <> 0) t -> strlen (t ++ 0 :: rest) = length t).
  { intros t rest Ht. induction Ht as [|c t Hc _ IH]; [done|].
    cbn [app strlen length]. destruct (Z.eqb_spec c 0); [done|]. by rewrite IH. }
  assert (Hnd : Forall (fun c => c <> 0) (rev ds)).
  { apply Forall_rev. eapply Forall_impl; [exact Hdig|]. cbn. intros; lia. }
  unfold itoa. rewrite Hval, Hrun. cbn [mbind Res_bind].
  destruct Hhd as (c & r & Hr & Hc).
  destruct (Z.ltb_spec v 0) as [Hneg|Hpos].
  - exists (45 :: rev ds).
    rewrite store_at_end by lia. cbn [mbind Res_bind].
    replace (S (length ds)) with (length (ds ++ [45]))
      by (rewrite length_app; cbn [length]; lia).
    rewrite itoa_finish by (rewrite length_app; cbn [length]; lia).
    rewrite rev_app_distr. cbn [rev app length].
    rewrite length_app, length_rev. cbn [length].
    replace (length ds + 1)%nat with (S (length ds)) by lia.
    split_and!; [done|lia| |].
    + assert (H45 : Forall (fun c => c <> 0) (45 :: rev ds))
        by (constructor; [lia|done]).
      pose proof (Hnz _ (drop (S (S (length ds))) str) H45) as Hs.
      cbn [app length] in Hs. by rewrite length_rev in Hs.
    + unfold atoi. cbn [skip_blanks Z.eqb Pos.eqb orb].
      rewrite Hread. rewrite int_wrap_small; subst a;
        change (2 ^ 31) with 2147483648; lia.
  - exists (rev ds). cbn [mbind Res_bind].
    rewrite itoa_finish by lia. rewrite length_rev.
    split_and!; [done|lia| |].
    + rewrite Hnz by done. by rewrite length_rev.
    + unfold atoi. rewrite Hr. cbn [app skip_blanks].
      destruct (Z.eqb_spec c 32); [lia|]. destruct (Z.eqb_spec c 9); [lia|].
      cbn [orb]. destruct (Z.eqb_spec c 45); [lia|].
      destruct (Z.eqb_spec c 43); [lia|].
      change (c :: r ++ 0 :: drop (S (length ds)) str)
        with ((c :: r) ++ 0 :: drop (S (length ds)) str).
      rewrite <- Hr, Hread. rewrite int_wrap_small; subst a;
        change (2 ^ 31) with 2147483648; lia.
Qed.

Lemma atoi_itoa_round_trip_witness :
  exists text,
    itoa (-1234) (replicate 12 7)
    = Ok (text ++ 0 :: drop (S (length text)) (replicate 12 7)) /\
    (length text <= 11)%nat /\
    strlen (text ++ 0 :: drop (S (length text)) (replicate 12 7)) = length text /\
    atoi (text ++ 0 :: drop (S (length text)) (replicate 12 7)) = -1234.
Proof.
  apply (atoi_itoa_round_trip (-1234) (replicate 12 7)).
  - split; reflexivity.
  - cbn [replicate length]. lia.
Defined.

(* --- strcpy, strncpy, memset ---------------------------------------------- *)

Lemma store_at_middle (pre post : list Z) x y :
  store_at (pre ++ x :: post) (length pre) y = Ok (pre ++ y :: post).
Proof.
  unfold store_at.
  destruct (decide (length pre < length (pre ++ x :: post))%nat) as [_|Hn].
  - by rewrite insert_middle.
  - rewrite length_app in Hn. cbn [length] in Hn. lia.
Qed.

Lemma store_at_beyond (l : list Z) i y :
  (length l <= i)%nat -> store_at l i y = Fault WriteOutOfBounds.
Proof. intros H. unfold store_at. destruct (decide (i < length l)%nat); [lia|done]. Qed.

Lemma strncpy_fill_spec n : forall (pre old post : list Z),
  length old = n ->
  strncpy_fill (pre ++ old ++ post) (length pre) n
  = Ok (pre ++ replicate n 0 ++ post).
Proof.
  induction n as [|n IH]; intros pre old post Hlen.
  { destruct old; [done|discriminate]. }
  destruct old as [|x old]; [discriminate|]. injection Hlen as Hlen.
  cbn [strncpy_fill app]. rewrite store_at_middle.
  replace (S (length pre)) with (length (pre ++ [0]))
    by (rewrite length_app; cbn [length]; lia).
  rewrite (cons_middle 0 pre (old ++ post)), app_assoc.
  rewrite IH by done. by rewrite <- app_assoc.
Qed.

Lemma strncpy_fill_overrun n : forall (pre old : list Z),
  (length old < n)%nat ->
  strncpy_fill (pre ++ old) (length pre) n = Fault WriteOutOfBounds.
Proof.
  induction n as [|n IH]; intros pre old Hlen; [lia|].
  cbn [strncpy_fill]. destruct old as [|x old].
  - rewrite app_nil_r. by rewrite store_at_beyond.
  - rewrite store_at_middle.
    replace (S (length pre)) with (length (pre ++ [0]))
      by (rewrite length_app; cbn [length]; lia).
    rewrite (cons_middle 0 pre old), app_assoc.
    apply IH. cbn [length] in Hlen. lia.
Qed.

(** The first loop of strncpy on a source with at least [n] characters. *)
Lemma strncpy_copy_long n : forall (pre old post src : list Z),
  length old = n -> (n <= strlen src)%nat ->
  strncpy_copy (pre ++ old ++ post) (length pre) src n
  = Ok (pre ++ take n src ++ post, (length pre + n)%nat, 0%nat).
Proof.
  induction n as [|n IH]; intros pre old post src Hlen Hs.
  { destruct old; [|discriminate]. cbn [strncpy_copy take app].
    by rewrite Nat.add_0_r. }
  destruct old as [|x old]; [discriminate|]. injection Hlen as Hlen.
  destruct src as [|c src]; [cbn in Hs; lia|].
  cbn [strlen] in Hs. destruct (Z.eqb_spec c 0) as [|Hc]; [lia|].
  cbn [strncpy_copy hd tl app]. rewrite store_at_middle.
  destruct (Z.eqb_spec c 0) as [|_]; [done|].
  replace (S (length pre)) with (length (pre ++ [c]))
    by (rewrite length_app; cbn [length]; lia).
  rewrite (cons_middle c pre (old ++ post)), app_assoc.
  rewrite IH by (done || lia).
  rewrite length_app. cbn [length take]. rewrite <- app_assoc. cbn [app].
  do 2 f_equal. f_equal. lia.
Qed.

(** The first loop of strncpy on a source shorter than [n]: the NUL is
    stored too, and the count is left at [n - strlen src], not one less. *)
Lemma strncpy_copy_short n : forall (pre old post src : list Z),
  length old = S (strlen src) -> (strlen src < n)%nat ->
  strncpy_copy (pre ++ old ++ post) (length pre) src n
  = Ok (pre ++ c_string src ++ 0 :: post, (length pre + S (strlen src))%nat,
        (n - strlen src)%nat).
Proof.
  induction n as [|n IH]; intros pre old post src Hlen Hs; [lia|].
  destruct old as [|x old]; [discriminate|]. injection Hlen as Hlen.
  cbn [strncpy_copy app]. rewrite store_at_middle.
  destruct src as [|c src].
  { cbn [hd Z.eqb strlen c_string]. destruct old; [|discriminate].
    rewrite c_string_nil. cbn [app strlen].
    replace (length pre + 1)%nat with (S (length pre)) by lia.
    by replace (S n - 0)%nat with (S n) by lia. }
  cbn [hd tl]. rewrite c_string_cons. cbn [strlen] in *.
  destruct (Z.eqb_spec c 0) as [->|Hc].
  { destruct old; [|discriminate]. cbn [app].
    replace (length pre + 1)%nat with (S (length pre)) by lia.
    by replace (S n - 0)%nat with (S n) by lia. }
  replace (S (length pre)) with (length (pre ++ [c]))
    by (rewrite length_app; cbn [length]; lia).
  rewrite (cons_middle c pre (old ++ post)), app_assoc.
  rewrite IH by (done || lia).
  rewrite length_app. cbn [length]. rewrite <- app_assoc. cbn [app].
  replace (length pre + 1 + S (strlen src))%nat
    with (length pre + S (S (strlen src)))%nat by lia.
  by replace (n - strlen src)%nat with (S n - S (strlen src))%nat by lia.
Qed.

Lemma c_string_length s : length (c_string s) = strlen s.
Proof.
  unfold c_string. rewrite length_take. pose proof (strlen_le_length s). lia.
Qed.

Lemma strncpy_cases (dest src : list Z) (n : nat) :
  ((strlen src < n)%nat -> (n < length dest)%nat ->
     strncpy dest src n
     = Ok (c_string src ++ replicate (S n - strlen src) 0 ++ drop (S n) dest)) /\
  ((strlen src < n)%nat -> length dest = n ->
     strncpy dest src n = Fault WriteOutOfBounds) /\
  ((n <= strlen src)%nat -> (n <= length dest)%nat ->
     strncpy dest src n = Ok (take n src ++ drop n dest)).
Proof.
  assert (Hshort : forall post : list Z,
             (strlen src < n)%nat -> (S (strlen src) <= length dest)%nat ->
             strncpy_copy dest 0 src n
             = Ok (c_string src ++ 0 :: drop (S (strlen src)) dest,
                   S (strlen src), (n - strlen src)%nat)).
  { intros _ Hs Hd.
    pose proof (strncpy_copy_short n [] (take (S (strlen src)) dest)
                  (drop (S (strlen src)) dest) src) as H.
    rewrite take_drop in H. cbn [app length Nat.add] in H.
    apply H; [|done]. rewrite length_take. lia. }
  unfold strncpy. split_and!.
  - intros Hs Hd. rewrite (Hshort [] Hs) by lia. cbn [mbind Res_bind].
    pose proof (strncpy_fill_spec (n - strlen src) (c_string src ++ [0])
                  (take (n - strlen src) (drop (S (strlen src)) dest))
                  (drop (S n) dest)) as H.
    rewrite length_app, c_string_length in H. cbn [length] in H.
    replace (strlen src + 1)%nat with (S (strlen src)) in H by lia.
    rewrite <- (take_drop (n - strlen src) (drop (S (strlen src)) dest)).
    rewrite drop_drop.
    replace (S (strlen src) + (n - strlen src))%nat with (S n) by lia.
    rewrite (cons_middle 0 (c_string src)), app_assoc.
    rewrite H by (rewrite length_take, length_drop; lia).
    rewrite <- app_assoc. cbn [app].
    replace (S n - strlen src)%nat with (S (n - strlen src)) by lia.
    reflexivity.
  - intros Hs Hd. rewrite (Hshort [] Hs) by lia. cbn [mbind Res_bind].
    pose proof (strncpy_fill_overrun (n - strlen src) (c_string src ++ [0])
                  (drop (S (strlen src)) dest)) as H.
    rewrite length_app, c_string_length in H. cbn [length] in H.
    replace (strlen src + 1)%nat with (S (strlen src)) in H by lia.
    rewrite (cons_middle 0 (c_string src)), app_assoc.
    apply H. rewrite length_drop. lia.
  - intros Hs Hd.
    pose proof (strncpy_copy_long n [] (take n dest) (drop n dest) src) as H.
    rewrite take_drop in H. cbn [app length Nat.add] in H.
    rewrite H by (rewrite ?length_take; lia). reflexivity.
Qed.

(** X19: strncpy writes n + 1 bytes when the source is shorter than n.
    With strlen(src) < n the characters of src are copied and followed by
    n + 1 - strlen(src) NUL bytes, one byte more than n, so a destination of
    exactly n bytes is overrun; with strlen(src) >= n exactly the first n
    characters are copied and no NUL is added.  The one call in the
    library, strtok's copy of 255 bytes into its 256-byte buffer, stays
    within the buffer for every source. *)
Theorem strncpy_writes_n_plus_one (dest src : list Z) (n : nat) :
  ((strlen src < n)%nat -> (n < length dest)%nat ->
     strncpy dest src n
     = Ok (c_string src ++ replicate (S n - strlen src) 0 ++ drop (S n) dest)) /\
  ((strlen src < n)%nat -> length dest = n ->
     strncpy dest src n = Fault WriteOutOfBounds) /\
  ((n <= strlen src)%nat -> (n <= length dest)%nat ->
     strncpy dest src n = Ok (take n src ++ drop n dest)) /\
  (length dest = 256%nat ->
     exists out, strncpy dest src 255 = Ok out /\ length out = 256%nat).
Proof.
  destruct (strncpy_cases dest src n) as (H1 & H2 & H3).
  split_and!; [exact H1|exact H2|exact H3|].
  intros Hlen. destruct (strncpy_cases dest src 255) as (Hs & _ & Hl).
  destruct (decide (strlen src < 255)%nat) as [Hlt|Hge].
  - rewrite Hs by lia. eexists. split; [reflexivity|].
    rewrite !length_app, c_string_length, length_replicate, length_drop. lia.
  - rewrite Hl by lia. eexists. split; [reflexivity|].
    rewrite length_app, length_take, length_drop.
    pose proof (strlen_le_length src). lia.
Qed.

Lemma strncpy_writes_n_plus_one_witness :
  strncpy (replicate 4 7) [104; 105] 4 = Fault WriteOutOfBounds /\
  strncpy (replicate 5 7) [104; 105] 4 = Ok [104; 105; 0; 0; 0].
Proof.
  destruct (strncpy_writes_n_plus_one (replicate 4 7) [104; 105] 4)
    as (_ & Hfault & _).
  destruct (strncpy_writes_n_plus_one (replicate 5 7) [104; 105] 4)
    as (Hok & _).
  split.
  - apply Hfault; [cbn; lia|reflexivity].
  - rewrite Hok by (cbn; lia). reflexivity.
Defined.

Lemma strcpy_from_spec src : forall (pre old post : list Z),
  length old = S (strlen src) ->
  strcpy_from (pre ++ old ++ post) (length pre) src
  = Ok (pre ++ c_string src ++ 0 :: post).
Proof.
  induction src as [|c src IH]; intros pre old post Hlen.
  { destruct old as [|x [|? ?]]; try discriminate.
    cbn [strcpy_from app]. rewrite store_at_middle. by rewrite c_string_nil. }
  destruct old as [|x old]; [discriminate|].
  cbn [strcpy_from app]. rewrite store_at_middle, c_string_cons.
  cbn [strlen] in Hlen. destruct (Z.eqb_spec c 0) as [->|Hc].
  { destruct old; [done|discriminate]. }
  injection Hlen as Hlen.
  replace (S (length pre)) with (length (pre ++ [c]))
    by (rewrite length_app; cbn [length]; lia).
  rewrite (cons_middle c pre (old ++ post)), app_assoc.
  rewrite IH by done. by rewrite <- app_assoc.
Qed.

Lemma strcpy_from_overrun src : forall (pre old : list Z),
  (length old <= strlen src)%nat ->
  strcpy_from (pre ++ old) (length pre) src = Fault WriteOutOfBounds.
Proof.
  induction src as [|c src IH]; intros pre old Hlen.
  { destruct old; [|cbn in Hlen; lia].
    cbn [strcpy_from]. rewrite app_nil_r. by apply store_at_beyond. }
  cbn [strcpy_from]. destruct old as [|x old].
  { rewrite app_nil_r. by rewrite store_at_beyond. }
  rewrite store_at_middle. cbn [strlen length] in Hlen.
  destruct (Z.eqb_spec c 0) as [|Hc]; [lia|].
  replace (S (length pre)) with (length (pre ++ [c]))
    by (rewrite length_app; cbn [length]; lia).
  rewrite (cons_middle c pre old), app_assoc. apply IH. lia.
Qed.

(** X20: strcpy copies the characters of the source and its NUL, and
    nothing else: it succeeds exactly when the destination has more bytes
    than the source has characters, leaving the bytes after the NUL as they
    were, and otherwise runs past the end of the destination. *)
Theorem strcpy_copies_through_nul (dest src : list Z) :
  ((strlen src < length dest)%nat ->
     strcpy dest src = Ok (c_string src ++ 0 :: drop (S (strlen src)) dest)) /\
  ((length dest <= strlen src)%nat -> strcpy dest src = Fault WriteOutOfBounds) /\
  (forall out, strcpy dest src = Ok out ->
     length out = length dest /\ c_string out = c_string src).
Proof.
  assert (Hok : (strlen src < length dest)%nat ->
                strcpy dest src
                = Ok (c_string src ++ 0 :: drop (S (strlen src)) dest)).
  { intros Hlt. unfold strcpy.
    pose proof (strcpy_from_spec src [] (take (S (strlen src)) dest)
                  (drop (S (strlen src)) dest)) as H.
    rewrite take_drop in H. cbn [app length] in H.
    apply H. rewrite length_take. lia. }
  assert (Hbad : (length dest <= strlen src)%nat ->
                 strcpy dest src = Fault WriteOutOfBounds).
  { intros Hge. unfold strcpy. by apply (strcpy_from_overrun src []). }
  split_and!; [exact Hok|exact Hbad|].
  intros out Hrun.
  destruct (decide (strlen src < length dest)%nat) as [Hlt|Hge].
  - rewrite (Hok Hlt) in Hrun. injection Hrun as <-. split.
    + rewrite length_app, c_string_length. cbn [length]. rewrite length_drop. lia.
    + unfold c_string at 1.
      rewrite strlen_app_nul by apply c_string_no_nul.
      by rewrite take_app_length.
  - rewrite Hbad in Hrun by lia. discriminate.
Qed.

Lemma memset_spec n : forall (pre old post : list Z) c,
  length old = n ->
  memset (pre ++ old ++ post) (length pre) c n
  = Ok (pre ++ replicate n (c mod 256) ++ post).
Proof.
  induction n as [|n IH]; intros pre old post c Hlen.
  { destruct old; [done|discriminate]. }
  destruct old as [|x old]; [discriminate|]. injection Hlen as Hlen.
  cbn [memset app]. rewrite store_at_middle.
  replace (S (length pre)) with (length (pre ++ [c mod 256]))
    by (rewrite length_app; cbn [length]; lia).
  rewrite (cons_middle (c mod 256) pre (old ++ post)), app_assoc.
  rewrite IH by done. by rewrite <- app_assoc.
Qed.

(** X21: memset stores n times the low byte of c, from the given offset,
    and nothing else; applied to the whole of an Event object with c = 0, as
    execute_event does, it leaves the all-zero event. *)
Theorem memset_fills (s : list Z) (d : nat) (c : Z) (n : nat) :
  ((d + n <= length s)%nat ->
     memset s d c n
     = Ok (take d s ++ replicate n (c mod 256) ++ drop (d + n) s)) /\
  (forall ev, Event_wf ev ->
     exists m, memset (Event_bytes ev) 0 0 (Z.to_nat sizeof_Event) = Ok m /\
               Event_of_bytes m = Ulib.zero_Event).
Proof.
  assert (Hfill : forall (s : list Z) d c n, (d + n <= length s)%nat ->
             memset s d c n
             = Ok (take d s ++ replicate n (c mod 256) ++ drop (d + n) s)).
  { clear. intros s d c n Hlen.
    pose proof (memset_spec n (take d s) (take n (drop d s)) (drop (d + n) s) c)
      as H.
    assert (H1 : length (take d s) = d) by (rewrite length_take; lia).
    assert (H2 : take d s ++ take n (drop d s) ++ drop (d + n) s = s).
    { by rewrite <- (drop_drop s n d), take_drop, take_drop. }
    rewrite H1, H2 in H. apply H. rewrite length_take, length_drop. lia. }
  split; [apply Hfill|].
  intros ev Hwf. pose proof (Event_bytes_length ev Hwf) as Hlen.
  change (Z.to_nat sizeof_Event) with 264%nat.
  unfold sizeof_Event, MAX_ROUTING_STEPS, EVENT_DATA_SIZE in Hlen.
  eexists. split.
  - rewrite Hfill by lia. rewrite take_0, drop_ge by lia. reflexivity.
  - vm_compute. reflexivity.
Qed.

(* --- parse_tag (shell.c) --------------------------------------------------- *)

Lemma c_string_app_nul (chars rest : list Z) :
  Forall (fun c => c <> 0) chars -> c_string (chars ++ 0 :: rest) = chars.
Proof.
  intros Hnz. unfold c_string. rewrite strlen_app_nul by done.
  by rewrite take_app_length.
Qed.

Lemma drop_char_at (s : list Z) i :
  char_at s i <> 0 -> drop i s = char_at s i :: drop (S i) s.
Proof.
  unfold char_at. destruct (s !! i) as [c|] eqn:Hi; cbn [default from_option id].
  - intros _. by apply drop_S.
  - done.
Qed.

Lemma key_len_drop (s : list Z) i :
  key_len (drop i s)
  = if (char_at s i =? 0) || (char_at s i =? 58) then 0%nat
    else S (key_len (drop (S i) s)).
Proof.
  destruct (Z.eqb_spec (char_at s i) 0) as [Hz|Hnz].
  - cbn [orb]. unfold char_at in Hz.
    destruct (s !! i) as [c|] eqn:Hi; cbn [default from_option id] in Hz.
    + rewrite (drop_S s c i Hi). subst c. reflexivity.
    + apply lookup_ge_None in Hi. by rewrite drop_ge.
  - rewrite (drop_char_at s i Hnz) at 1. cbn [key_len orb].
    by destruct (Z.eqb_spec (char_at s i) 0).
Qed.

Lemma strlen_drop (s : list Z) i :
  strlen (drop i s)
  = if char_at s i =? 0 then 0%nat else S (strlen (drop (S i) s)).
Proof.
  destruct (Z.eqb_spec (char_at s i) 0) as [Hz|Hnz].
  - unfold char_at in Hz.
    destruct (s !! i) as [c|] eqn:Hi; cbn [default from_option id] in Hz.
    + rewrite (drop_S s c i Hi). subst c. reflexivity.
    + apply lookup_ge_None in Hi. by rewrite drop_ge.
  - rewrite (drop_char_at s i Hnz) at 1. cbn [strlen].
    by destruct (Z.eqb_spec (char_at s i) 0).
Qed.

Ltac loop_done :=
  rewrite ?Nat.min_0_r, ?Nat.min_0_l, take_0, Nat.add_0_r; cbn [app];
  by rewrite take_drop.

Lemma parse_tag_key_spec (s : list Z) fuel : forall i key,
  (i <= 31)%nat -> (31 - i <= fuel)%nat -> length key = 32%nat ->
  parse_tag_key s i fuel key
  = Ok ((i + Nat.min (31 - i) (key_len (drop i s)))%nat,
        take i key
          ++ take (Nat.min (31 - i) (key_len (drop i s))) (drop i s)
          ++ drop (i + Nat.min (31 - i) (key_len (drop i s))) key).
Proof.
  induction fuel as [|fuel IH]; intros i key Hi Hfuel Hlen.
  { replace (31 - i)%nat with 0%nat by lia. cbn [parse_tag_key]. loop_done. }
  cbn [parse_tag_key]. rewrite (key_len_drop s i). unfold TAG_KEY_SIZE.
  change (32 - 1)%nat with 31%nat.
  destruct (Z.eqb_spec (char_at s i) 0) as [Hz|Hnz]; cbn [negb andb orb].
  { loop_done. }
  destruct (Z.eqb_spec (char_at s i) 58) as [Hc|Hnc]; cbn [negb andb].
  { loop_done. }
  destruct (Nat.ltb_spec i 31) as [Hlt|Hge].
  2:{ replace (31 - i)%nat with 0%nat by lia. loop_done. }
  unfold store_at. destruct (decide (i < length key)%nat) as [_|]; [|lia].
  rewrite IH by (rewrite ?length_insert; lia).
  replace (Nat.min (31 - i) (S (key_len (drop (S i) s))))
    with (S (Nat.min (31 - S i) (key_len (drop (S i) s)))) by lia.
  set (m := Nat.min (31 - S i) (key_len (drop (S i) s))).
  rewrite (drop_char_at s i Hnz). cbn [take].
  rewrite take_insert_lt, drop_insert_lt by lia.
  replace (i + S m)%nat with (S i + m)%nat by lia.
  f_equal. f_equal.
  assert (Hk : exists x, key !! i = Some x) by (apply lookup_lt_is_Some_2; lia).
  destruct Hk as [x Hx]. rewrite (take_S_r key i x Hx).
  rewrite insert_app_r_alt by (rewrite length_take; lia).
  rewrite length_take, Nat.min_l, Nat.sub_diag by lia. cbn [insert list_insert].
  by rewrite <- app_assoc.
Qed.

Lemma parse_tag_value_spec (s : list Z) fuel : forall i j value,
  (j <= 63)%nat -> (63 - j <= fuel)%nat -> length value = 64%nat ->
  parse_tag_value s i j fuel value
  = Ok ((j + Nat.min (63 - j) (strlen (drop i s)))%nat,
        take j value
          ++ take (Nat.min (63 - j) (strlen (drop i s))) (drop i s)
          ++ drop (j + Nat.min (63 - j) (strlen (drop i s))) value).
Proof.
  induction fuel as [|fuel IH]; intros i j value Hj Hfuel Hlen.
  { replace (63 - j)%nat with 0%nat by lia. cbn [parse_tag_value]. loop_done. }
  cbn [parse_tag_value]. rewrite (strlen_drop s i). unfold TAG_VALUE_SIZE.
  change (64 - 1)%nat with 63%nat.
  destruct (Z.eqb_spec (char_at s i) 0) as [Hz|Hnz]; cbn [negb andb].
  { loop_done. }
  destruct (Nat.ltb_spec j 63) as [Hlt|Hge].
  2:{ replace (63 - j)%nat with 0%nat by lia. loop_done. }
  unfold store_at. destruct (decide (j < length value)%nat) as [_|]; [|lia].
  rewrite IH by (rewrite ?length_insert; lia).
  replace (Nat.min (63 - j) (S (strlen (drop (S i) s))))
    with (S (Nat.min (63 - S j) (strlen (drop (S i) s)))) by lia.
  set (m := Nat.min (63 - S j) (strlen (drop (S i) s))).
  rewrite (drop_char_at s i Hnz). cbn [take].
  rewrite take_insert_lt, drop_insert_lt by lia.
  replace (j + S m)%nat with (S j + m)%nat by lia.
  f_equal. f_equal.
  assert (Hk : exists x, value !! j = Some x) by (apply lookup_lt_is_Some_2; lia).
  destruct Hk as [x Hx]. rewrite (take_S_r value j x Hx).
  rewrite insert_app_r_alt by (rewrite length_take; lia).
  rewrite length_take, Nat.min_l, Nat.sub_diag by lia. cbn [insert list_insert].
  by rewrite <- app_assoc.
Qed.

Lemma take_key_len_chars (s : list Z) : forall k,
  (k <= key_len s)%nat ->
  Forall (fun c => c <> 0) (take k s) /\
  ((k < key_len s)%nat -> char_at s k <> 58).
Proof.
  induction s as [|c r IH]; intros k Hk.
  { cbn in Hk. rewrite take_nil. split; [constructor|cbn [key_len]; lia]. }
  cbn [key_len] in Hk |- *.
  destruct (Z.eqb_spec c 0) as [|Hc0]; cbn [orb] in *.
  { replace k with 0%nat by lia. split; [constructor|lia]. }
  destruct (Z.eqb_spec c 58) as [|Hc]; cbn [orb] in *.
  { replace k with 0%nat by lia. split; [constructor|lia]. }
  destruct k as [|k]; [split; [constructor|done]|].
  destruct (IH k ltac:(lia)) as [H1 H2].
  split; [by constructor|]. intros Hlt. apply H2. lia.
Qed.

Lemma key_len_le_length (s : list Z) : (key_len s <= length s)%nat.
Proof.
  induction s as [|c r IH]; cbn [key_len length]; [lia|].
  destruct ((c =? 0) || (c =? 58)); lia.
Qed.

(** X22: parse_tag never leaves the Tag's arrays and truncates.  For a
    Tag with a 32-byte key and a 64-byte value, parse_tag returns 1 and
    stores as key the characters before the first ':' (or the end) of the
    string, cut to 31, NUL-terminated.  The value is what follows the ':',
    cut to 63 and NUL-terminated, but only if the ':' comes within the first
    32 characters: a tag whose key part is longer than 31 characters gets an
    empty value, as does a string with no ':'. *)
Theorem parse_tag_splits (s : list Z) (tag : Tag) :
  length (tag_key tag) = TAG_KEY_SIZE ->
  length (tag_value tag) = TAG_VALUE_SIZE ->
  exists key value,
    parse_tag s tag = Ok (1, mkTag key value) /\
    length key = TAG_KEY_SIZE /\ length value = TAG_VALUE_SIZE /\
    c_string key = take 31 (take (key_len s) s) /\
    c_string value
    = if (key_len s <=? 31)%nat && (char_at s (key_len s) =? 58)
      then take 63 (c_string (drop (S (key_len s)) s))
      else [].
Proof.
  unfold TAG_KEY_SIZE, TAG_VALUE_SIZE. intros Hk Hv. unfold parse_tag.
  unfold TAG_KEY_SIZE, TAG_VALUE_SIZE.
  rewrite parse_tag_key_spec by (done || lia).
  rewrite drop_0, take_0, Nat.add_0_l, Nat.sub_0_r. cbn [app mbind Res_bind].
  set (k := Nat.min 31 (key_len s)).
  assert (Hkl : (k <= key_len s)%nat) by (subst k; lia).
  destruct (take_key_len_chars s k Hkl) as [Hnz Hcolon].
  assert (Hs : (k <= length s)%nat).
  { pose proof (key_len_le_length s). lia. }
  assert (Htk : length (take k s) = k) by (rewrite length_take; lia).
  assert (Hstore : store_at (take k s ++ drop k (tag_key tag)) k 0
                   = Ok (take k s ++ 0 :: drop (S k) (tag_key tag))).
  { assert (Hx : exists x, tag_key tag !! k = Some x)
      by (apply lookup_lt_is_Some_2; subst k; lia).
    destruct Hx as [x Hx]. rewrite (drop_S _ x k Hx).
    pose proof (store_at_middle (take k s) (drop (S k) (tag_key tag)) x 0) as H.
    by rewrite Htk in H. }
  rewrite Hstore. cbn [mbind Res_bind].
  assert (Hkey : c_string (take k s ++ 0 :: drop (S k) (tag_key tag))
                 = take 31 (take (key_len s) s)).
  { rewrite c_string_app_nul by done. by rewrite take_take. }
  assert (Hklen : length (take k s ++ 0 :: drop (S k) (tag_key tag)) = 32%nat).
  { rewrite length_app, Htk. cbn [length]. rewrite length_drop. subst k. lia. }
  assert (Hstore0 : forall v : list Z, length v = 64%nat ->
             store_at v 0 0 = Ok (0 :: drop 1 v)).
  { intros [|x v] Hl; [discriminate|]. reflexivity. }
  destruct (Z.eqb_spec (char_at s k) 58) as [Hc|Hnc]; cbn [negb].
  - (* a colon ends the key *)
    assert (Hkeq : k = key_len s).
    { destruct (decide (k < key_len s)%nat) as [Hlt|]; [|lia].
      by destruct (Hcolon Hlt). }
    rewrite parse_tag_value_spec by (done || lia).
    rewrite take_0, Nat.add_0_l, Nat.sub_0_r. cbn [app mbind Res_bind].
    set (m := Nat.min 63 (strlen (drop (S k) s))).
    assert (Hm : length (take m (drop (S k) s)) = m).
    { rewrite length_take. pose proof (strlen_le_length (drop (S k) s)).
      subst m. lia. }
    assert (Hstore2 : store_at (take m (drop (S k) s) ++ drop m (tag_value tag))
                        m 0
                      = Ok (take m (drop (S k) s)
                              ++ 0 :: drop (S m) (tag_value tag))).
    { assert (Hx : exists x, tag_value tag !! m = Some x)
        by (apply lookup_lt_is_Some_2; subst m; lia).
      destruct Hx as [x Hx]. rewrite (drop_S _ x m Hx).
      pose proof (store_at_middle (take m (drop (S k) s))
                    (drop (S m) (tag_value tag)) x 0) as H.
      by rewrite Hm in H. }
    rewrite Hstore2. cbn [mbind Res_bind].
    eexists _, _. split_and!; [reflexivity|exact Hklen| |exact Hkey|].
    + rewrite length_app, Hm. cbn [length]. rewrite length_drop. subst m. lia.
    + rewrite <- Hkeq.
      destruct (Nat.leb_spec k 31) as [_|Hgt]; [|subst k; lia].
      destruct (Z.eqb_spec (char_at s k) 58) as [_|]; [|done]. cbn [andb].
      assert (Hvnz : Forall (fun c => c <> 0) (take m (drop (S k) s))).
      { assert (Hsub : take m (drop (S k) s)
                       = take m (c_string (drop (S k) s))).
        { unfold c_string. rewrite take_take. f_equal. subst m. lia. }
        rewrite Hsub. apply Forall_take. apply c_string_no_nul. }
      rewrite c_string_app_nul by done.
      unfold c_string. rewrite take_take. f_equal.
  - (* no colon where the key loop stopped *)
    rewrite Hstore0 by done. cbn [mbind Res_bind].
    eexists _, _. split_and!; [reflexivity|exact Hklen| |exact Hkey|].
    + cbn [length]. rewrite length_drop. lia.
    + rewrite c_string_cons. cbn [Z.eqb].
      destruct (Nat.leb_spec (key_len s) 31) as [Hle|_]; [|done].
      replace (key_len s) with k by (subst k; lia).
      by destruct (Z.eqb_spec (char_at s k) 58).
Qed.

Lemma parse_tag_splits_witness :
  exists key value,
    parse_tag [116; 121; 112; 101; 58; 112; 110; 103; 0]
      (mkTag (replicate 32 7) (replicate 64 7))
    = Ok (1, mkTag key value) /\
    length key = TAG_KEY_SIZE /\ length value = TAG_VALUE_SIZE /\
    c_string key = [116; 121; 112; 101] /\
    c_string value = [112; 110; 103].
Proof.
  destruct (parse_tag_splits [116; 121; 112; 101; 58; 112; 110; 103; 0]
              (mkTag (replicate 32 7) (replicate 64 7)))
    as (key & value & Hrun & Hk & Hv & Hck & Hcv); [reflexivity|reflexivity|].
  exists key, value. split_and!; [exact Hrun|exact Hk|exact Hv| |].
  - rewrite Hck. reflexivity.
  - rewrite Hcv. reflexivity.
Defined.

(* --- strtok and the shell's tokenizer -------------------------------------- *)

Section Tokens.
Variable delim : list Z.
Let d := is_delim delim.

Lemma span_len_spec (f : Z -> bool) (s : list Z) :
  Forall (fun c => f c = true) (take (span_len f s) s) /\
  (span_len f s <= length s)%nat /\
  (forall x tl, drop (span_len f s) s = x :: tl -> f x = false).
Proof.
  induction s as [|c r IH]; cbn [span_len].
  { split_and!; [constructor|done|done]. }
  destruct (f c) eqn:Hc.
  - destruct IH as (H1 & H2 & H3). cbn [take drop length].
    split_and!; [by constructor|lia|done].
  - cbn [take drop length]. split_and!; [constructor|lia|].
    by intros x tl [= <- _].
Qed.

Lemma words_skip (s : list Z) : words d s = words d (drop (span_len d s) s).
Proof.
  induction s as [|c r IH]; [done|].
  cbn [span_len]. destruct (d c) eqn:Hc; [|done].
  cbn [drop words]. by rewrite Hc.
Qed.

Lemma words_token (s : list Z) x tl :
  s = x :: tl -> d x = false ->
  words d s
  = take (span_len (fun c => negb (d c)) s) s
      :: words d (drop (S (span_len (fun c => negb (d c)) s)) s) /\
  (1 <= span_len (fun c => negb (d c)) s)%nat.
Proof.
  revert x tl. induction s as [|c r IH]; intros x tl Hs Hx; [discriminate|].
  injection Hs as -> ->. cbn [span_len words]. rewrite Hx. cbn [negb].
  split; [|lia]. destruct tl as [|c' r'].
  { reflexivity. }
  destruct (d c') eqn:Hc'.
  { cbn [span_len negb take drop]. rewrite Hc'. cbn [negb take drop words].
    by rewrite Hc'. }
  destruct (IH c' r' eq_refl Hc') as [Hw _]. rewrite Hw.
  reflexivity.
Qed.

Lemma strtok_skip_spec (ds : list Z) : forall x tl p,
  Forall (fun c => c <> 0 /\ d c = true) ds -> (x = 0 \/ d x = false) ->
  strtok_skip delim (ds ++ x :: tl) p = Ok (p + length ds)%nat.
Proof.
  induction ds as [|c ds IH]; intros x tl p Hds Hx.
  { cbn [app strtok_skip length]. rewrite Nat.add_0_r.
    destruct Hx as [->|Hx]; [done|].
    unfold d, is_delim in Hx. rewrite Hx. by rewrite andb_false_r. }
  apply Forall_cons in Hds as [[Hc Hd] Hds]. cbn [app strtok_skip length].
  unfold d, is_delim in Hd. rewrite Hd.
  destruct (Z.eqb_spec c 0); [done|]. cbn [negb andb].
  rewrite IH by done. f_equal. lia.
Qed.

Lemma strtok_scan_spec (tok : list Z) : forall x tl p,
  Forall (fun c => c <> 0 /\ d c = false) tok -> (x = 0 \/ d x = true) ->
  strtok_scan delim (tok ++ x :: tl) p = Ok (p + length tok)%nat.
Proof.
  induction tok as [|c tok IH]; intros x tl p Htok Hx.
  { cbn [app strtok_scan length]. rewrite Nat.add_0_r.
    destruct Hx as [->|Hx]; [done|].
    unfold d, is_delim in Hx. apply negb_true_iff in Hx. rewrite Hx.
    by rewrite andb_false_r. }
  apply Forall_cons in Htok as [[Hc Hd] Htok]. cbn [app strtok_scan length].
  unfold d, is_delim in Hd. apply negb_false_iff in Hd. rewrite Hd.
  destruct (Z.eqb_spec c 0); [done|]. cbn [negb andb].
  rewrite IH by done. f_equal. lia.
Qed.

Lemma load_byte_drop (B : list Z) p x tl :
  drop p B = x :: tl -> load_byte B p = Ok x.
Proof.
  intros Hd. unfold load_byte.
  assert (H : B !! p = Some x).
  { pose proof (lookup_drop B p 0) as H. rewrite Hd, Nat.add_0_r in H.
    by rewrite <- H. }
  by rewrite H.
Qed.

Lemma drop_split (B : list Z) p x tl :
  drop p B = x :: tl -> B = take p B ++ x :: tl /\ length (take p B) = p.
Proof.
  intros Hd. split.
  - by rewrite <- Hd, take_drop.
  - rewrite length_take. apply Nat.min_l.
    destruct (decide (p <= length B)%nat); [done|].
    rewrite drop_ge in Hd by lia. discriminate.
Qed.

(** One call of strtok on a buffer that holds text from the position on:
    either no token is left, or the next word is returned, terminated in
    place, and the position moves behind it; nothing before the old
    position is written. *)
Lemma strtok_next_step p B rest :
  text_at p B rest ->
  (exists p',
     strtok_next delim (mkStrtok B (Some p)) = Ok (None, mkStrtok B (Some p')) /\
     words d rest = [] /\ text_at p' B [] /\ (p <= p')%nat /\
     (rest = [] -> p' = p)) \/
  (exists t tok p' B' rest',
     strtok_next delim (mkStrtok B (Some p))
     = Ok (Some t, mkStrtok B' (Some p')) /\
     words d rest = tok :: words d rest' /\ text_at p' B' rest' /\
     (p <= p')%nat /\ take p B' = take p B /\ length B' = length B /\
     token_at p' rest' B' t tok /\ rest <> []).
Proof.
  intros [Hnz [junk Hdrop]]. unfold strtok_next.
  cbn [strtok_pos strtok_buffer].
  destruct (decide (rest = [])) as [->|Hne].
  { left. exists p. rewrite (load_byte_drop B p 0 junk Hdrop).
    cbn [mbind Res_bind Z.eqb].
    split_and!; [done|done| |done|done]. split; [constructor|by exists junk]. }
  assert (Hc0 : exists c0 tl0, drop p B = c0 :: tl0 /\ c0 <> 0).
  { destruct rest as [|c0 r0]; [done|]. exists c0, (r0 ++ 0 :: junk).
    split; [exact Hdrop|]. by apply Forall_cons in Hnz as [? _]. }
  destruct Hc0 as (c0 & tl0 & Hd0 & Hc0).
  rewrite (load_byte_drop B p c0 tl0 Hd0). cbn [mbind Res_bind].
  destruct (Z.eqb_spec c0 0) as [|_]; [done|].
  (* the leading delimiters *)
  destruct (span_len_spec d rest) as (Hds & Hale & Hafter).
  set (a := span_len d rest) in *.
  assert (Hla : length (take a rest) = a) by (rewrite length_take; lia).
  assert (Hskip : strtok_skip delim (drop p B) p = Ok (p + a)%nat).
  { assert (Hdsok : Forall (fun c => c <> 0 /\ d c = true) (take a rest)).
    { apply Forall_and. split; [by apply Forall_take|exact Hds]. }
    assert (Hnext : exists x tl, drop a rest ++ 0 :: junk = x :: tl /\
                                 (x = 0 \/ d x = false)).
    { destruct (drop a rest) as [|y r1] eqn:Hr1.
      - exists 0, junk. split; [done|by left].
      - exists y, (r1 ++ 0 :: junk). split; [done|]. right. by apply (Hafter y r1). }
    destruct Hnext as (x & tl & Hxt & Hx).
    rewrite Hdrop. rewrite <- (take_drop a rest) at 1. rewrite <- app_assoc, Hxt.
    pose proof (strtok_skip_spec (take a rest) x tl p Hdsok Hx) as H.
    by rewrite Hla in H. }
  rewrite Hskip. cbn [mbind Res_bind].
  assert (Hdrop1 : drop (p + a) B = drop a rest ++ 0 :: junk).
  { rewrite <- drop_drop, Hdrop. rewrite drop_app_le by lia. reflexivity. }
  assert (Hnz1 : Forall (fun c => c <> 0) (drop a rest)) by (by apply Forall_drop).
  rewrite (words_skip rest). fold a.
  destruct (drop a rest) as [|y r1] eqn:Hr1.
  { (* nothing but delimiters *)
    left. exists (p + a)%nat.
    rewrite (load_byte_drop B (p + a) 0 junk Hdrop1). cbn [mbind Res_bind Z.eqb].
    split_and!; [done|done| |lia|done]. split; [constructor|by exists junk]. }
  right.
  assert (Hy : y <> 0) by (by apply Forall_cons in Hnz1 as [? _]).
  assert (Hdy : d y = false) by (by apply (Hafter y r1)).
  rewrite (load_byte_drop B (p + a) y (r1 ++ 0 :: junk) Hdrop1).
  cbn [mbind Res_bind]. destruct (Z.eqb_spec y 0) as [|_]; [done|].
  rewrite <- Hr1 in *.
  set (rest1 := drop a rest) in *.
  (* the token *)
  destruct (span_len_spec (fun c => negb (d c)) rest1) as (Htk & Hble & Hend).
  destruct (words_token rest1 y r1 Hr1 Hdy) as [Hw Hb1].
  set (b := span_len (fun c => negb (d c)) rest1) in *.
  set (tok := take b rest1) in *.
  assert (Hlt : length tok = b) by (subst tok; rewrite length_take; lia).
  assert (Htoknz : Forall (fun c => c <> 0) tok) by (by apply Forall_take).
  assert (Hscan : strtok_scan delim (drop (p + a) B) (p + a)
                  = Ok (p + a + b)%nat).
  { assert (Htokd : Forall (fun c => c <> 0 /\ d c = false) tok).
    { apply Forall_and. split; [done|].
      eapply Forall_impl; [exact Htk|]. intros x Hx. by apply negb_true_iff. }
    assert (Hnext : exists x tl, drop b rest1 ++ 0 :: junk = x :: tl /\
                                 (x = 0 \/ d x = true)).
    { destruct (drop b rest1) as [|z r3] eqn:Hr3.
      - exists 0, junk. split; [done|by left].
      - exists z, (r3 ++ 0 :: junk). split; [done|]. right.
        apply negb_false_iff. by apply (Hend z r3). }
    destruct Hnext as (x & tl & Hxt & Hx).
    rewrite Hdrop1. rewrite <- (take_drop b rest1) at 1. fold tok.
    rewrite <- app_assoc, Hxt.
    pose proof (strtok_scan_spec tok x tl (p + a) Htokd Hx) as H.
    by rewrite Hlt in H. }
  rewrite Hscan. cbn [mbind Res_bind].
  assert (Hdrop2 : drop (p + a + b) B = drop b rest1 ++ 0 :: junk).
  { rewrite <- drop_drop, Hdrop1. rewrite drop_app_le by lia. reflexivity. }
  assert (Htake : take (S b) (drop (p + a) B) = tok ++ take 1 (drop b rest1 ++ 0 :: junk)).
  { rewrite Hdrop1. rewrite <- (take_drop b rest1) at 1. fold tok.
    rewrite <- app_assoc.
    replace (S b) with (length tok + 1)%nat by lia.
    by rewrite take_app_add. }
  destruct (drop b rest1) as [|z rest3] eqn:Hr3.
  - (* the token ends the text *)
    rewrite (load_byte_drop B (p + a + b) 0 junk Hdrop2).
    cbn [mbind Res_bind Z.eqb].
    exists (p + a)%nat, tok, (p + a + b)%nat, B, [].
    split_and!; [reflexivity| | |lia|done|done| |done].
    + rewrite Hw. f_equal.
      replace (S b) with (b + 1)%nat by lia.
      by rewrite <- drop_drop, Hr3.
    + split; [constructor|by exists junk].
    + split_and!; [done| |right; split; [lia|done]].
      rewrite Hlt, Htake. reflexivity.
  - (* a delimiter follows: it is overwritten *)
    assert (Hz : z <> 0).
    { assert (Hin : Forall (fun c => c <> 0) (drop b rest1)) by (by apply Forall_drop).
      rewrite Hr3 in Hin. by apply Forall_cons in Hin as [? _]. }
    rewrite (load_byte_drop B (p + a + b) z (rest3 ++ 0 :: junk) Hdrop2).
    cbn [mbind Res_bind]. destruct (Z.eqb_spec z 0) as [|_]; [done|].
    destruct (drop_split B (p + a + b) z (rest3 ++ 0 :: junk) Hdrop2)
      as [HB Hlen2].
    set (pre := take (p + a + b) B) in *.
    assert (Hst : store_at B (p + a + b) 0 = Ok (pre ++ 0 :: rest3 ++ 0 :: junk)).
    { rewrite HB at 1. rewrite <- Hlen2 at 1. apply store_at_middle. }
    rewrite Hst. cbn [mbind Res_bind].
    exists (p + a)%nat, tok, (S (p + a + b)), (pre ++ 0 :: rest3 ++ 0 :: junk), rest3.
    split_and!; [reflexivity| | |lia| | | |done].
    + rewrite Hw. f_equal.
      replace (S b) with (b + 1)%nat by lia.
      by rewrite <- drop_drop, Hr3.
    + split.
      * assert (Hin : Forall (fun c => c <> 0) (drop b rest1))
          by (by apply Forall_drop).
        rewrite Hr3 in Hin. by apply Forall_cons in Hin as [_ ?].
      * exists junk. rewrite (cons_middle 0 pre), app_assoc.
        rewrite drop_app_length'; [done|].
        rewrite length_app, Hlen2. cbn [length]. lia.
    + rewrite take_app_le by lia. subst pre. rewrite take_take. f_equal. lia.
    + transitivity (length (pre ++ z :: rest3 ++ 0 :: junk));
        [by rewrite !length_app|by rewrite <- HB].
    + split_and!; [done| |left; lia].
      rewrite Hlt.
      assert (Hpre : pre = take (p + a) B ++ tok).
      { subst pre tok. rewrite <- (take_take_drop B (p + a) b).
        f_equal. rewrite Hdrop1. by rewrite take_app_le by lia. }
      pose proof Hlen2 as HlB. unfold pre in HlB. rewrite length_take in HlB.
      rewrite Hpre, <- app_assoc.
      rewrite drop_app_length' by (rewrite length_take; lia).
      rewrite (cons_middle 0 tok), app_assoc.
      rewrite take_app_length'; [done|].
      rewrite length_app. cbn [length]. lia.
Qed.

End Tokens.

Lemma token_at_read p rest (B : list Z) t tok :
  token_at p rest B t tok -> c_string (drop t B) = tok.
Proof.
  intros (Hnz & Htake & _).
  rewrite <- (take_drop (S (length tok)) (drop t B)), Htake, <- app_assoc.
  by apply c_string_app_nul.
Qed.

Lemma token_at_kept p p' rest rest' (B B' : list Z) t tok :
  token_at p rest B t tok -> rest <> [] ->
  take p B' = take p B -> (p <= p')%nat ->
  token_at p' rest' B' t tok.
Proof.
  intros (Hnz & Htake & [Hlt|[_ ->]]) Hne Hsame Hle; [|done].
  split_and!; [done| |left; lia].
  rewrite <- Htake, !take_drop_commute.
  f_equal.
  rewrite <- (Nat.min_l (t + S (length tok)) p) by lia.
  by rewrite <- !take_take, Hsame.
Qed.

Lemma token_at_end p p' rest (B : list Z) t tok :
  token_at p rest B t tok -> (p <= p')%nat -> (rest = [] -> p' = p) ->
  token_at p' [] B t tok.
Proof.
  intros (Hnz & Htake & [Hlt|[Heq ->]]) Hle Hsame.
  - split_and!; [done|done|left; lia].
  - split_and!; [done|done|]. right. rewrite (Hsame eq_refl). by split.
Qed.

Lemma tokens_read p rest (B : list Z) args toks :
  Forall2 (token_at p rest B) args toks ->
  (fun t => c_string (drop t B)) <$> args = toks.
Proof.
  induction 1 as [|t tok args toks Ht _ IH]; [done|].
  rewrite fmap_cons, IH. f_equal. by eapply token_at_read.
Qed.

(** The tokenizer loop of the shell, started with the result of a strtok
    call: it collects the pending token and the words still in the buffer,
    up to MAX_ARGS in all. *)
Lemma tokenize_loop_spec fuel : forall tokopt args toks pend p B rest,
  text_at p B rest ->
  Forall2 (token_at p rest B) args toks ->
  match tokopt with
  | None => pend = []
  | Some t =>
      exists tok, token_at p rest B t tok /\
                  pend = tok :: words (is_delim [32; 9]) rest
  end ->
  (length args <= MAX_ARGS)%nat -> (MAX_ARGS < fuel + length args)%nat ->
  exists args' st',
    tokenize_loop fuel tokopt args (mkStrtok B (Some p)) = Ok (args', st') /\
    (fun t => c_string (drop t (strtok_buffer st'))) <$> args'
    = take MAX_ARGS (toks ++ pend).
Proof.
  induction fuel as [|fuel IH];
    intros tokopt args toks pend p B rest Htext Hargs Hpend Hmax Hfuel; [lia|].
  cbn [tokenize_loop].
  pose proof (tokens_read _ _ _ _ _ Hargs) as Hread.
  pose proof (Forall2_length _ _ _ Hargs) as Hlen.
  destruct tokopt as [t|].
  - destruct Hpend as (tok & Htok & ->).
    destruct (Nat.ltb_spec (length args) MAX_ARGS) as [Hlt|Hge].
    + change (strtok None [32; 9] (mkStrtok B (Some p)))
        with (strtok_next [32; 9] (mkStrtok B (Some p))).
      destruct (strtok_next_step [32; 9] p B rest Htext)
        as [(p' & Hrun & Hw & Htext' & Hle & Hsame)
           |(t' & tok' & p' & B' & rest' & Hrun & Hw & Htext' & Hle & Hsame
             & HlenB & Htok' & Hne)].
      * rewrite Hrun. rewrite Hw.
        destruct (IH None (args ++ [t]) (toks ++ [tok]) [] p' B [] Htext')
          as (args' & st' & Hloop & Hres).
        { apply Forall2_app.
          - eapply Forall2_impl; [exact Hargs|]. intros a b Hab.
            by eapply token_at_end.
          - constructor; [|constructor]. by eapply token_at_end. }
        { reflexivity. }
        { rewrite length_app. cbn [length]. lia. }
        { rewrite length_app. cbn [length]. lia. }
        exists args', st'. split; [exact Hloop|].
        rewrite Hres. by rewrite <- !app_assoc.
      * rewrite Hrun. rewrite Hw.
        destruct (IH (Some t') (args ++ [t]) (toks ++ [tok])
                    (tok' :: words (is_delim [32; 9]) rest') p' B' rest' Htext')
          as (args' & st' & Hloop & Hres).
        { apply Forall2_app.
          - eapply Forall2_impl; [exact Hargs|]. intros a b Hab.
            by eapply token_at_kept.
          - constructor; [|constructor]. by eapply token_at_kept. }
        { by exists tok'. }
        { rewrite length_app. cbn [length]. lia. }
        { rewrite length_app. cbn [length]. lia. }
        exists args', st'. split; [exact Hloop|].
        rewrite Hres. by rewrite <- !app_assoc.
    + exists args, (mkStrtok B (Some p)). split; [reflexivity|].
      cbn [strtok_buffer]. rewrite Hread.
      rewrite take_app_length'; [done|lia].
  - subst pend. exists args, (mkStrtok B (Some p)). split; [reflexivity|].
    cbn [strtok_buffer]. rewrite Hread, app_nil_r.
    rewrite take_ge; [done|lia].
Qed.

Lemma strtok_init_text (s : list Z) st :
  length (strtok_buffer st) = 256%nat ->
  exists B0,
    strtok_init (Some s) st = Ok (mkStrtok B0 (Some 0%nat)) /\
    text_at 0 B0 (take 255 (c_string s)).
Proof.
  intros Hlen. unfold strtok_init.
  destruct (strncpy_cases (strtok_buffer st) s 255) as (Hs & _ & Hl).
  destruct (decide (strlen s < 255)%nat) as [Hlt|Hge].
  - rewrite Hs by lia. cbn [mbind Res_bind].
    rewrite drop_ge by lia. rewrite app_nil_r.
    replace (256 - strlen s)%nat with (S (255 - strlen s)) by lia.
    cbn [replicate].
    set (B0 := c_string s ++ 0 :: replicate (255 - strlen s) 0).
    assert (Hst : store_at B0 255 0 = Ok B0).
    { unfold store_at.
      destruct (decide (255 < length B0)%nat) as [_|Hn].
      - f_equal. apply list_insert_id. subst B0.
        rewrite lookup_app_r by (rewrite c_string_length; lia).
        rewrite c_string_length.
        replace (255 - strlen s)%nat with (S (254 - strlen s)) by lia.
        cbn [lookup list_lookup]. apply lookup_replicate_2. lia.
      - subst B0. rewrite length_app, c_string_length in Hn.
        cbn [length] in Hn. rewrite length_replicate in Hn. lia. }
    rewrite Hst. cbn [mbind Res_bind]. exists B0. split; [reflexivity|].
    rewrite take_ge by (rewrite c_string_length; lia).
    split; [apply c_string_no_nul|]. eexists. by rewrite drop_0.
  - rewrite Hl by lia. cbn [mbind Res_bind].
    assert (Hls : (255 <= length s)%nat) by (pose proof (strlen_le_length s); lia).
    assert (Hx : exists x, drop 255 (strtok_buffer st) = [x]).
    { destruct (drop 255 (strtok_buffer st)) as [|x [|y l]] eqn:Hd.
      - apply (f_equal length) in Hd. rewrite length_drop in Hd. cbn in Hd. lia.
      - by exists x.
      - apply (f_equal length) in Hd. rewrite length_drop in Hd. cbn in Hd. lia. }
    destruct Hx as [x Hx]. rewrite Hx.
    assert (Hst : store_at (take 255 s ++ [x]) 255 0 = Ok (take 255 s ++ [0])).
    { pose proof (store_at_middle (take 255 s) [] x 0) as H.
      rewrite length_take, Nat.min_l in H by lia. exact H. }
    rewrite Hst. cbn [mbind Res_bind]. exists (take 255 s ++ [0]).
    split; [reflexivity|].
    assert (Hc : take 255 (c_string s) = take 255 s).
    { unfold c_string. rewrite take_take. f_equal. lia. }
    rewrite Hc. split.
    + rewrite <- Hc. apply Forall_take. apply c_string_no_nul.
    + exists []. by rewrite drop_0.
Qed.

(** X23: the shell's tokenizer.  Whatever the strtok buffer held before,
    the arguments parse_and_execute finds in a line are the words of the
    line: the maximal runs of characters other than space and tab, in order,
    of the first 255 characters after the leading blanks, and at most the
    first MAX_ARGS = 16 of them; strtok and the loop never read or write
    outside the 256-byte buffer. *)
Theorem parse_args_words (line : list Z) st :
  length (strtok_buffer st) = 256%nat ->
  parse_args line st
  = Ok (take MAX_ARGS
          (words (is_delim [32; 9]) (take 255 (c_string (skip_blanks line))))) /\
  forall c, is_delim [32; 9] c = ((c =? 32) || (c =? 9)).
Proof.
  intros Hlen. split.
  2:{ intros c. unfold is_delim. cbn [contains_char].
      change (32 =? 0) with false. change (9 =? 0) with false. cbn match.
      rewrite (Z.eqb_sym 32 c), (Z.eqb_sym 9 c).
      by destruct (c =? 32), (c =? 9). }
  unfold parse_args. set (l := skip_blanks line).
  destruct (Z.eqb_spec (hd 0 l) 0) as [Hz|Hnz].
  { by rewrite (c_string_hd_zero l Hz). }
  unfold strtok.
  destruct (strtok_init_text l st Hlen) as (B0 & Hinit & Htext).
  rewrite Hinit. cbn [mbind Res_bind].
  destruct (strtok_next_step [32; 9] 0 B0 _ Htext)
    as [(p' & Hrun & Hw & Htext' & Hle & Hsame)
       |(t & tok & p' & B' & rest' & Hrun & Hw & Htext' & Hle & Hsame
         & HlenB & Htok & Hne)].
  - rewrite Hrun, Hw. reflexivity.
  - rewrite Hrun, Hw.
    destruct (tokenize_loop_spec (S MAX_ARGS) (Some t) [] []
                (tok :: words (is_delim [32; 9]) rest') p' B' rest' Htext')
      as (args' & st' & Hloop & Hres).
    { constructor. }
    { by exists tok. }
    { cbn [length]. lia. }
    { cbn [length]. lia. }
    rewrite Hloop. by rewrite Hres.
Qed.

Lemma parse_args_words_witness :
  parse_args [32; 115; 97; 121; 32; 32; 104; 105; 9; 121; 111; 117; 0]
    (mkStrtok (replicate 256 7) None)
  = Ok [[115; 97; 121]; [104; 105]; [121; 111; 117]].
Proof.
  destruct (parse_args_words
              [32; 115; 97; 121; 32; 32; 104; 105; 9; 121; 111; 117; 0]
              (mkStrtok (replicate 256 7) None)) as [Hrun _].
  - reflexivity.
  - rewrite Hrun. reflexivity.
Defined.

End StringFacts.

(* ========================================================================= *)
(* From the user library through the ring to the deck                        *)
(* ========================================================================= *)

Section EndToEnd.
Import Ulib HardwareDeck UlibString.

Lemma le_bytes_is_byte w : forall v, Forall is_byte (le_bytes w v).
Proof.
  induction w as [|w IH]; intros v; cbn [le_bytes]; constructor; [|apply IH].
  unfold is_byte. pose proof (Z.mod_pos_bound v 256). lia.
Qed.

Lemma read_le_at w off v (pre post : list Z) :
  length pre = off -> 0 <= v < 2 ^ (8 * Z.of_nat w) ->
  read_le w off (pre ++ le_bytes w v ++ post) = v.
Proof.
  intros Hpre Hv. unfold read_le.
  rewrite drop_app_length' by done.
  rewrite take_app_length' by (by rewrite le_bytes_length).
  rewrite le_value_le_bytes, Z.mod_mod by lia. by apply Z.mod_small.
Qed.

(** What the consumer reads from a slot that holds the first 256 bytes of an
    event and 8 older bytes. *)
Lemma transported_image ev (tail8 : list Z) :
  Event_wf ev -> length tail8 = 8%nat ->
  Event_of_bytes (take 256 (Event_bytes ev) ++ tail8)
  = {| ev_id := ev_id ev; ev_user_id := ev_user_id ev; ev_type := ev_type ev;
       ev_pad := ev_pad ev; ev_timestamp := ev_timestamp ev;
       ev_route := ev_route ev; ev_data := take 216 (ev_data ev) ++ tail8 |}.
Proof.
  intros [Hid Huid Hty Hpad Hts Hrl _ Hdl _] Ht.
  destruct ev as [id uid ty pad ts route data].
  cbn [ev_id ev_user_id ev_type ev_pad ev_timestamp ev_route ev_data] in *.
  unfold Event_bytes.
  cbn [ev_id ev_user_id ev_type ev_pad ev_timestamp ev_route ev_data].
  set (A := le_bytes 8 id). set (B := le_bytes 8 uid). set (C := le_bytes 4 ty).
  set (P := le_bytes 4 pad). set (E := le_bytes 8 ts).
  assert (HA : length A = 8%nat) by apply le_bytes_length.
  assert (HB : length B = 8%nat) by apply le_bytes_length.
  assert (HC : length C = 4%nat) by apply le_bytes_length.
  assert (HP : length P = 4%nat) by apply le_bytes_length.
  assert (HE : length E = 8%nat) by apply le_bytes_length.
  assert (Hm : take 256 (A ++ B ++ C ++ P ++ E ++ route ++ data) ++ tail8
               = A ++ B ++ C ++ P ++ E ++ route ++ take 216 data ++ tail8).
  { rewrite !app_assoc.
    rewrite (take_app_add' _ data 40 216) by (rewrite !length_app; lia).
    by rewrite <- !app_assoc. }
  unfold Event_of_bytes. rewrite Hm. f_equal.
  - apply (read_le_at 8 0 id []); [done|exact Hid].
  - apply (read_le_at 8 8 uid A); [done|exact Huid].
  - rewrite (app_assoc A B). apply (read_le_at 4 16 ty (A ++ B));
      [rewrite length_app; lia|exact Hty].
  - rewrite (app_assoc A B), (app_assoc (A ++ B) C).
    apply (read_le_at 4 20 pad ((A ++ B) ++ C)); [rewrite !length_app; lia|exact Hpad].
  - rewrite (app_assoc A B), (app_assoc (A ++ B) C), (app_assoc _ P).
    apply (read_le_at 8 24 ts (((A ++ B) ++ C) ++ P));
      [rewrite !length_app; lia|exact Hts].
  - rewrite (app_assoc A B), (app_assoc (A ++ B) C), (app_assoc _ P),
      (app_assoc _ E).
    rewrite drop_app_length' by (rewrite !length_app; lia).
    by rewrite take_app_length'.
  - rewrite (app_assoc A B), (app_assoc (A ++ B) C), (app_assoc _ P),
      (app_assoc _ E), (app_assoc _ route).
    rewrite drop_app_length' by (rewrite !length_app; lia).
    apply take_ge. rewrite length_app, length_take. lia.
Qed.

Lemma transported_spec ev r slot :
  Event_wf ev -> ring_wf r -> ring_tail r - ring_head r < 256 ->
  ring_slots r !! Z.to_nat (Z.land (ring_tail r) 255) = Some slot ->
  length slot = 264%nat ->
  transported ev r
  = Some {| ev_id := ev_id ev; ev_user_id := ev_user_id ev;
            ev_type := ev_type ev; ev_pad := ev_pad ev;
            ev_timestamp := ev_timestamp ev; ev_route := ev_route ev;
            ev_data := take 216 (ev_data ev) ++ drop 256 slot |}.
Proof.
  intros Hwf Hr Hroom Hslot Hlen. unfold transported.
  assert (Hw : wrap64 (ring_tail r - ring_head r) < 256).
  { destruct Hr as (H0 & Hle & Hcap & Hmax). rewrite wrap64_small; lia. }
  pose proof (push_event_slot_image ev r slot Hwf Hw Hslot) as Himg.
  rewrite push_event_room in Himg |- * by done.
  cbn [snd] in Himg. cbn [Z.eqb].
  rewrite Himg by (unfold sizeof_Event, MAX_ROUTING_STEPS, EVENT_DATA_SIZE; lia).
  cbn [fmap option_fmap option_map]. f_equal.
  apply transported_image; [done|]. rewrite length_drop. lia.
Qed.

Lemma execute_event_build_fields type deck_prefix payload payload_size id ev :
  execute_event_build type deck_prefix payload payload_size id = Ok ev ->
  ev_id ev = id /\ ev_user_id ev = 1 /\ ev_type ev = type /\ ev_pad ev = 0 /\
  ev_timestamp ev = 0 /\ ev_route ev = [deck_prefix; 0; 0; 0; 0; 0; 0; 0].
Proof.
  unfold execute_event_build.
  destruct (match payload with Some _ => _ | None => _ end) as [data| |];
    cbn [mbind Res_bind]; try discriminate.
  intros [= <-]. by split_and!.
Qed.

Lemma built_event_wf type deck_prefix payload payload_size id ev (data : list Z) :
  execute_event_build type deck_prefix payload payload_size id = Ok ev ->
  ev_data ev = data -> length data = 224%nat -> Forall is_byte data ->
  0 <= id < 2 ^ 64 -> 0 <= type < 2 ^ 32 -> 0 <= deck_prefix < 256 ->
  Event_wf ev.
Proof.
  intros Hb Hd Hlen Hbytes Hid Hty Hp.
  destruct (execute_event_build_fields _ _ _ _ _ _ Hb)
    as (E1 & E2 & E3 & E4 & E5 & E6).
  split; rewrite ?E1, ?E2, ?E3, ?E4, ?E5, ?E6, ?Hd; try done.
  repeat constructor; unfold is_byte; lia.
Qed.

(** X15: what a push delivers.  For every well-formed event pushed to a
    ring with room, the consumer finds in the slot the event's header and
    the first 216 bytes of its payload, followed by the 8 bytes the slot held
    before at offsets 256..263; the push returns 1, advances tail by one and
    writes no other slot. *)
Theorem event_transport ev r slot :
  Event_wf ev -> ring_wf r -> ring_tail r - ring_head r < 256 ->
  ring_slots r !! Z.to_nat (Z.land (ring_tail r) 255) = Some slot ->
  length slot = 264%nat ->
  transported ev r
  = Some {| ev_id := ev_id ev; ev_user_id := ev_user_id ev;
            ev_type := ev_type ev; ev_pad := ev_pad ev;
            ev_timestamp := ev_timestamp ev; ev_route := ev_route ev;
            ev_data := take 216 (ev_data ev) ++ drop 256 slot |} /\
  (push_event ev r).1 = 1 /\
  ring_head (push_event ev r).2 = ring_head r /\
  ring_tail (push_event ev r).2 = wrap64 (ring_tail r + 1) /\
  forall k, k <> Z.to_nat (Z.land (ring_tail r) 255) ->
    ring_slots (push_event ev r).2 !! k = ring_slots r !! k.
Proof.
  intros Hwf Hr Hroom Hslot Hlen.
  split; [by apply transported_spec|].
  rewrite push_event_room by done. cbn [fst snd ring_head ring_tail ring_slots].
  split_and!; [reflexivity|reflexivity|reflexivity|].
  intros k Hk. by rewrite list_lookup_alter_ne.
Qed.

Lemma event_transport_witness :
  transported full_payload_event stale_ring
  = Some (event_of EVENT_CONSOLE_WRITE (replicate 216 65 ++ replicate 8 85)).
Proof.
  destruct (event_transport full_payload_event stale_ring stale_slot) as [Ht _].
  - split; try (vm_compute; split; [discriminate|reflexivity]);
      try (vm_compute; reflexivity).
    + unfold full_payload_event, event_of. cbn [ev_route].
      repeat (constructor; [vm_compute; split; [discriminate|reflexivity]|]).
      constructor.
    + unfold full_payload_event, event_of. cbn [ev_data].
      apply Forall_app. split; apply Forall_replicate;
        vm_compute; (split; [discriminate|reflexivity]).
  - vm_compute. split_and!; discriminate || reflexivity.
  - reflexivity.
  - reflexivity.
  - reflexivity.
  - rewrite Ht. vm_compute. reflexivity.
Defined.

Lemma with_entry_lookup e ev st :
  entries (with_entry e ev st) !! e
  = Some (mkRoutingEntry ev EVENT_STATUS_PROCESSING (ev_id ev)).
Proof. unfold with_entry, set_entries. cbn [entries]. apply lookup_insert_eq. Qed.

(** X16: print reaches the console.  For a string of 1 to 212 characters
    (bytes), print builds a console-write event that fits the part of the
    payload the ring transports; whatever the slot held before, the deck,
    handed the event read from the slot, prints exactly the characters of
    the string, in order, and completes the entry with their number. *)
Theorem print_reaches_console (s : list Z) id r slot e st now :
  (1 <= strlen s <= 212)%nat -> Forall is_byte (c_string s) ->
  0 <= id < 2 ^ 64 ->
  ring_wf r -> ring_tail r - ring_head r < 256 ->
  ring_slots r !! Z.to_nat (Z.land (ring_tail r) 255) = Some slot ->
  length slot = 264%nat ->
  exists payload ev ev',
    print_payload s = Ok (payload, 4 + Z.of_nat (strlen s)) /\
    execute_event_build EVENT_CONSOLE_WRITE 3 (Some payload)
      (4 + Z.of_nat (strlen s)) id = Ok ev /\
    transported ev r = Some ev' /\
    exists st',
      hardware_deck_process (Some e) now (with_entry e ev' st) = Ok (1, st') /\
      vga_log st'
      = vga_log st ++ (console_call VGA_DEFAULT <$> c_string s)
        ++ [VgaUpdateCursor] /\
      deck_log st'
      = deck_log st
        ++ [CallComplete e DECK_PREFIX_HARDWARE (RValue (Z.of_nat (strlen s)))
              RESULT_TYPE_VALUE].
Proof.
  intros Hn Hbytes Hid Hr Hroom Hslot Hlen.
  pose proof (print_payload_spec s) as Hpay. cbn zeta in Hpay.
  rewrite Nat.min_l in Hpay by lia.
  fold (c_string s) in Hpay.
  set (n := strlen s) in *. set (chars := c_string s) in *.
  assert (Hcl : length chars = n).
  { subst chars n. unfold c_string. rewrite length_take.
    pose proof (strlen_le_length s). lia. }
  pose proof (c_string_no_nul s) as Hnz. fold chars in Hnz.
  set (L4 := le_bytes 4 (Z.of_nat n)) in *.
  assert (HL4 : length L4 = 4%nat) by apply le_bytes_length.
  set (payload := L4 ++ chars ++ replicate (220 - n) 0) in *.
  destruct (execute_event_build_copy EVENT_CONSOLE_WRITE 3 payload
              (4 + Z.of_nat n) id) as (ev & Hb & Hdata).
  { unfold EVENT_DATA_SIZE. lia. }
  { subst payload. rewrite !length_app, length_replicate. lia. }
  assert (Hdata' : ev_data ev = payload).
  { rewrite Hdata. subst payload.
    replace (Z.to_nat (4 + Z.of_nat n)) with (4 + n)%nat by lia.
    rewrite (take_app_add' L4 _ 4 n) by done.
    rewrite take_app_length' by done.
    rewrite <- app_assoc. by replace (224 - (4 + n))%nat with (220 - n)%nat by lia. }
  assert (Hwf : Event_wf ev).
  { apply (built_event_wf _ _ _ _ _ _ payload Hb Hdata').
    - subst payload. rewrite !length_app, length_replicate. lia.
    - subst payload. rewrite !Forall_app. split_and!.
      + apply le_bytes_is_byte.
      + exact Hbytes.
      + apply Forall_replicate. unfold is_byte. lia.
    - exact Hid.
    - unfold EVENT_CONSOLE_WRITE. change (2 ^ 32) with 4294967296. lia.
    - lia. }
  pose proof (transported_spec ev r slot Hwf Hr Hroom Hslot Hlen) as Htr.
  destruct (execute_event_build_fields _ _ _ _ _ _ Hb)
    as (E1 & E2 & E3 & E4 & E5 & E6).
  set (ev' := {| ev_id := ev_id ev; ev_user_id := ev_user_id ev;
                 ev_type := ev_type ev; ev_pad := ev_pad ev;
                 ev_timestamp := ev_timestamp ev; ev_route := ev_route ev;
                 ev_data := take 216 (ev_data ev) ++ drop 256 slot |}) in *.
  assert (Hd' : ev_data ev'
                = L4 ++ chars ++ replicate (212 - n) 0 ++ drop 256 slot).
  { subst ev'. cbn [ev_data]. rewrite Hdata'. subst payload.
    replace 216%nat with (4 + (n + (212 - n)))%nat by lia.
    rewrite (take_app_add' L4 _ 4) by done.
    rewrite (take_app_add' chars _ n) by done.
    rewrite take_replicate, Nat.min_l by lia.
    by rewrite <- !app_assoc. }
  exists payload, ev, ev'. split_and!; [exact Hpay|exact Hb|exact Htr|].
  pose proof (with_entry_lookup e ev' st) as He.
  destruct (process_dispatch e _ now (with_entry e ev' st) He)
    as (_&_&_&_&_&_&_&_& Hcase &_).
  cbn [event_copy] in Hcase. rewrite (Hcase E3). clear Hcase.
  assert (Hsize : read_le 4 0 (ev_data ev') = Z.of_nat n).
  { rewrite Hd'. apply read_le_le_bytes.
    change (2 ^ (8 * Z.of_nat 4)) with 4294967296. lia. }
  destruct (case_CONSOLE_WRITE_run e _ (with_entry e ev' st) (ev_data ev') He)
    as (st' & Hrun & Hvga & Hlog & _).
  { rewrite Hsize. lia. }
  exists st'. split; [exact Hrun|]. rewrite Hvga, Hlog, Hsize. split; [|reflexivity].
  rewrite Hd'. rewrite (drop_app_length' L4) by done. rewrite Nat2Z.id.
  rewrite Nat.min_l by (rewrite <- Hcl; by apply strlen_app_ge).
  by rewrite take_app_length'.
Qed.

Lemma print_reaches_console_witness :
  exists payload ev ev',
    print_payload [104; 105; 0; 33] = Ok (payload, 4 + Z.of_nat 2) /\
    execute_event_build EVENT_CONSOLE_WRITE 3 (Some payload) (4 + Z.of_nat 2) 1
    = Ok ev /\
    transported ev stale_ring = Some ev' /\
    exists st',
      hardware_deck_process (Some 0%nat) 0 (with_entry 0 ev' idle_state)
      = Ok (1, st') /\
      vga_log st'
      = vga_log idle_state
        ++ (console_call VGA_DEFAULT <$> c_string [104; 105; 0; 33])
        ++ [VgaUpdateCursor] /\
      deck_log st'
      = deck_log idle_state
        ++ [CallComplete 0 DECK_PREFIX_HARDWARE (RValue (Z.of_nat 2))
              RESULT_TYPE_VALUE].
Proof.
  apply (print_reaches_console [104; 105; 0; 33] 1 stale_ring stale_slot 0
           idle_state 0).
  - vm_compute. lia.
  - repeat (constructor; [vm_compute; split; [discriminate|reflexivity]|]).
    constructor.
  - split; [lia|reflexivity].
  - vm_compute. split_and!; discriminate || reflexivity.
  - reflexivity.
  - reflexivity.
  - reflexivity.
Defined.

(** X17: sleep_ms through the deck.  The event sleep_ms builds for a
    32-bit duration arrives whole (its 8-byte payload lies in the transported
    part).  The deck refuses a duration of 0 and one above 3600000 ms with an
    invalid-parameter failure, so such a call does not sleep at all;
    otherwise it parks the entry, suspended, on the first free timer slot, as
    a one-shot timer of workflow 1 due ms * 2400000 ticks after the clock
    reading, without reporting anything yet. *)
Theorem sleep_ms_reaches_timer ms id r slot e st now :
  0 <= ms < 2 ^ 32 -> 0 <= id < 2 ^ 64 ->
  ring_wf r -> ring_tail r - ring_head r < 256 ->
  ring_slots r !! Z.to_nat (Z.land (ring_tail r) 255) = Some slot ->
  length slot = 264%nat ->
  (forall kernel ust, exists ust', sleep_ms kernel ms ust = Ok ust') /\
  exists ev ev',
    execute_event_build EVENT_TIMER_SLEEP 3 (Some (le_bytes 8 ms)) 8 id = Ok ev /\
    transported ev r = Some ev' /\
    (ms = 0 \/ 3600000 < ms ->
       exists msg,
         hardware_deck_process (Some e) now (with_entry e ev' st)
         = Ok (0, deck_error_detailed e DECK_PREFIX_HARDWARE
                    ERROR_INVALID_PARAMETER msg (with_entry e ev' st))) /\
    (1 <= ms <= 3600000 ->
       forall i old,
         timers st !! i = Some old -> (i < MAX_TIMERS)%nat ->
         t_active old = false ->
         (forall j t, (j < i)%nat -> timers st !! j = Some t ->
                      t_active t = true) ->
         exists st',
           hardware_deck_process (Some e) now (with_entry e ev' st)
           = Ok (1, st') /\
           timers st'
           = <[i := mkTimer (wrap64 (next_timer_id st + 1)) 1
                      (wrap64 (now + ms * 2400000)) 0 (t_event_id old)
                      (Some e) true]> (timers st) /\
           deck_log st' = deck_log st /\
           entry_state e st' = Some EVENT_STATUS_SUSPENDED).
Proof.
  intros Hms Hid Hr Hroom Hslot Hlen.
  change (2 ^ 32) with 4294967296 in Hms.
  split.
  { intros kernel ust. unfold sleep_ms.
    destruct (execute_event_build_copy EVENT_TIMER_SLEEP 3 (le_bytes 8 ms) 8
                (next_event_id ust)) as (ev & Hb & _).
    { unfold EVENT_DATA_SIZE. lia. }
    { rewrite le_bytes_length. lia. }
    destruct (execute_event_returns kernel _ _ _ _ None ust ev Hb)
      as [[[ret out] ust'] Hres].
    rewrite Hres. by eexists. }
  destruct (execute_event_build_copy EVENT_TIMER_SLEEP 3 (le_bytes 8 ms) 8 id)
    as (ev & Hb & Hdata).
  { unfold EVENT_DATA_SIZE. lia. }
  { rewrite le_bytes_length. lia. }
  change (Z.to_nat 8) with 8%nat in Hdata.
  rewrite take_ge in Hdata by (by rewrite le_bytes_length).
  change (224 - 8)%nat with 216%nat in Hdata.
  assert (Hwf : Event_wf ev).
  { apply (built_event_wf _ _ _ _ _ _ _ Hb Hdata).
    - rewrite length_app, le_bytes_length, length_replicate. lia.
    - rewrite Forall_app. split; [apply le_bytes_is_byte|].
      apply Forall_replicate. unfold is_byte. lia.
    - exact Hid.
    - unfold EVENT_TIMER_SLEEP. change (2 ^ 32) with 4294967296. lia.
    - lia. }
  pose proof (transported_spec ev r slot Hwf Hr Hroom Hslot Hlen) as Htr.
  destruct (execute_event_build_fields _ _ _ _ _ _ Hb)
    as (E1 & E2 & E3 & E4 & E5 & E6).
  set (ev' := {| ev_id := ev_id ev; ev_user_id := ev_user_id ev;
                 ev_type := ev_type ev; ev_pad := ev_pad ev;
                 ev_timestamp := ev_timestamp ev; ev_route := ev_route ev;
                 ev_data := take 216 (ev_data ev) ++ drop 256 slot |}) in *.
  assert (Hread : read_le 8 0 (ev_data ev') = ms).
  { subst ev'. cbn [ev_data]. rewrite Hdata.
    rewrite take_app_ge by (rewrite le_bytes_length; lia).
    rewrite <- app_assoc. apply read_le_le_bytes.
    change (2 ^ (8 * Z.of_nat 8)) with 18446744073709551616. lia. }
  exists ev, ev'. split_and!; [exact Hb|exact Htr| |].
  - intros Hbad.
    pose proof (with_entry_lookup e ev' st) as He.
    destruct (process_dispatch e _ now (with_entry e ev' st) He)
      as (_&_& Hcase &_).
    cbn [event_copy] in Hcase. rewrite (Hcase E3). clear Hcase.
    unfold case_TIMER_SLEEP. rewrite Hread.
    destruct (Z.eqb_spec ms 0); [by eexists|].
    destruct (Z.ltb_spec 3600000 ms); [by eexists|lia].
  - intros Hok i old Hi Hlt Hfree Hbefore.
    pose proof (with_entry_lookup e ev' st) as He.
    destruct (process_dispatch e _ now (with_entry e ev' st) He)
      as (_&_& Hcase &_).
    cbn [event_copy] in Hcase. rewrite (Hcase E3). clear Hcase.
    destruct (case_TIMER_SLEEP_run e _ now (with_entry e ev' st) (ev_data ev')
                i old He) as (st' & Hrun & Hts & Hlog & Hstate);
      [by rewrite Hread|exact Hi|exact Hlt|exact Hfree|exact Hbefore|].
    exists st'. split_and!; [exact Hrun| |exact Hlog|exact Hstate].
    rewrite Hts, Hread. cbn [event_copy]. subst ev'. cbn [ev_user_id].
    by rewrite E2.
Qed.

Lemma sleep_ms_reaches_timer_witness :
  exists ev ev',
    execute_event_build EVENT_TIMER_SLEEP 3 (Some (le_bytes 8 4000000)) 8 1
    = Ok ev /\
    transported ev stale_ring = Some ev' /\
    exists msg,
      hardware_deck_process (Some 0%nat) 0 (with_entry 0 ev' idle_state)
      = Ok (0, deck_error_detailed 0 DECK_PREFIX_HARDWARE
                 ERROR_INVALID_PARAMETER msg (with_entry 0 ev' idle_state)).
Proof.
  destruct (sleep_ms_reaches_timer 4000000 1 stale_ring stale_slot 0 idle_state 0)
    as (_ & ev & ev' & Hb & Htr & Hbad & _).
  - split; [lia|reflexivity].
  - split; [lia|reflexivity].
  - vm_compute. split_and!; discriminate || reflexivity.
  - reflexivity.
  - reflexivity.
  - reflexivity.
  - exists ev, ev'. split_and!; [exact Hb|exact Htr|].
    apply Hbad. right. lia.
Defined.

End EndToEnd.
